(** * Cat_DB manager: a shallow embedding of [Cat_DB.py]

    The development follows the source file top-down:
    - [DbName]: the [SAFE_DB_RE] filter and [set_current_db];
    - [Er]: the auto-layout and the edge drawing of [build_er_diagram];
    - later modules: CSV export and the database-backed GUI operations.

    Python integers are unbounded, so they are [Z]; [//] and [%] are the
    floor division and modulus, which for [Z] are [Z.div] and [Z.modulo].
    A [dict] keyed by table name is a [gmap string _]. *)

From Stdlib Require Import ZArith Lia List String Ascii.
From stdpp Require Import base option list gmap strings pretty.

Local Open Scope Z_scope.

(** ** The ER diagram: [build_er_diagram], [_draw_table_box], [_draw_arrow] *)
Module Er.

(** A row of [PRAGMA table_info('t')], by the fields the diagram reads:
    [name], [type] (empty when the column has none) and [pk]. *)
Record column := Column {
  c_name : string;
  c_type : string;
  c_pk : Z
}.

(** A row of [PRAGMA foreign_key_list('t')], by the fields the diagram
    reads: [from], [table], [to]. *)
Record fk_row := FkRow {
  fk_from : string;
  fk_table : string;
  fk_to : string
}.

(** What the catalog queries answer for one table. *)
Record table_def := TableDef {
  t_name : string;
  t_cols : list column;
  t_fks : list fk_row
}.

(** Items created on the Tk canvas, in creation order. *)
Inductive item :=
| Rectangle (x1 y1 x2 y2 : Z) (outline fill : string)
| Text (x y : Z) (text font : string)
| Line (x1 y1 x2 y2 : Z).

(** [boxes[t] = (x1, y1, x2, y2)] *)
Abbreviation box := (Z * Z * Z * Z)%type (only parsing).

(** The quadruple appended to [fks]: [(from_table, from_col, to_table, to_col)]. *)
Abbreviation fk_edge := (string * string * string * string)%type (only parsing).

Definition PADDING : Z := 24.
Definition BOX_W : Z := 260.
Definition LINE_H : Z := 18.
Definition TITLE_H : Z := 26.
Definition GAP_X : Z := 40.
Definition GAP_Y : Z := 40.

(** [W = self.er_canvas.winfo_width() or 1000]: [or] takes the right
    operand exactly when the left one is falsy, which for an int is 0. *)
Definition canvas_width (winfo_width : Z) : Z :=
  if winfo_width =? 0 then 1000 else winfo_width.

(** [per_row = max(1, (W - PADDING) // (BOX_W + GAP_X))] *)
Definition per_row (W : Z) : Z := Z.max 1 ((W - PADDING) / (BOX_W + GAP_X)).

(** The column label of [_draw_table_box]: an empty [type] is falsy. *)
Definition column_label (c : column) : string :=
  let label := c_name c in
  let label := if String.eqb (c_type c) "" then label else label +:+ ": " +:+ c_type c in
  if c_pk c =? 1 then label +:+ " [PK]" else label.

(** The loop over [cols] in [_draw_table_box], [y] advancing by [line_h]. *)
Fixpoint draw_columns (x1 y line_h : Z) (cols : list column) : list item :=
  match cols with
  | [] => []
  | c :: rest =>
      Text (x1 + 10) y (column_label c) "Consolas 9"
        :: draw_columns x1 (y + line_h) line_h rest
  end.

Definition _draw_table_box (name : string) (cols : list column)
    (x1 y1 x2 y2 line_h : Z) : list item :=
  [ Rectangle x1 y1 x2 y2 "#888" "#ffffff";
    Rectangle x1 y1 x2 (y1 + 24) "#666" "#f0f0f0";
    Text (x1 + 8) (y1 + 12) name "Segoe UI 10 bold" ]
  ++ draw_columns x1 (y1 + 32) line_h cols.

(** [_draw_arrow]: the line, then the label when [text] is not empty. *)
Definition _draw_arrow (x1 y1 x2 y2 : Z) (text : string) : list item :=
  Line x1 y1 x2 y2 ::
  (if String.eqb text "" then []
   else let mx := (x1 + x2) / 2 in
        let my := (y1 + y2) / 2 in
        [Text mx (my - 8) text "Segoe UI 8"]).

(** *** Collecting the data *)

(** The first loop of [build_er_diagram]: fill [cols_by_table] and [fks]
    from the catalog answers, table by table. *)
Fixpoint collect (catalog : list table_def)
    (cols_by_table : gmap string (list column)) (fks : list fk_edge)
    : gmap string (list column) * list fk_edge :=
  match catalog with
  | [] => (cols_by_table, fks)
  | d :: rest =>
      let t := t_name d in
      collect rest (<[t := t_cols d]> cols_by_table)
        (fks ++ map (fun fk => (t, fk_from fk, fk_table fk, fk_to fk)) (t_fks d))
  end.

(** *** Auto-layout *)

(** The body of the layout loop for the table at [idx] with [ncols]
    columns: [row], [col], [x1], [nlines], [box_h], [y1], [x2], [y2]. *)
Definition place (W idx : Z) (ncols : nat) : box :=
  let row := idx / per_row W in
  let col := idx mod per_row W in
  let x1 := PADDING + col * (BOX_W + GAP_X) in
  let nlines := Z.max 1 (Z.of_nat ncols) in
  let box_h := TITLE_H + 8 + nlines * LINE_H + 12 in
  let y1 := PADDING + row * (box_h + GAP_Y) in
  let x2 := x1 + BOX_W in
  let y2 := y1 + box_h in
  (x1, y1, x2, y2).

(** [for idx, t in enumerate(tables)]: draw the box, record it in [boxes].
    [cols_by_table[t]] cannot raise here, every [t] was inserted by
    [collect]; the total lookup stands for it. *)
Fixpoint layout (W : Z) (cols_by_table : gmap string (list column))
    (idx : Z) (tables : list string)
    (canvas : list item) (boxes : gmap string box)
    : list item * gmap string box :=
  match tables with
  | [] => (canvas, boxes)
  | t :: rest =>
      let cols := cols_by_table !!! t in
      let '(x1, y1, x2, y2) := place W idx (length cols) in
      layout W cols_by_table (idx + 1) rest
        (canvas ++ _draw_table_box t cols x1 y1 x2 y2 LINE_H)
        (<[t := (x1, y1, x2, y2)]> boxes)
  end.

(** *** Edges *)

(** The arrow of one foreign-key row, or nothing ([continue]) when one of
    the two tables has no box.  The source's [tt] is [tt'] here, [tt]
    being the value of [unit]. *)
Definition draw_edge (boxes : gmap string box) (e : fk_edge) : list item :=
  let '(ft, fc, tt', tc) := e in
  match boxes !! ft, boxes !! tt' with
  | Some (fx1, fy1, fx2, fy2), Some (tx1, ty1, tx2, ty2) =>
      let sx := fx2 in
      let sy := (fy1 + fy2) / 2 in
      let ex := tx1 in
      let ey := (ty1 + ty2) / 2 in
      _draw_arrow sx sy ex ey (fc +:+ " → " +:+ tc)
  | _, _ => []
  end.

Fixpoint draw_edges (boxes : gmap string box) (fks : list fk_edge)
    (canvas : list item) : list item :=
  match fks with
  | [] => canvas
  | e :: rest => draw_edges boxes rest (canvas ++ draw_edge boxes e)
  end.

(** The diagram drawn for a catalog (tables in the order of the
    [ORDER BY name] query) on a canvas whose [winfo_width()] is given:
    the canvas items and the [boxes] dictionary. *)
Definition render (winfo_width : Z) (catalog : list table_def)
    : list item * gmap string box :=
  let tables := map t_name catalog in
  let '(cols_by_table, fks) := collect catalog ∅ [] in
  let W := canvas_width winfo_width in
  let '(canvas, boxes) := layout W cols_by_table 0 tables [] ∅ in
  (draw_edges boxes fks canvas, boxes).

(** *** Vocabulary for the properties of the diagram *)

Implicit Types (catalog : list table_def).

(** The frame rectangles of a canvas, one per [_draw_table_box] call. *)
Definition frames (canvas : list item) : list box :=
  flat_map (fun it =>
    match it with
    | Rectangle x1 y1 x2 y2 outline _ =>
        if String.eqb outline "#888" then [(x1, y1, x2, y2)] else []
    | _ => []
    end) canvas.

(** The arrows of a canvas: its [create_line] items. *)
Definition lines (canvas : list item) : list item :=
  flat_map (fun it => match it with Line _ _ _ _ => [it] | _ => [] end) canvas.

Definition fk_rows_of (d : table_def) : list fk_edge :=
  map (fun fk => (t_name d, fk_from fk, fk_table fk, fk_to fk)) (t_fks d).

(** [render] with its intermediate values named. *)
Definition the_cols catalog : gmap string (list column) := (collect catalog ∅ []).1.
Definition the_layout (w : Z) catalog : list item * gmap string box :=
  layout (canvas_width w) (the_cols catalog) 0 (map t_name catalog) [] ∅.

Definition nonneg_box (b : box) : Prop :=
  let '(x1, y1, x2, y2) := b in 0 <= x1 /\ 0 <= y1 /\ 0 <= x2 /\ 0 <= y2.

(** The top-left corner [(x1, y1)] of the box of the table at index [i]. *)
Definition position_of (w : Z) catalog (i : nat) : option (Z * Z) :=
  d ← catalog !! i;
  b ← (render w catalog).2 !! t_name d;
  Some (b.1.1.1, b.1.1.2).

Definition one_col (n : string) : table_def :=
  TableDef n [Column "id" "INTEGER" 1] [].
Definition two_cols (n : string) : table_def :=
  TableDef n [Column "id" "INTEGER" 1; Column "name" "TEXT" 0] [].

(** Two schemas of four tables that differ only in the number of columns
    of the fourth table. *)
Definition schema_narrow : list table_def :=
  [one_col "t1"; one_col "t2"; one_col "t3"; one_col "t4"].
Definition schema_wide : list table_def :=
  [one_col "t1"; one_col "t2"; one_col "t3"; two_cols "t4"].

(** The example of the help text: [bestellungen.kunden_id] references
    [kunden.kunden_id]; a second foreign key points to a table that does
    not exist. *)
Definition shop : list table_def :=
  [ TableDef "bestellungen"
      [ Column "bestellung_id" "INTEGER" 1;
        Column "kunden_id" "INTEGER" 0;
        Column "datum" "TEXT" 0 ]
      [ FkRow "kunden_id" "kunden" "kunden_id";
        FkRow "datum" "kalender" "tag" ];
    TableDef "kunden"
      [ Column "kunden_id" "INTEGER" 1;
        Column "name" "TEXT" 0 ]
      [] ].

End Er.


(** ** Database names: [SAFE_DB_RE], [set_current_db] *)
Module DbName.

Local Open Scope char_scope.

(** The part of Python's [re] syntax that [SAFE_DB_RE] uses.  A [str] is
    modelled by the bytes of its UTF-8 encoding: every code point above
    127 is a run of bytes above 127, which neither a class of ASCII
    ranges nor an ASCII literal matches, as in Python. *)
Inductive atom :=
| Bol                                  (* ^ *)
| Eol                                  (* $ *)
| Chr (c : ascii)                      (* a literal, e.g. \. *)
| OneOrMore (cls : list (ascii * ascii)). (* [..]+ with its ranges *)

Definition in_range (c : ascii) (r : ascii * ascii) : bool :=
  (nat_of_ascii (fst r) <=? nat_of_ascii c)%nat
  && (nat_of_ascii c <=? nat_of_ascii (snd r))%nat.

Definition in_class (cls : list (ascii * ascii)) (c : ascii) : bool :=
  existsb (in_range c) cls.

(** A greedy [+] over a one-character item: take one more character
    first, and on failure let the rest of the pattern continue here. *)
Fixpoint one_or_more (cls : ascii -> bool) (k : string -> bool) (s : string) : bool :=
  match s with
  | EmptyString => false
  | String c s' => cls c && (one_or_more cls k s' || k s')
  end.

(** Without [re.MULTILINE], [$] matches at the end of the string and
    just before a newline that is the last character of the string. *)
Definition at_eol (s : string) : bool :=
  match s with
  | EmptyString => true
  | String c EmptyString => Ascii.eqb c "010"
  | _ => false
  end.

(** [pattern.match(s)]: the pattern must match at the start of [s]; the
    result says whether a match object (truthy) or [None] comes back. *)
Fixpoint match_atoms (pat : list atom) (at_start : bool) (s : string) : bool :=
  match pat with
  | [] => true
  | Bol :: p => at_start && match_atoms p at_start s
  | Eol :: p => at_eol s && match_atoms p at_start s
  | Chr c :: p =>
      match s with
      | String c' s' => Ascii.eqb c c' && match_atoms p false s'
      | EmptyString => false
      end
  | OneOrMore cls :: p => one_or_more (in_class cls) (match_atoms p false) s
  end.

Definition re_match (pat : list atom) (s : string) : bool := match_atoms pat true s.

(** [SAFE_DB_RE = re.compile(r"^[a-zA-Z0-9_\-]+\.db$")] *)
Definition SAFE_DB_RE : list atom :=
  [ Bol;
    OneOrMore [("a", "z"); ("A", "Z"); ("0", "9"); ("_", "_"); ("-", "-")];
    Chr "."; Chr "d"; Chr "b";
    Eol ].

(** A [pathlib.Path] by its parts; [p / name] appends [name] as one part,
    which is what pathlib does for a name without a separator. *)
Definition path := list string.
Definition path_div (p : path) (name : string) : path := p ++ [name].

(** The module-level names the function reads and assigns. *)
Record globals := Globals {
  DATA_DIR : path;
  CURRENT_DB : path
}.

Inductive exn :=
| ValueError (msg : string).

(** [set_current_db]: either returns, with [CURRENT_DB] rebound, or
    raises, the globals being as they were. *)
Definition set_current_db (name : string) (g : globals) : (unit + exn) * globals :=
  if negb (re_match SAFE_DB_RE name) then
    (inr (ValueError "Ungültiger DB-Name (a-z, 0-9, _, -, .db)"%string), g)
  else
    (inl tt, {| DATA_DIR := DATA_DIR g; CURRENT_DB := path_div (DATA_DIR g) name |}).

(** *** The names the specification allows *)

(** The names the specification allows: one or more letters, digits,
    underscores or hyphens, then the extension. *)
Definition safe_char (c : ascii) : bool :=
  let n := nat_of_ascii c in
  ((97 <=? n) && (n <=? 122) || (65 <=? n) && (n <=? 90)
   || (48 <=? n) && (n <=? 57) || (n =? 95) || (n =? 45))%nat.

Fixpoint all_chars (f : ascii -> bool) (s : string) : bool :=
  match s with
  | EmptyString => true
  | String c s' => f c && all_chars f s'
  end.

Definition safe_db_name (name : string) : Prop :=
  exists stem, stem <> ""%string /\ all_chars safe_char stem = true
               /\ name = (stem +:+ ".db")%string.

Definition newline : string := String "010" "".

End DbName.

(** ** The [str] methods the program calls *)
Module PyStr.

Local Open Scope char_scope.

(** A Python [str] is held by its UTF-8 bytes, as the literals of this
    file are; [bytes] writes one by the numbers of its bytes. *)
Definition bytes (codes : list Z) : string :=
  string_of_list_ascii (map (fun n => ascii_of_nat (Z.to_nat n)) codes).

(** The white space of [str.strip()] and [str.isspace]: the code points
    U+0009 to U+000D, U+001C to U+001F, U+0020, U+0085, U+00A0, U+1680,
    U+2000 to U+200A, U+2028, U+2029, U+202F, U+205F and U+3000, each by
    its UTF-8 bytes. *)
Definition whitespace : list string :=
  map bytes
    [ [9]; [10]; [11]; [12]; [13]; [28]; [29]; [30]; [31]; [32];
      [194; 133]; [194; 160]; [225; 154; 128];
      [226; 128; 128]; [226; 128; 129]; [226; 128; 130]; [226; 128; 131];
      [226; 128; 132]; [226; 128; 133]; [226; 128; 134]; [226; 128; 135];
      [226; 128; 136]; [226; 128; 137]; [226; 128; 138];
      [226; 128; 168]; [226; 128; 169]; [226; 128; 175];
      [226; 129; 159]; [227; 128; 128] ].

(** The white space character [s] starts with. *)
Definition space_at (s : string) : option string :=
  List.find (fun e => String.prefix e s) whitespace.

(** [lstrip]; [skip] counts the bytes still to drop of the white space
    character that is being removed. *)
Fixpoint lstrip_from (skip : nat) (s : string) : string :=
  match s with
  | String _ s' =>
      match skip with
      | S k => lstrip_from k s'
      | O => match space_at s with
             | Some e => lstrip_from (String.length e - 1) s'
             | None => s
             end
      end
  | EmptyString => s
  end.

Definition lstrip (s : string) : string := lstrip_from 0 s.

(** [rstrip]: cut where nothing but white space follows. *)
Fixpoint rstrip (s : string) : string :=
  match s with
  | String c s' =>
      if String.eqb (lstrip s) EmptyString then EmptyString else String c (rstrip s')
  | EmptyString => s
  end.

Definition strip (s : string) : string := rstrip (lstrip s).

(** [str.lower] on the ASCII range. *)
Definition lower_char (c : ascii) : ascii :=
  let n := nat_of_ascii c in
  if ((65 <=? n) && (n <=? 90))%nat then ascii_of_nat (n + 32) else c.

Fixpoint lower (s : string) : string :=
  match s with
  | String c s' => String (lower_char c) (lower s')
  | EmptyString => EmptyString
  end.

Definition startswith (s p : string) : bool := String.prefix p s.

(** [sub in s] *)
Fixpoint contains (sub s : string) : bool :=
  String.prefix sub s
  || match s with
     | String _ s' => contains sub s'
     | EmptyString => false
     end.

(** [s.split(sep)] for a one-character separator: the pieces between the
    separators, empty pieces included, never an empty list. *)
Fixpoint split (sep : ascii) (s : string) : list string :=
  match s with
  | EmptyString => [EmptyString]
  | String c s' =>
      if Ascii.eqb c sep then EmptyString :: split sep s'
      else match split sep s' with
           | piece :: rest => String c piece :: rest
           | [] => [String c EmptyString]
           end
  end.

(** [sep.join(parts)] *)
Fixpoint join (sep : string) (parts : list string) : string :=
  match parts with
  | [] => EmptyString
  | [x] => x
  | x :: rest => x +:+ sep +:+ join sep rest
  end.

End PyStr.

(** ** The database-backed operations of [App] *)
Module Gui.
Import PyStr.

Definition APP_TITLE : string := "Cat_DB-Manager – Lern-GUI".

(** *** Values, rows, cursors, exceptions *)

(** The Python values SQLite hands back.  A [float] and a [bytes] carry
    the text [str()] gives for them. *)
Inductive value :=
| VNone
| VInt (n : Z)
| VStr (s : string)
| VFloat (str : string)
| VBytes (str : string).

(** [str(v)], as in an f-string or in [csv.writer] for a non-string. *)
Definition str (v : value) : string :=
  match v with
  | VNone => "None"
  | VInt n => pretty n
  | VStr s => s
  | VFloat s => s
  | VBytes s => s
  end.

(** Truthiness: [None], [0], [""], [0.0] and [b""] are falsy. *)
Definition truthy (v : value) : bool :=
  match v with
  | VNone => false
  | VInt n => negb (n =? 0)
  | VStr s => negb (String.eqb s "")
  | VFloat s => negb (String.eqb s "0.0" || String.eqb s "-0.0")
  | VBytes s => negb (String.eqb s "b''")
  end.

(** [v == 1] for the integer flags of the catalog. *)
Definition eq_int (v : value) (n : Z) : bool :=
  match v with
  | VInt m => m =? n
  | _ => false
  end.

(** An exception object: its class and [str(e)]. *)
Record exn := Exn { e_class : string; e_str : string }.

Inductive res (A : Type) :=
| Ok (a : A)
| Raise (e : exn).
Arguments Ok {A} a.
Arguments Raise {A} e.

(** A cursor after [execute]: [description] ([None] for a statement
    without result columns) reduced to the column names [d[0]], and what
    [fetchall()] returns, each row by its values in column order. *)
Record cursor := Cursor {
  description : option (list string);
  fetchall : list (list value)
}.

(** A [sqlite3.Row]: the column names of its cursor and its values. *)
Record Row := MkRow { keys : list string; values : list value }.

Definition rows_of (cur : cursor) : list Row :=
  map (MkRow (default [] (description cur))) (fetchall cur).

(** [r[c]] for a string key: the first column whose name equals [c]
    without regard to ASCII case, or [IndexError]. *)
Fixpoint lookup_key (ks : list string) (vs : list value) (c : string) : res value :=
  match ks, vs with
  | k :: ks', v :: vs' =>
      if String.eqb (lower k) (lower c) then Ok v else lookup_key ks' vs' c
  | _, _ => Raise (Exn "IndexError" "No item with that key")
  end.

Definition getitem (r : Row) (c : string) : res value := lookup_key (keys r) (values r) c.

(** *** The statements the program executes *)

Inductive stmt :=
| PragmaForeignKeysOn
| SelectTables
| PragmaTableInfo (t : string)
| PragmaForeignKeyList (t : string)
| SelectAllFrom (t where_ : string)
| DeleteWhere (t pk_col : string) (pk_val : value)
| CreateItems
| InsertItem (name desc : string)
| SelectItems
| Statement (stmt : string).

Definition create_items_sql : string :=
  "CREATE TABLE IF NOT EXISTS items (id INTEGER PRIMARY KEY AUTOINCREMENT, name TEXT NOT NULL, description TEXT, created TEXT DEFAULT (datetime('now','localtime')))".

(** The SQL text and the bound parameters of each statement, as the
    source writes them (the white space of the multi-line literals
    apart). *)
Definition sql_text (s : stmt) : string * list value :=
  match s with
  | PragmaForeignKeysOn => ("PRAGMA foreign_keys = ON;", [])
  | SelectTables =>
      ("SELECT name FROM sqlite_master WHERE type='table' AND name NOT LIKE 'sqlite_%' ORDER BY name", [])
  | PragmaTableInfo t => ("PRAGMA table_info('" +:+ t +:+ "')", [])
  | PragmaForeignKeyList t => ("PRAGMA foreign_key_list('" +:+ t +:+ "')", [])
  | SelectAllFrom t where_ =>
      ("SELECT * FROM " +:+ t
         +:+ (if String.eqb where_ "" then "" else " WHERE " +:+ where_), [])
  | DeleteWhere t pk_col pk_val =>
      ("DELETE FROM " +:+ t +:+ " WHERE " +:+ pk_col +:+ " = ?", [pk_val])
  | CreateItems => (create_items_sql, [])
  | InsertItem name desc =>
      ("INSERT INTO items (name, description) VALUES (?, ?)", [VStr name; VStr desc])
  | SelectItems => ("SELECT * FROM items ORDER BY created DESC", [])
  | Statement stmt => (stmt, [])
  end.

(** *** The world outside the program *)

(** The [sqlite3] module and the file system, over a state [St] of
    their own: the database file [CURRENT_DB] names, the connections,
    the files.  Every call may raise.  A connection is known by a
    number. *)
Record sqlite3 (St : Type) := Sqlite3 {
  db_exists : DbName.path -> St -> bool;
  connect : DbName.path -> St -> res nat * St;
  execute : nat -> stmt -> St -> res cursor * St;
  executescript : nat -> string -> St -> res unit * St;
  commit : nat -> St -> res unit * St;
  rollback : nat -> St -> St;
  total_changes : nat -> St -> Z;
  open_w : string -> St -> res unit * St;
  write : string -> string -> St -> res unit * St
}.
Arguments db_exists {St}.
Arguments connect {St}.
Arguments execute {St}.
Arguments executescript {St}.
Arguments commit {St}.
Arguments rollback {St}.
Arguments total_changes {St}.
Arguments open_w {St}.
Arguments write {St}.

(** *** The widgets *)

(** A [ttk.Treeview] used as a grid: its columns, the values of its
    items in order, the selected items by position.  A cell holds the
    value that was inserted; Tk's rendering of it is not modelled. *)
Record grid := Grid {
  columns : list string;
  items : list (list value);
  selection : list nat
}.

Definition empty_grid : grid := Grid [] [] [].

Record widgets := Widgets {
  cmb_tables : string;
  cmb_tables_values : list string;
  ent_filter : string;
  grid_browse : grid;
  grid_items : grid;
  result : grid;
  txt_sql : string;
  ent_name : string;
  ent_desc : string;
  tree : list (nat * string);
  er_canvas : list Er.item;
  er_canvas_winfo_width : Z;
  er_info : string;
  status : string
}.

Inductive icon := Info | Warning | Error.

(** The two grids [_render_grid] is called on. *)
Inductive grid_id := GridBrowse | GridItems.

(** What an operation does to the outside, in order: the calls into
    [sqlite3], the file written, the dialogs, and the resetting of a
    grid to new columns by [_render_grid]. *)
Inductive event :=
| Connect (c : nat)
| Execute (c : nat) (s : stmt)
| ExecuteScript (c : nat) (sql : string)
| Commit (c : nat)
| Rollback (c : nat)
| Close (c : nat)
| OpenFile (file encoding : string)
| WriteFile (file text : string)
| CloseFile (file : string)
| Raised (e : exn)
| MessageBox (i : icon) (title message : string)
| GridReset (g : grid_id) (cols : list string).

Record world (St : Type) := World {
  env : St;
  globals : DbName.globals;
  ui : widgets;
  trace : list event
}.
Arguments World {St}.
Arguments env {St}.
Arguments globals {St}.
Arguments ui {St}.
Arguments trace {St}.

(** *** Widget updates *)

Definition set_cmb_tables (v : string) (u : widgets) : widgets :=
  Widgets v (cmb_tables_values u) (ent_filter u) (grid_browse u) (grid_items u)
    (result u) (txt_sql u) (ent_name u) (ent_desc u) (tree u) (er_canvas u)
    (er_canvas_winfo_width u) (er_info u) (status u).
Definition set_cmb_tables_values (v : list string) (u : widgets) : widgets :=
  Widgets (cmb_tables u) v (ent_filter u) (grid_browse u) (grid_items u)
    (result u) (txt_sql u) (ent_name u) (ent_desc u) (tree u) (er_canvas u)
    (er_canvas_winfo_width u) (er_info u) (status u).
Definition set_grid_browse (v : grid) (u : widgets) : widgets :=
  Widgets (cmb_tables u) (cmb_tables_values u) (ent_filter u) v (grid_items u)
    (result u) (txt_sql u) (ent_name u) (ent_desc u) (tree u) (er_canvas u)
    (er_canvas_winfo_width u) (er_info u) (status u).
Definition set_grid_items (v : grid) (u : widgets) : widgets :=
  Widgets (cmb_tables u) (cmb_tables_values u) (ent_filter u) (grid_browse u) v
    (result u) (txt_sql u) (ent_name u) (ent_desc u) (tree u) (er_canvas u)
    (er_canvas_winfo_width u) (er_info u) (status u).
Definition set_result (v : grid) (u : widgets) : widgets :=
  Widgets (cmb_tables u) (cmb_tables_values u) (ent_filter u) (grid_browse u)
    (grid_items u) v (txt_sql u) (ent_name u) (ent_desc u) (tree u) (er_canvas u)
    (er_canvas_winfo_width u) (er_info u) (status u).
Definition set_ent_name (v : string) (u : widgets) : widgets :=
  Widgets (cmb_tables u) (cmb_tables_values u) (ent_filter u) (grid_browse u)
    (grid_items u) (result u) (txt_sql u) v (ent_desc u) (tree u) (er_canvas u)
    (er_canvas_winfo_width u) (er_info u) (status u).
Definition set_ent_desc (v : string) (u : widgets) : widgets :=
  Widgets (cmb_tables u) (cmb_tables_values u) (ent_filter u) (grid_browse u)
    (grid_items u) (result u) (txt_sql u) (ent_name u) v (tree u) (er_canvas u)
    (er_canvas_winfo_width u) (er_info u) (status u).
Definition set_tree (v : list (nat * string)) (u : widgets) : widgets :=
  Widgets (cmb_tables u) (cmb_tables_values u) (ent_filter u) (grid_browse u)
    (grid_items u) (result u) (txt_sql u) (ent_name u) (ent_desc u) v (er_canvas u)
    (er_canvas_winfo_width u) (er_info u) (status u).
Definition set_er_canvas (v : list Er.item) (u : widgets) : widgets :=
  Widgets (cmb_tables u) (cmb_tables_values u) (ent_filter u) (grid_browse u)
    (grid_items u) (result u) (txt_sql u) (ent_name u) (ent_desc u) (tree u) v
    (er_canvas_winfo_width u) (er_info u) (status u).
Definition set_er_info (v : string) (u : widgets) : widgets :=
  Widgets (cmb_tables u) (cmb_tables_values u) (ent_filter u) (grid_browse u)
    (grid_items u) (result u) (txt_sql u) (ent_name u) (ent_desc u) (tree u)
    (er_canvas u) (er_canvas_winfo_width u) v (status u).
Definition set_txt_sql (v : string) (u : widgets) : widgets :=
  Widgets (cmb_tables u) (cmb_tables_values u) (ent_filter u) (grid_browse u)
    (grid_items u) (result u) v (ent_name u) (ent_desc u) (tree u) (er_canvas u)
    (er_canvas_winfo_width u) (er_info u) (status u).
Definition set_ent_filter (v : string) (u : widgets) : widgets :=
  Widgets (cmb_tables u) (cmb_tables_values u) v (grid_browse u)
    (grid_items u) (result u) (txt_sql u) (ent_name u) (ent_desc u) (tree u)
    (er_canvas u) (er_canvas_winfo_width u) (er_info u) (status u).
Definition set_status (v : string) (u : widgets) : widgets :=
  Widgets (cmb_tables u) (cmb_tables_values u) (ent_filter u) (grid_browse u)
    (grid_items u) (result u) (txt_sql u) (ent_name u) (ent_desc u) (tree u)
    (er_canvas u) (er_canvas_winfo_width u) (er_info u) v.

(** *** The monad of the operations: state, trace and exceptions *)
Section Monad.
Context {St : Type}.

Definition M (A : Type) : Type := world St -> res A * world St.

Definition ret {A} (a : A) : M A := fun w => (Ok a, w).

Definition bind {A B} (m : M A) (f : A -> M B) : M B :=
  fun w => match m w with
           | (Ok a, w') => f a w'
           | (Raise e, w') => (Raise e, w')
           end.

Definition emit (ev : event) : M unit :=
  fun w => (Ok tt, World (env w) (globals w) (ui w) (trace w ++ [ev])).

(** [raise e] where the exception starts; [reraise e] where a [with]
    block lets it through. *)
Definition raise {A} (e : exn) : M A :=
  fun w => (Raise e, World (env w) (globals w) (ui w) (trace w ++ [Raised e])).
Definition reraise {A} (e : exn) : M A := fun w => (Raise e, w).

(** [try: body / except Exception as e: handler] *)
Definition try_except {A} (body : M A) (handler : exn -> M A) : M A :=
  fun w => match body w with
           | (Ok a, w') => (Ok a, w')
           | (Raise e, w') => handler e w'
           end.

(** A call into [sqlite3] or the file system. *)
Definition call {A} (f : St -> res A * St) : M A :=
  fun w => match f (env w) with
           | (Ok a, st) => (Ok a, World st (globals w) (ui w) (trace w))
           | (Raise e, st) =>
               (Raise e, World st (globals w) (ui w) (trace w ++ [Raised e]))
           end.

Definition get_ui : M widgets := fun w => (Ok (ui w), w).
Definition modify_ui (f : widgets -> widgets) : M unit :=
  fun w => (Ok tt, World (env w) (globals w) (f (ui w)) (trace w)).
Definition get_globals : M DbName.globals := fun w => (Ok (globals w), w).
Definition lift {A} (r : res A) : M A :=
  match r with Ok a => ret a | Raise e => raise e end.

(** [for x in xs: body] *)
Fixpoint for_each {A} (xs : list A) (body : A -> M unit) : M unit :=
  match xs with
  | [] => ret tt
  | x :: rest => bind (body x) (fun _ => for_each rest body)
  end.

(** A loop that carries an accumulator. *)
Fixpoint fold_each {A B} (xs : list A) (acc : B) (body : B -> A -> M B) : M B :=
  match xs with
  | [] => ret acc
  | x :: rest => bind (body acc x) (fun acc' => fold_each rest acc' body)
  end.

(** A list comprehension whose element expression may raise. *)
Fixpoint map_each {A B} (xs : list A) (f : A -> M B) : M (list B) :=
  match xs with
  | [] => ret []
  | x :: rest =>
      bind (f x) (fun y => bind (map_each rest f) (fun ys => ret (y :: ys)))
  end.

End Monad.
Arguments M St A : clear implicits.

Notation "'let*' x ':=' m 'in' k" := (bind m (fun x => k))
  (at level 10, x pattern, m at level 100, k at level 200).
Notation "m ;; k" := (bind m (fun _ => k))
  (at level 100, k at level 200, right associativity).

Definition nl : string := String "010" "".

(** *** [csv.writer(f, delimiter=";")] *)

(** The text of a field: [None] is empty, a [str] is itself, anything
    else goes through [str()]. *)
Definition csv_field (v : value) : string :=
  match v with
  | VNone => ""
  | VStr s => s
  | _ => str v
  end.

Fixpoint any_char (f : ascii -> bool) (s : string) : bool :=
  match s with
  | String c s' => f c || any_char f s'
  | EmptyString => false
  end.

(** The quote character of the default dialect. *)
Definition quotechar : ascii := "034"%char.

(** A character that forces quotes under [QUOTE_MINIMAL]: the
    delimiter, the quote character, a character of ["
"]. *)
Definition csv_special (delimiter c : ascii) : bool :=
  Ascii.eqb c delimiter || Ascii.eqb c quotechar || Ascii.eqb c "013" || Ascii.eqb c "010".

Fixpoint csv_double_quotes (s : string) : string :=
  match s with
  | String c s' =>
      if Ascii.eqb c quotechar then String c (String c (csv_double_quotes s'))
      else String c (csv_double_quotes s')
  | EmptyString => EmptyString
  end.

Definition csv_quote (delimiter : ascii) (s : string) : string :=
  if any_char (csv_special delimiter) s
  then String quotechar (csv_double_quotes s +:+ String quotechar "")
  else s.

(** [writerow]: the fields, quoted where needed, joined by the delimiter
    and ended by ["
"]; a lone empty field is written as two quotes. *)
Definition csv_row (delimiter : ascii) (fields : list value) : string :=
  match map csv_field fields with
  | [EmptyString] => String quotechar (String quotechar "")
  | texts => join (String delimiter "") (map (csv_quote delimiter) texts)
  end +:+ String "013" nl.

(** *** The operations *)
Section Ops.
Context {St : Type} (sq : sqlite3 St).

Abbreviation M' := (M St).

Definition sq_connect : M' nat :=
  let* g := get_globals in
  let* c := call (connect sq (DbName.CURRENT_DB g)) in
  emit (Connect c);;
  ret c.

Definition sq_execute (c : nat) (s : stmt) : M' cursor :=
  emit (Execute c s);;
  call (execute sq c s).

Definition sq_executescript (c : nat) (sql : string) : M' unit :=
  emit (ExecuteScript c sql);;
  call (executescript sq c sql).

Definition sq_commit (c : nat) : M' unit :=
  emit (Commit c);;
  call (commit sq c).

Definition sq_rollback (c : nat) : M' unit :=
  emit (Rollback c);;
  call (fun st => (Ok tt, rollback sq c st)).

Definition sq_total_changes (c : nat) : M' Z :=
  fun w => (Ok (total_changes sq c (env w)), w).

Definition exists_current_db : M' bool :=
  fun w => (Ok (db_exists sq (DbName.CURRENT_DB (globals w)) (env w)), w).

(** [get_db_conn] *)
Definition get_db_conn : M' nat :=
  let* conn := sq_connect in
  sq_execute conn PragmaForeignKeysOn;;
  ret conn.

(** [with get_db_conn() as conn: body].  [Connection.__exit__] commits
    when the body ends normally and rolls back when it raises, and lets
    the exception through; it does not close the connection. *)
Definition with_conn {A} (body : nat -> M' A) : M' A :=
  let* conn := get_db_conn in
  fun w => match body conn w with
           | (Ok a, w') => (sq_commit conn;; ret a) w'
           | (Raise e, w') => (sq_rollback conn;; reraise e) w'
           end.

(** [with open(file, "w", newline="", encoding="utf-8") as f: body]:
    the file is closed on both ways out. *)
Definition with_open {A} (file : string) (body : M' A) : M' A :=
  call (open_w sq file);;
  emit (OpenFile file "utf-8");;
  fun w => match body w with
           | (Ok a, w') => (emit (CloseFile file);; ret a) w'
           | (Raise e, w') => (emit (CloseFile file);; reraise e) w'
           end.

(** [w.writerow(fields)] on the writer of [file] *)
Definition writerow (file : string) (fields : list value) : M' unit :=
  let text := csv_row ";" fields in
  call (write sq file text);;
  emit (WriteFile file text).

Definition showinfo (title message : string) : M' unit := emit (MessageBox Info title message).
Definition showwarning (title message : string) : M' unit := emit (MessageBox Warning title message).
Definition showerror (title message : string) : M' unit := emit (MessageBox Error title message).

(** [_status] *)
Definition _status (text : string) : M' unit := modify_ui (set_status text).

Definition get_grid (g : grid_id) (u : widgets) : grid :=
  match g with GridBrowse => grid_browse u | GridItems => grid_items u end.
Definition set_grid (g : grid_id) (v : grid) : widgets -> widgets :=
  match g with GridBrowse => set_grid_browse v | GridItems => set_grid_items v end.
Definition insert_item (vals : list value) (g : grid) : grid :=
  Grid (columns g) (items g ++ [vals]) (selection g).

(** [[r[c] for c in cols]] *)
Definition row_values (cols : list string) (r : Row) : M' (list value) :=
  map_each cols (fun c => lift (getitem r c)).

(** [[d[0] for d in cur.description]], which raises on [None]. *)
Definition description_names (cur : cursor) : M' (list string) :=
  match description cur with
  | Some d => ret d
  | None => raise (Exn "TypeError" "'NoneType' object is not iterable")
  end.

(** [_render_grid] *)
Definition _render_grid (g : grid_id) (cols : list string) (rows : list Row) : M' unit :=
  emit (GridReset g cols);;
  modify_ui (set_grid g (Grid cols [] []));;
  for_each rows (fun r =>
    let* vals := row_values cols r in
    modify_ui (fun u => set_grid g (insert_item vals (get_grid g u)) u)).

(** [load_table_rows] *)
Definition load_table_rows : M' unit :=
  let* u := get_ui in
  let t := strip (cmb_tables u) in
  if String.eqb t "" then ret tt else
  let where_ := strip (ent_filter u) in
  try_except
    (let* (cols, rows) := with_conn (fun conn =>
        let* cur := sq_execute conn (SelectAllFrom t where_) in
        let rows := rows_of cur in
        let cols := default [] (description cur) in
        ret (cols, rows)) in
     _render_grid GridBrowse cols rows;;
     _status (pretty (length rows) +:+ " Zeilen aus '" +:+ t +:+ "' geladen."))
    (fun e => showerror APP_TITLE ("Fehler beim Laden:" +:+ nl +:+ e_str e)).

(** The loop of [delete_selected_row] over [pkinfo], with its [break];
    [pk_col] stays [None] when no row has [pk == 1]. *)
Fixpoint first_pk (pkinfo : list Row) : M' value :=
  match pkinfo with
  | [] => ret VNone
  | c :: rest =>
      let* pk := lift (getitem c "pk") in
      if eq_int pk 1 then lift (getitem c "name") else first_pk rest
  end.

(** [cols.index(x)] on a list of strings *)
Fixpoint index_of (cols : list string) (x : value) : option nat :=
  match cols with
  | [] => None
  | c :: rest =>
      match x with
      | VStr s => if String.eqb c s then Some 0%nat else S <$> index_of rest x
      | _ => S <$> index_of rest x
      end
  end.

(** The computation of [pk_col] in [delete_selected_row] *)
Definition find_pk_col (t : string) (cols : list string) : M' value :=
  if existsb (String.eqb "id") cols then ret (VStr "id")
  else
    let* pkinfo := with_conn (fun conn =>
        let* cur := sq_execute conn (PragmaTableInfo t) in
        ret (rows_of cur)) in
    first_pk pkinfo.

(** The [try] block of [delete_selected_row] *)
Definition delete_try (t : string) (cols : list string) (vals : list value)
    (pk_col : value) : M' unit :=
  let* pk_idx :=
    match index_of cols pk_col with
    | Some i => ret i
    | None => raise (Exn "ValueError" ("'" +:+ str pk_col +:+ "' is not in list"))
    end in
  let* pk_val :=
    match vals !! pk_idx with
    | Some v => ret v
    | None => raise (Exn "IndexError" "tuple index out of range")
    end in
  with_conn (fun conn =>
    sq_execute conn (DeleteWhere t (str pk_col) pk_val);;
    sq_commit conn);;
  load_table_rows;;
  _status ("Zeile mit " +:+ str pk_col +:+ "=" +:+ str pk_val
             +:+ " aus '" +:+ t +:+ "' gelöscht.").

(** [delete_selected_row] *)
Definition delete_selected_row : M' unit :=
  let* u := get_ui in
  let t := strip (cmb_tables u) in
  if String.eqb t "" then ret tt else
  match selection (grid_browse u) with
  | [] => showinfo APP_TITLE "Bitte eine Zeile im Browse-Tab auswählen."
  | sel0 :: _ =>
      let cols := columns (grid_browse u) in
      let vals := default [] (items (grid_browse u) !! sel0) in
      let* pk_col := find_pk_col t cols in
      if negb (truthy pk_col) then
        showwarning APP_TITLE "Keine PK-Spalte gefunden (z. B. 'id')."
      else
        try_except (delete_try t cols vals pk_col)
          (fun e => showerror APP_TITLE ("Löschfehler:" +:+ nl +:+ e_str e))
  end.

(** The [try] block of [export_csv_current] *)
Definition export_csv_try (t file : string) : M' unit :=
  let* (cols, rows) := with_conn (fun conn =>
    let* cur := sq_execute conn (SelectAllFrom t "") in
    let* cols := description_names cur in
    let rows := rows_of cur in
    ret (cols, rows)) in
  with_open file
    (writerow file (map VStr cols);;
     for_each rows (fun r =>
       let* vals := row_values cols r in
       writerow file vals));;
  _status (pretty (length rows) +:+ " Zeilen aus '" +:+ t +:+ "' nach CSV exportiert.").

(** [export_csv_current]; [file] is what the save dialog answers, the
    empty string when it is cancelled. *)
Definition export_csv_current (file : string) : M' unit :=
  let* u := get_ui in
  let t := strip (cmb_tables u) in
  if String.eqb t "" then
    showinfo APP_TITLE "Bitte im Browse-Tab zuerst eine Tabelle wählen."
  else if String.eqb file "" then ret tt
  else
    try_except (export_csv_try t file)
      (fun e => showerror APP_TITLE ("Exportfehler:" +:+ nl +:+ e_str e)).

(** [reload_items] *)
Definition reload_items : M' unit :=
  try_except
    (let* (cols, rows) := with_conn (fun conn =>
        let* cur := sq_execute conn SelectItems in
        let rows := rows_of cur in
        let* cols := description_names cur in
        ret (cols, rows)) in
     _render_grid GridItems cols rows)
    (fun _ => _render_grid GridItems [] []).

(** [add_item] *)
Definition add_item : M' unit :=
  let* u := get_ui in
  let name := strip (ent_name u) in
  let desc := strip (ent_desc u) in
  if String.eqb name "" then showwarning APP_TITLE "Name erforderlich."
  else
    try_except
      (with_conn (fun conn =>
         sq_execute conn CreateItems;;
         sq_execute conn (InsertItem name desc);;
         sq_commit conn);;
       modify_ui (set_ent_name "");;
       modify_ui (set_ent_desc "");;
       reload_items;;
       showinfo APP_TITLE "Item hinzugefügt.")
      (fun e => showerror APP_TITLE ("Fehler beim Hinzufügen:" +:+ nl +:+ e_str e)).

(** The tree labels of [refresh_schema] *)
Definition tree_insert (depth : nat) (text : string) : M' unit :=
  modify_ui (fun u => set_tree (tree u ++ [(depth, text)]) u).

Definition column_tree_label (c : Row) : M' string :=
  let* name := lift (getitem c "name") in
  let* type := lift (getitem c "type") in
  let label := "• " +:+ str name +:+ " (" +:+ str type +:+ ")" in
  let* pk := lift (getitem c "pk") in
  let label := if eq_int pk 1 then label +:+ " [PK]" else label in
  let* notnull := lift (getitem c "notnull") in
  let label := if eq_int notnull 1 then label +:+ " [NOT NULL]" else label in
  let* dflt_value := lift (getitem c "dflt_value") in
  ret match dflt_value with
      | VNone => label
      | v => label +:+ " [DEFAULT " +:+ str v +:+ "]"
      end.

Definition fk_tree_label (fk : Row) : M' string :=
  let* from := lift (getitem fk "from") in
  let* table := lift (getitem fk "table") in
  let* to := lift (getitem fk "to") in
  let* on_delete := lift (getitem fk "on_delete") in
  let* on_update := lift (getitem fk "on_update") in
  ret (str from +:+ " → " +:+ str table +:+ "." +:+ str to +:+ " (ON DELETE "
         +:+ str on_delete +:+ ", ON UPDATE " +:+ str on_update +:+ ")").

(** [refresh_schema] *)
Definition refresh_schema : M' unit :=
  modify_ui (set_tree []);;
  modify_ui (set_cmb_tables "");;
  modify_ui (set_cmb_tables_values []);;
  let* present := exists_current_db in
  if negb present then ret tt else
  with_conn (fun conn =>
    let* cur := sq_execute conn SelectTables in
    let tables := rows_of cur in
    let* names := fold_each tables [] (fun names t =>
      let* tname := lift (getitem t "name") in
      tree_insert 0 (str tname);;
      let* cur := sq_execute conn (PragmaTableInfo (str tname)) in
      for_each (rows_of cur) (fun c =>
        let* label := column_tree_label c in tree_insert 1 label);;
      let* cur := sq_execute conn (PragmaForeignKeyList (str tname)) in
      let fks := rows_of cur in
      match fks with
      | [] => ret tt
      | _ => tree_insert 1 "Foreign Keys";;
             for_each fks (fun fk => let* label := fk_tree_label fk in tree_insert 2 label)
      end;;
      ret (names ++ [str tname])) in
    modify_ui (set_cmb_tables_values names);;
    match names with
    | [] => ret tt
    | n0 :: _ => modify_ui (set_cmb_tables n0);; load_table_rows
    end);;
  reload_items.

(** The catalog rows as the diagram reads them.  The source reads the
    fields of a column row while it draws the box; here they are read
    when the row is fetched. *)
Definition decode_column (c : Row) : M' Er.column :=
  let* name := lift (getitem c "name") in
  let* type := lift (getitem c "type") in
  let* pk := lift (getitem c "pk") in
  ret (Er.Column (str name) (if truthy type then str type else "")
         (if eq_int pk 1 then 1 else 0)).

Definition decode_fk (fk : Row) : M' Er.fk_row :=
  let* from := lift (getitem fk "from") in
  let* table := lift (getitem fk "table") in
  let* to := lift (getitem fk "to") in
  ret (Er.FkRow (str from) (str table) (str to)).

(** [build_er_diagram] *)
Definition build_er_diagram : M' unit :=
  modify_ui (set_er_canvas []);;
  let* present := exists_current_db in
  if negb present then modify_ui (set_er_info "Keine DB.") else
  let* catalog := with_conn (fun conn =>
    let* cur := sq_execute conn SelectTables in
    let* tables := map_each (rows_of cur) (fun r =>
      let* name := lift (getitem r "name") in ret (str name)) in
    map_each tables (fun t =>
      let* cur := sq_execute conn (PragmaTableInfo t) in
      let* cols := map_each (rows_of cur) decode_column in
      let* cur := sq_execute conn (PragmaForeignKeyList t) in
      let* fks := map_each (rows_of cur) decode_fk in
      ret (Er.TableDef t cols fks))) in
  let* u := get_ui in
  modify_ui (set_er_canvas (Er.render (er_canvas_winfo_width u) catalog).1);;
  let* g := get_globals in
  modify_ui (set_er_info ("Generiert aus: " +:+ default "" (last (DbName.CURRENT_DB g)))).

(** *** [run_sql] *)

Definition ddl_markers : list string :=
  [ "create trigger"; "create view"; "begin"; "end";
    "create table"; "drop table"; "drop view"; "alter table" ].

(** [use_script = any(m in text_low for m in ddl_markers)] *)
Definition use_script (text_low : string) : bool :=
  existsb (fun m => contains m text_low) ddl_markers.

(** The test of the [if] that chooses [executescript]. *)
Definition script_branch (sql_text : string) : bool :=
  let text_low := lower sql_text in
  use_script text_low
  && (negb (contains "select" text_low) && negb (contains "pragma" text_low)).

(** [[s.strip() for s in sql_text.split(";") if s.strip()]] *)
Definition statements (sql_text : string) : list string :=
  map strip (List.filter (fun s => negb (String.eqb (strip s) "")) (split ";" sql_text)).

(** An element of [out_rows]: a [sqlite3.Row], or the [dict] of the
    "Info" line. *)
Inductive out_row :=
| FromRow (r : Row)
| FromDict (d : list (string * value)).

(** [d.get(c)] *)
Fixpoint dict_get (d : list (string * value)) (c : string) : value :=
  match d with
  | [] => VNone
  | (k, v) :: rest => if String.eqb k c then v else dict_get rest c
  end.

(** One turn of the statement loop on [(out_cols, out_rows, affected_total)]. *)
Definition run_statement (conn : nat)
    (acc : list string * list out_row * Z) (stmt : string)
    : M' (list string * list out_row * Z) :=
  let '(out_cols, out_rows, affected_total) := acc in
  let low := lower stmt in
  if startswith low "select" || startswith low "pragma" then
    let* cur := sq_execute conn (Statement stmt) in
    let rows := rows_of cur in
    let cols := default [] (description cur) in
    ret (cols, map FromRow rows, affected_total)
  else
    let* before := sq_total_changes conn in
    sq_execute conn (Statement stmt);;
    let* after := sq_total_changes conn in
    ret (out_cols, out_rows, affected_total + Z.max 0 (after - before)).

Definition info_row (affected_total : Z) : out_row :=
  FromDict [("Info", VStr ("OK. Geänderte Zeilen: " +:+ pretty affected_total))].

(** What [run_sql] executes on [conn], and the [(out_cols, out_rows)]
    it ends with. *)
Definition run_sql_execute (conn : nat) (sql_text : string)
    : M' (list string * list out_row) :=
  if script_branch sql_text then
    sq_executescript conn sql_text;;
    sq_commit conn;;
    ret ([], [])
  else
    let* (out_cols, out_rows, affected_total) :=
      fold_each (statements sql_text) ([], [], 0) (run_statement conn) in
    sq_commit conn;;
    match out_cols with
    | [] => ret (["Info"], [info_row affected_total])
    | _ => ret (out_cols, out_rows)
    end.

(** "Ergebnis anzeigen" *)
Definition show_result (out_cols : list string) (out_rows : list out_row) : M' unit :=
  modify_ui (fun u => set_result (Grid (columns (result u)) [] []) u);;
  match out_cols with
  | [] => ret tt
  | _ =>
      modify_ui (set_result (Grid out_cols [] []));;
      for_each out_rows (fun r =>
        let* vals :=
          match r with
          | FromDict d => ret (map (dict_get d) out_cols)
          | FromRow r => row_values out_cols r
          end in
        modify_ui (fun u => set_result (insert_item vals (result u)) u))
  end.

(** [run_sql] *)
Definition run_sql : M' unit :=
  let* u := get_ui in
  let sql_text := strip (txt_sql u) in
  if String.eqb sql_text "" then ret tt else
  try_except
    (with_conn (fun conn =>
       let* (out_cols, out_rows) := run_sql_execute conn sql_text in
       show_result out_cols out_rows);;
     refresh_schema;;
     build_er_diagram;;
     _status "SQL ausgeführt.")
    (fun e => showerror APP_TITLE ("SQL-Fehler:" +:+ nl +:+ e_str e)).

(** The operations that touch the database, as the user or the
    program starts them; the CSV export comes with the answer of its
    save dialog. *)
Inductive operation :=
| RefreshSchema
| LoadTableRows
| DeleteSelectedRow
| ExportCsvCurrent (file : string)
| AddItem
| ReloadItems
| RunSql
| BuildErDiagram.

Definition perform (op : operation) : M' unit :=
  match op with
  | RefreshSchema => refresh_schema
  | LoadTableRows => load_table_rows
  | DeleteSelectedRow => delete_selected_row
  | ExportCsvCurrent file => export_csv_current file
  | AddItem => add_item
  | ReloadItems => reload_items
  | RunSql => run_sql
  | BuildErDiagram => build_er_diagram
  end.

End Ops.

End Gui.

(** ** Vocabulary for the properties of the operations *)
Module Trace.
Import PyStr Gui.

Section Vocabulary.
Context {St : Type} (sq : sqlite3 St).

(** [m] only appends to the trace, and what it appends satisfies [P]. *)
Definition appends {A} (P : list event -> Prop) (m : M St A) : Prop :=
  forall w, exists evs, trace (m w).2 = trace w ++ evs /\ P evs.

(** Every event [m] appends satisfies [S]. *)
Definition emits_only {A} (S : event -> Prop) (m : M St A) : Prop :=
  appends (Forall S) m.

(** What may lie between a failure and its handler: the roll-back of
    the connection and the closing of the file, neither of which calls
    the database or the file again. *)
Definition cleanup (ev : event) : Prop :=
  match ev with
  | Rollback _ | CloseFile _ => True
  | _ => False
  end.

(** The error dialog of a handler:
    [messagebox.showerror(APP_TITLE, f"{what}\n{e}")]. *)
Definition error_dialog (what : string) (e : exn) : event :=
  MessageBox Error APP_TITLE (what +:+ nl +:+ e_str e).

(** Where no handler is passed. *)
Definition no_answer (e : exn) (ev : event) : Prop := False.

Section Handling.
(** How the handlers under study start. *)
Variable answers : exn -> event -> Prop.

(** Reading a trace: [None] while no exception is on its way, [Some e]
    from the event [Raised e] to the first event of the handler. *)
Inductive follows : option exn -> list event -> option exn -> Prop :=
| follows_nil s : follows s [] s
| follows_raised e evs s :
    follows (Some e) evs s -> follows None (Raised e :: evs) s
| follows_other ev evs s :
    (forall e, ev <> Raised e) -> follows None evs s -> follows None (ev :: evs) s
| follows_cleanup e ev evs s :
    cleanup ev -> follows (Some e) evs s -> follows (Some e) (ev :: evs) s
| follows_answer e ev evs s :
    answers e ev -> follows None evs s -> follows (Some e) (ev :: evs) s.

Definition outcome {A} (r : res A) : option exn :=
  match r with Ok _ => None | Raise e => Some e end.

(** [m] either ends normally with every failure answered, or raises
    an exception that is on its way. *)
Definition handles {A} (m : M St A) : Prop :=
  forall w, exists evs,
    trace (m w).2 = trace w ++ evs /\ follows None evs (outcome (m w).1).

(** [m] ends normally, every failure answered. *)
Definition catches {A} (m : M St A) : Prop :=
  forall w, exists evs a,
    (m w).1 = Ok a /\ trace (m w).2 = trace w ++ evs /\ follows None evs None.

(** [h] is a handler for [e]: it ends normally and starts by answering [e]. *)
Definition handler_for {A} (e : exn) (h : M St A) : Prop :=
  forall w, exists evs a,
    (h w).1 = Ok a /\ trace (h w).2 = trace w ++ evs /\ follows (Some e) evs None.

End Handling.

(** The six operations the user starts. *)
Definition user_operation (op : operation) : Prop :=
  match op with
  | RefreshSchema | BuildErDiagram => False
  | _ => True
  end.

Definition is_messagebox (ev : event) : Prop :=
  match ev with MessageBox _ _ _ => True | _ => False end.

Definition is_close (ev : event) : Prop :=
  match ev with Close _ => True | _ => False end.

(** [[r[c] for c in cols]] without the monad. *)
Fixpoint lookup_all (r : Row) (cols : list string) : res (list value) :=
  match cols with
  | [] => Ok []
  | c :: rest =>
      match getitem r c with
      | Ok v => match lookup_all r rest with
                | Ok vs => Ok (v :: vs)
                | Raise e => Raise e
                end
      | Raise e => Raise e
      end
  end.

(** What the database answered to one statement of the loop: the
    statement, its cursor, the change counter before and after it. *)
Record run_entry := RunEntry {
  r_stmt : string;
  r_cursor : cursor;
  r_before : Z;
  r_after : Z
}.

(** The statements in order against the database alone: each is
    executed once, the first failure ends the run. *)
Fixpoint engine_run (conn : nat) (stmts : list string) (st : St)
    : res (list run_entry) * St :=
  match stmts with
  | [] => (Ok [], st)
  | s :: rest =>
      let before := total_changes sq conn st in
      match execute sq conn (Statement s) st with
      | (Ok cur, st1) =>
          let after := total_changes sq conn st1 in
          match engine_run conn rest st1 with
          | (Ok log, st2) => (Ok (RunEntry s cur before after :: log), st2)
          | (Raise e, st2) => (Raise e, st2)
          end
      | (Raise e, st1) => (Raise e, st1)
      end
  end.

(** A statement "beginning with [select] or [pragma]". *)
Definition is_query (stmt : string) : bool :=
  startswith (lower stmt) "select" || startswith (lower stmt) "pragma".

(** The last such statement of a run. *)
Fixpoint last_query (log : list run_entry) : option run_entry :=
  match log with
  | [] => None
  | en :: rest =>
      match last_query rest with
      | Some q => Some q
      | None => if is_query (r_stmt en) then Some en else None
      end
  end.

(** The sum, over the other statements, of [max(0, after - before)]. *)
Fixpoint affected (log : list run_entry) : Z :=
  match log with
  | [] => 0
  | en :: rest =>
      (if is_query (r_stmt en) then 0 else Z.max 0 (r_after en - r_before en))
      + affected rest
  end.

Definition row_set (q : run_entry) : list string * list out_row :=
  (default [] (description (r_cursor q)), map FromRow (rows_of (r_cursor q))).

Definition info_result (log : list run_entry) : list string * list out_row :=
  (["Info"], [info_row (affected log)]).

(** The result C9 states: the row set of the last query, the "Info"
    line when there is no query. *)
Definition stated_result (log : list run_entry) : list string * list out_row :=
  match last_query log with
  | Some q => row_set q
  | None => info_result log
  end.

(** The result the program computes: the "Info" line also when the
    last query has no result columns. *)
Definition shown_result (log : list run_entry) : list string * list out_row :=
  match last_query log with
  | Some q => match row_set q with
              | ([], _) => info_result log
              | rs => rs
              end
  | None => info_result log
  end.

(** [r[c]] on a row [vals] of a cursor with the columns [cols]: the
    value under the first column named [c], case apart.  (A column of
    the cursor is always found in a row of its length.) *)
Definition by_name (cols : list string) (vals : list value) (c : string) : value :=
  match lookup_key cols vals c with
  | Ok v => v
  | Raise _ => VNone
  end.

(** A row as the result grid receives it: [[r[c] for c in out_cols]]. *)
Definition displayed_row (cols : list string) (vals : list value) : list value :=
  map (by_name cols vals) cols.

(** The grid of the "Info" line. *)
Definition info_grid (log : list run_entry) : grid :=
  Grid ["Info"] [[VStr ("OK. Geänderte Zeilen: " +:+ pretty (affected log))]] [].

(** What the result grid holds after the statements of [log]: the
    columns and the rows of the last query when it has columns, the
    "Info" line otherwise. *)
Definition displayed (log : list run_entry) : grid :=
  match last_query log with
  | Some q =>
      match description (r_cursor q) with
      | Some (c :: cols) =>
          Grid (c :: cols) (map (displayed_row (c :: cols)) (fetchall (r_cursor q))) []
      | _ => info_grid log
      end
  | None => info_grid log
  end.
(** An event that executes what the user typed. *)
Definition is_user_sql (ev : event) : Prop :=
  match ev with
  | Execute _ (Statement _) | ExecuteScript _ _ => True
  | _ => False
  end.

Definition is_raised (ev : event) : Prop :=
  match ev with Raised _ => True | _ => False end.

(** The accumulator of the loop after a run that started from [acc]. *)
Definition loop_state (acc : list string * list out_row * Z) (log : list run_entry)
    : list string * list out_row * Z :=
  let '(out_cols, out_rows, affected_total) := acc in
  match last_query log with
  | Some q => (row_set q, affected_total + affected log)
  | None => (out_cols, out_rows, affected_total + affected log)
  end.

Definition is_delete (ev : event) : Prop :=
  match ev with Execute _ (DeleteWhere _ _ _) => True | _ => False end.

Definition is_lookup (ev : event) : Prop :=
  match ev with Execute _ (PragmaTableInfo _) => True | _ => False end.

Definition is_warning (ev : event) : Prop :=
  match ev with MessageBox Warning _ _ => True | _ => False end.

(** A row of [PRAGMA table_info] has a [pk] and a [name]. *)
Definition has_pk_and_name (c : Row) : Prop :=
  (exists v, getitem c "pk" = Ok v) /\ (exists v, getitem c "name" = Ok v).

Definition pk_is_1 (c : Row) : bool :=
  match getitem c "pk" with Ok v => eq_int v 1 | Raise _ => false end.

(** The name of "the first column whose primary-key flag is 1", [None]
    when there is none. *)
Definition stated_pk (pkinfo : list Row) : value :=
  match List.find pk_is_1 pkinfo with
  | Some c => match getitem c "name" with Ok v => v | Raise _ => VNone end
  | None => VNone
  end.

(** How the key [key] is used on the table [t] with the grid columns
    [cols] and the values [vals] of the selected row: every [DELETE]
    that is executed is [DELETE FROM t WHERE key = ?] bound to the value
    of the selected row in the column [key], and unless an error dialog
    is shown this [DELETE] is executed and committed. *)
Definition key_used (t : string) (cols : list string) (vals : list value)
    (key : value) (evs : list event) : Prop :=
  (forall c t' k v, Execute c (DeleteWhere t' k v) ∈ evs ->
     t' = t /\ k = str key
     /\ exists i : nat, index_of cols key = Some i /\ vals !! i = Some v)
  /\ ((forall title message, MessageBox Error title message ∉ evs) ->
      exists c (i : nat) v,
        index_of cols key = Some i /\ vals !! i = Some v
        /\ Execute c (DeleteWhere t (str key) v) ∈ evs /\ Commit c ∈ evs).

Definition delete_handler (e : exn) : M St unit :=
  showerror APP_TITLE ("Löschfehler:" +:+ nl +:+ e_str e).

(** The [DELETE] and what follows it in the [try] block. *)
Definition delete_and_reload (t : string) (pk_col pk_val : value) : M St unit :=
  with_conn sq (fun conn =>
    sq_execute sq conn (DeleteWhere t (str pk_col) pk_val);;
    sq_commit sq conn);;
  load_table_rows sq;;
  _status ("Zeile mit " +:+ str pk_col +:+ "=" +:+ str pk_val
             +:+ " aus '" +:+ t +:+ "' gelöscht.").

Definition delete_event (t : string) (key v : value) (ev : event) : Prop :=
  ~ is_lookup ev /\ ~ is_warning ev
  /\ (is_delete ev -> exists c, ev = Execute c (DeleteWhere t (str key) v)).

End Vocabulary.

End Trace.

(** ** A small database engine to run the operations on

    An instance of [Gui.sqlite3] over tables held as lists of rows.  It
    answers the statements the program builds and a few forms of typed
    statements, enforces foreign keys on [DELETE] the way SQLite does
    for the default action, and refuses whatever else it is given.  The
    properties below that hold for every engine do not depend on it; it
    serves to run the operations on concrete databases. *)
Module RefDb.
Import PyStr Gui.

Record rcolumn := RColumn {
  rc_name : string;
  rc_type : string;
  rc_notnull : Z;
  rc_dflt_value : value;
  rc_pk : Z
}.

Record rfk := RFk {
  rf_from : string;
  rf_table : string;
  rf_to : string
}.

Record rtable := RTable {
  rt_name : string;
  rt_cols : list rcolumn;
  rt_fks : list rfk;
  rt_rows : list (list value)
}.

(** A connection: its view of the tables and its change counter. *)
Record rconn := RConn {
  working : list rtable;
  changes : Z
}.

Record state := State {
  present : bool;                       (* the database file exists *)
  readable : bool;                      (* and it can be opened *)
  tables : list rtable;                 (* the committed tables, in name order *)
  conns : list rconn;                   (* the connections made so far *)
  files : list (string * string);       (* the files written: name, content *)
  locked : list string                  (* the file names that cannot be opened *)
}.

Definition operational_error (msg : string) : exn := Exn "sqlite3.OperationalError" msg.
Definition integrity_error (msg : string) : exn := Exn "sqlite3.IntegrityError" msg.

Definition same_name (a b : string) : bool := String.eqb (lower a) (lower b).

Definition find_table (name : string) (ts : list rtable) : option rtable :=
  List.find (fun t => same_name (rt_name t) name) ts.

Fixpoint column_index (name : string) (cols : list rcolumn) : option nat :=
  match cols with
  | [] => None
  | c :: rest => if same_name (rc_name c) name then Some 0%nat
                 else S <$> column_index name rest
  end.

(** SQL equality on the stored values: [NULL] equals nothing. *)
Definition sql_eq (a b : value) : bool :=
  match a, b with
  | VInt x, VInt y => x =? y
  | VStr x, VStr y => String.eqb x y
  | VFloat x, VFloat y => String.eqb x y
  | VBytes x, VBytes y => String.eqb x y
  | _, _ => false
  end.

Definition cell (i : nat) (r : list value) : value := default VNone (r !! i).

(** Does a row of [child] refer, through [fk], to the value [v] of the
    column [rf_to fk] of [parent]? *)
Definition refers (child : rtable) (fk : rfk) (parent : string) (to_col : string) (v : value) : bool :=
  same_name (rf_table fk) parent && same_name (rf_to fk) to_col
  && match column_index (rf_from fk) (rt_cols child) with
     | Some i => existsb (fun r => sql_eq (cell i r) v) (rt_rows child)
     | None => false
     end.

(** A row about to be deleted from [parent] is still referred to. *)
Definition referenced (ts : list rtable) (parent : rtable) (r : list value) : bool :=
  existsb (fun child =>
    existsb (fun fk =>
      existsb (fun pc =>
        match column_index (rc_name pc) (rt_cols parent) with
        | Some j => refers child fk (rt_name parent) (rc_name pc) (cell j r)
        | None => false
        end) (rt_cols parent)) (rt_fks child)) ts.

Definition replace_table (t : rtable) (ts : list rtable) : list rtable :=
  map (fun u => if same_name (rt_name u) (rt_name t) then t else u) ts.

Definition remove_table (name : string) (ts : list rtable) : list rtable :=
  List.filter (fun u => negb (same_name (rt_name u) name)) ts.

(** [DELETE FROM t WHERE keep-test fails], foreign keys enforced. *)
Definition delete_rows (t : rtable) (doomed : list value -> bool) (c : rconn)
    : res cursor * rconn :=
  let gone := List.filter doomed (rt_rows t) in
  if existsb (referenced (working c) t) gone then
    (Raise (integrity_error "FOREIGN KEY constraint failed"), c)
  else
    let t' := RTable (rt_name t) (rt_cols t) (rt_fks t)
                (List.filter (fun r => negb (doomed r)) (rt_rows t)) in
    (Ok (Cursor None []),
     RConn (replace_table t' (working c)) (changes c + Z.of_nat (length gone))).

Definition table_info_row (i : nat) (c : rcolumn) : list value :=
  [VInt (Z.of_nat i); VStr (rc_name c); VStr (rc_type c); VInt (rc_notnull c);
   rc_dflt_value c; VInt (rc_pk c)].

Definition fk_list_row (i : nat) (fk : rfk) : list value :=
  [VInt (Z.of_nat i); VInt 0; VStr (rf_table fk); VStr (rf_from fk); VStr (rf_to fk);
   VStr "NO ACTION"; VStr "NO ACTION"; VStr "NONE"].

Definition items_table : rtable :=
  RTable "items"
    [ RColumn "id" "INTEGER" 0 VNone 1;
      RColumn "name" "TEXT" 1 VNone 0;
      RColumn "description" "TEXT" 0 VNone 0;
      RColumn "created" "TEXT" 0 (VStr "datetime('now','localtime')") 0 ]
    [] [].

Definition select_all (name : string) (c : rconn) : res cursor * rconn :=
  match find_table name (working c) with
  | Some t => (Ok (Cursor (Some (map rc_name (rt_cols t))) (rt_rows t)), c)
  | None => (Raise (operational_error ("no such table: " +:+ name)), c)
  end.

(** [s] without the prefix [p], compared without regard to case. *)
Fixpoint after_prefix (p s : string) : option string :=
  match p, s with
  | EmptyString, _ => Some s
  | String a p', String b s' =>
      if Ascii.eqb (lower_char a) (lower_char b) then after_prefix p' s' else None
  | _, _ => None
  end.

Definition syntax_error (sql : string) : exn :=
  operational_error ("near '" +:+ sql +:+ "': syntax error").

(** A typed statement: [PRAGMA name = value], [SELECT * FROM t],
    [DELETE FROM t], [DROP TABLE t]; a syntax error otherwise. *)
Definition typed_statement (sql : string) (c : rconn) : res cursor * rconn :=
  match after_prefix "pragma " sql with
  | Some rest =>
      if contains "=" rest then (Ok (Cursor None []), c)
      else (Raise (syntax_error sql), c)
  | None =>
  match after_prefix "select * from " sql with
  | Some name => select_all name c
  | None =>
  match after_prefix "delete from " sql with
  | Some name =>
      match find_table name (working c) with
      | Some t => delete_rows t (fun _ => true) c
      | None => (Raise (operational_error ("no such table: " +:+ name)), c)
      end
  | None =>
  match after_prefix "drop table " sql with
  | Some name =>
      match find_table name (working c) with
      | Some t => (Ok (Cursor None []), RConn (remove_table name (working c)) (changes c))
      | None => (Raise (operational_error ("no such table: " +:+ name)), c)
      end
  | None => (Raise (syntax_error sql), c)
  end end end end.

Definition run (s : stmt) (c : rconn) : res cursor * rconn :=
  match s with
  | PragmaForeignKeysOn => (Ok (Cursor None []), c)
  | SelectTables =>
      (Ok (Cursor (Some ["name"]) (map (fun t => [VStr (rt_name t)]) (working c))), c)
  | PragmaTableInfo t =>
      (Ok (Cursor (Some ["cid"; "name"; "type"; "notnull"; "dflt_value"; "pk"])
             match find_table t (working c) with
             | Some tb => imap table_info_row (rt_cols tb)
             | None => []
             end), c)
  | PragmaForeignKeyList t =>
      (Ok (Cursor (Some ["id"; "seq"; "table"; "from"; "to"; "on_update"; "on_delete"; "match"])
             match find_table t (working c) with
             | Some tb => imap fk_list_row (rt_fks tb)
             | None => []
             end), c)
  | SelectAllFrom t where_ =>
      if String.eqb where_ "" then select_all t c
      else (Raise (syntax_error where_), c)
  | DeleteWhere t pk_col pk_val =>
      match find_table t (working c) with
      | None => (Raise (operational_error ("no such table: " +:+ t)), c)
      | Some tb =>
          match column_index pk_col (rt_cols tb) with
          | None => (Raise (operational_error ("no such column: " +:+ pk_col)), c)
          | Some i => delete_rows tb (fun r => sql_eq (cell i r) pk_val) c
          end
      end
  | CreateItems =>
      match find_table "items" (working c) with
      | Some _ => (Ok (Cursor None []), c)
      | None => (Ok (Cursor None []), RConn (working c ++ [items_table]) (changes c))
      end
  | InsertItem name desc =>
      match find_table "items" (working c) with
      | None => (Raise (operational_error "no such table: items"), c)
      | Some tb =>
          let row := [VInt (Z.of_nat (S (length (rt_rows tb)))); VStr name; VStr desc;
                      VStr "2025-01-01 00:00:00"] in
          let tb' := RTable (rt_name tb) (rt_cols tb) (rt_fks tb) (rt_rows tb ++ [row]) in
          (Ok (Cursor None []), RConn (replace_table tb' (working c)) (changes c + 1))
      end
  | SelectItems => select_all "items" c
  | Statement sql => typed_statement sql c
  end.

Definition set_conn (i : nat) (c : rconn) (st : state) : state :=
  State (present st) (readable st) (tables st) (<[i := c]> (conns st)) (files st) (locked st).

Definition closed_error : exn := Exn "sqlite3.ProgrammingError" "Cannot operate on a closed database.".

Definition r_connect (p : DbName.path) (st : state) : res nat * state :=
  if present st && readable st then
    (Ok (length (conns st)),
     State (present st) (readable st) (tables st)
       (conns st ++ [RConn (tables st) 0]) (files st) (locked st))
  else (Raise (operational_error "unable to open database file"), st).

Definition r_execute (i : nat) (s : stmt) (st : state) : res cursor * state :=
  match conns st !! i with
  | Some c => let '(r, c') := run s c in (r, set_conn i c' st)
  | None => (Raise closed_error, st)
  end.

Fixpoint run_script (stmts : list string) (c : rconn) : res unit * rconn :=
  match stmts with
  | [] => (Ok tt, c)
  | s :: rest =>
      match typed_statement s c with
      | (Ok _, c') => run_script rest c'
      | (Raise e, c') => (Raise e, c')
      end
  end.

Definition r_executescript (i : nat) (sql : string) (st : state) : res unit * state :=
  match conns st !! i with
  | Some c => let '(r, c') := run_script (statements sql) c in (r, set_conn i c' st)
  | None => (Raise closed_error, st)
  end.

Definition r_commit (i : nat) (st : state) : res unit * state :=
  match conns st !! i with
  | Some c => (Ok tt, State (present st) (readable st) (working c) (conns st) (files st) (locked st))
  | None => (Raise closed_error, st)
  end.

Definition r_rollback (i : nat) (st : state) : state :=
  match conns st !! i with
  | Some c => set_conn i (RConn (tables st) (changes c)) st
  | None => st
  end.

Definition r_total_changes (i : nat) (st : state) : Z :=
  match conns st !! i with
  | Some c => changes c
  | None => 0
  end.

Definition r_open_w (file : string) (st : state) : res unit * state :=
  if existsb (String.eqb file) (locked st) then
    (Raise (Exn "PermissionError" ("[Errno 13] Permission denied: '" +:+ file +:+ "'")), st)
  else
    (Ok tt, State (present st) (readable st) (tables st) (conns st)
              ((file, "") :: List.filter (fun f => negb (String.eqb (fst f) file)) (files st))
              (locked st)).

Definition r_write (file text : string) (st : state) : res unit * state :=
  (Ok tt, State (present st) (readable st) (tables st) (conns st)
            (map (fun f => if String.eqb (fst f) file then (fst f, snd f +:+ text) else f) (files st))
            (locked st)).

Definition engine : sqlite3 state :=
  Sqlite3 state (fun _ => present) r_connect r_execute r_executescript r_commit
    r_rollback r_total_changes r_open_w r_write.

(** A world with these tables, nothing selected, nothing typed. *)
Definition blank_widgets : widgets :=
  Widgets "" [] "" empty_grid empty_grid empty_grid "" "" "" [] [] 0 "" "—".

Definition start (ts : list rtable) : world state :=
  World (State true true ts [] [] [])
    (DbName.Globals ["app"; "data"] ["app"; "data"; "database.db"])
    blank_widgets [].

End RefDb.

(** ** Example databases and user actions *)
Module Examples.
Import PyStr Gui Trace RefDb.

(** The two tables of the help text: customers, and orders that refer
    to them. *)
Definition kunden : rtable :=
  RTable "kunden"
    [ RColumn "kunden_id" "INTEGER" 0 VNone 1;
      RColumn "name" "TEXT" 1 VNone 0 ]
    []
    [ [VInt 1; VStr "Alice"]; [VInt 2; VStr "Bob"] ].

Definition bestellungen : rtable :=
  RTable "bestellungen"
    [ RColumn "bestellung_id" "INTEGER" 0 VNone 1;
      RColumn "kunden_id" "INTEGER" 1 VNone 0 ]
    [ RFk "kunden_id" "kunden" "kunden_id" ]
    [ [VInt 1; VInt 1] ].

Definition shop_tables : list rtable := [bestellungen; kunden].

Definition with_ui (f : widgets -> widgets) (w : world state) : world state :=
  World (env w) (globals w) (f (ui w)) (trace w).

Definition forget_trace (w : world state) : world state :=
  World (env w) (globals w) (ui w) [].

(** The user picks the table [t] in the Browse tab, which loads its
    rows, and selects the rows at the positions [sel]. *)
Definition browse (t : string) (sel : list nat) (w : world state) : world state :=
  let w1 := (load_table_rows engine (with_ui (set_cmb_tables t) w)).2 in
  forget_trace
    (with_ui (fun u => set_grid_browse
                (Grid (columns (grid_browse u)) (items (grid_browse u)) sel) u) w1).

(** The user types [sql] into the editor. *)
Definition typing (sql : string) (w : world state) : world state :=
  with_ui (set_txt_sql sql) w.

(** A world in which a connection is open. *)
Definition connected (w : world state) : world state :=
  forget_trace (get_db_conn engine w).2.

Definition shop_world : world state := start shop_tables.

Definition export_world : world state := browse "kunden" [] shop_world.

Definition sql_world : world state := connected shop_world.

Definition pragma_log : list run_entry :=
  [RunEntry "PRAGMA foreign_keys = ON" (Cursor None []) 0 0].

Definition two_statements : string := "delete from bestellungen; select * from kunden".

(** Bob, whom no order refers to, is selected. *)
Definition bob_world : world state := browse "kunden" [1%nat] shop_world.
(** Alice, whom an order refers to, is selected. *)
Definition alice_world : world state := browse "kunden" [0%nat] shop_world.

End Examples.

(** ** Vocabulary for the geometry of the diagram *)
Module Geometry.
Import Er.

(** [box_h = TITLE_H + 8 + nlines * LINE_H + 12] for a table with
    [ncols] columns, [nlines] being [max(1, ncols)]. *)
Definition box_h (ncols : nat) : Z :=
  TITLE_H + 8 + Z.max 1 (Z.of_nat ncols) * LINE_H + 12.

(** Two boxes share a point of their interiors. *)
Definition overlap (a b : box) : Prop :=
  let '(ax1, ay1, ax2, ay2) := a in
  let '(bx1, by1, bx2, by2) := b in
  ax1 < bx2 /\ bx1 < ax2 /\ ay1 < by2 /\ by1 < ay2.

(** Two boxes lie at least [gap] apart, side by side or one above the
    other. *)
Definition apart (gap : Z) (a b : box) : Prop :=
  let '(ax1, ay1, ax2, ay2) := a in
  let '(bx1, by1, bx2, by2) := b in
  ax2 + gap <= bx1 \/ bx2 + gap <= ax1 \/ ay2 + gap <= by1 \/ by2 + gap <= ay1.

(** The anchor points of the texts of a canvas. *)
Definition anchors (canvas : list item) : list (Z * Z) :=
  flat_map (fun it => match it with Text x y _ _ => [(x, y)] | _ => [] end) canvas.

(** A point lies strictly inside a box. *)
Definition inside (b : box) (p : Z * Z) : Prop :=
  let '(x1, y1, x2, y2) := b in
  x1 < p.1 < x2 /\ y1 < p.2 < y2.

Definition n_cols (n : string) (k : nat) : table_def :=
  TableDef n (map (fun i => Column ("c" +:+ pretty i) "TEXT" 0) (seq 0 k)) [].

(** Four tables on the fallback width, three per row: the first has
    five columns, the fourth, below it, has one. *)
Definition schema_tall_first : list table_def :=
  [n_cols "t1" 5; one_col "t2"; one_col "t3"; one_col "t4"].

End Geometry.

(** ** Vocabulary for what the operations keep and for how they
    bracket their resources *)
Module Discipline.
Import Gui.

(** [m] leaves [f], a reading of the globals and the widgets, as it
    found it, whether it returns or raises. *)
Definition keeps {St A X : Type} (f : DbName.globals -> widgets -> X) (m : M St A) : Prop :=
  forall w, f (globals (m w).2) (ui (m w).2) = f (globals w) (ui w).

(** The database in use and what the user typed: the SQL editor and
    the filter entry. *)
Definition inputs (g : DbName.globals) (u : widgets)
    : DbName.globals * string * string :=
  (g, txt_sql u, ent_filter u).

(** The two entries of the item form. *)
Definition item_form (g : DbName.globals) (u : widgets) : string * string :=
  (ent_name u, ent_desc u).

(** The combobox of the Browse tab: its text and its list. *)
Definition table_choice (g : DbName.globals) (u : widgets) : string * list string :=
  (cmb_tables u, cmb_tables_values u).

Definition is_connect (ev : event) : Prop :=
  match ev with Connect _ => True | _ => False end.

(** A trace in which the first thing that follows the opening of a
    connection is [PRAGMA foreign_keys = ON] on that connection. *)
Inductive fk_enforced : list event -> Prop :=
| fk_nil : fk_enforced []
| fk_other ev evs :
    ~ is_connect ev -> fk_enforced evs -> fk_enforced (ev :: evs)
| fk_connect c evs :
    fk_enforced evs -> fk_enforced (Connect c :: Execute c PragmaForeignKeysOn :: evs).

Definition file_event (ev : event) : Prop :=
  match ev with
  | OpenFile _ _ | WriteFile _ _ | CloseFile _ => True
  | _ => False
  end.

(** What may happen while [file] is open: a write to it, a failure. *)
Definition write_to (file : string) (ev : event) : Prop :=
  match ev with
  | WriteFile f _ => f = file
  | Raised _ => True
  | _ => False
  end.

(** A trace in which every file that is opened is closed again, with
    nothing but writes to it and failures in between, and no file is
    written or closed otherwise. *)
Inductive files_closed : list event -> Prop :=
| fc_nil : files_closed []
| fc_other ev evs :
    ~ file_event ev -> files_closed evs -> files_closed (ev :: evs)
| fc_block file encoding mid evs :
    Forall (write_to file) mid -> files_closed evs ->
    files_closed (OpenFile file encoding :: mid ++ CloseFile file :: evs).

End Discipline.

(** ** Vocabulary for the results of the operations *)
Module Outcome.
Import PyStr Gui.

(** The Schema tab and the combobox that [refresh_schema] fills. *)
Definition schema_view (g : DbName.globals) (u : widgets)
    : list (nat * string) * string * list string :=
  (tree u, cmb_tables u, cmb_tables_values u).

(** Everything an operation can change in the program itself. *)
Definition program_state (g : DbName.globals) (u : widgets) : DbName.globals * widgets :=
  (g, u).

(** [t["name"]] of a row of the catalog query, as text; empty when the
    row has no such column. *)
Definition table_name (t : Row) : string :=
  match getitem t "name" with
  | Ok v => str v
  | Raise _ => ""
  end.

(** The nodes of the schema tree at depth 0, in order. *)
Definition top_level (tree : list (nat * string)) : list string :=
  map snd (List.filter (fun n => Nat.eqb (fst n) 0) tree).

Definition is_info (ev : event) : Prop :=
  match ev with MessageBox Info _ _ => True | _ => False end.

(** The events of an [add_item] that succeeds on connection [c], up
    to the reloading of the item grid. *)
Definition item_added (c : nat) (name desc : string) : list event :=
  [ Connect c; Execute c PragmaForeignKeysOn; Execute c CreateItems;
    Execute c (InsertItem name desc); Commit c; Commit c ].

(** The events of a block [with get_db_conn() as conn] that runs the
    one statement [s] and ends normally. *)
Definition one_statement (c : nat) (s : stmt) : list event :=
  [ Connect c; Execute c PragmaForeignKeysOn; Execute c s; Commit c ].

End Outcome.

(** ** Vocabulary for the handling of failures *)
Module Handlers.
Import PyStr Gui Trace Outcome.

(** At most one failure: it passes nothing but the roll-back of the
    connection and the closing of the file, and the answer of the
    handler is the last event. *)
Definition answered_last (answer : exn -> event) (evs : list event) : Prop :=
  exists before,
    Forall (fun ev => ~ is_raised ev) before
    /\ (evs = before
        \/ exists e passing,
             Forall cleanup passing
             /\ evs = before ++ Raised e :: passing ++ [answer e]).

(** At most one failure, answered as in [answered_last]; what follows
    the answer holds no failure. *)
Definition answered_once (answer : exn -> event) (evs : list event) : Prop :=
  exists part more,
    evs = part ++ more /\ answered_last answer part
    /\ Forall (fun ev => ~ is_raised ev) more.

(** [m] passes one handler, which answers by [answer]: it returns
    after at most one answered failure, or raises after at most one
    answered failure and a failure of its own. *)
Definition passes {St A : Type} (answer : exn -> event) (m : M St A) : Prop :=
  forall w, exists evs,
    trace (m w).2 = trace w ++ evs
    /\ match (m w).1 with
       | Ok _ => answered_once answer evs
       | Raise e => exists mid passing,
           evs = mid ++ Raised e :: passing
           /\ answered_once answer mid /\ Forall cleanup passing
       end.

(** [m] passes two handlers, one after the other. *)
Definition passes_two {St A : Type} (first second : exn -> event) (m : M St A) : Prop :=
  forall w, exists part1 part2,
    answered_once first part1 /\ answered_once second part2
    /\ match (m w).1 with
       | Ok _ => trace (m w).2 = trace w ++ part1 ++ part2
       | Raise e => exists passing,
           trace (m w).2 = trace w ++ part1 ++ part2 ++ Raised e :: passing
           /\ Forall cleanup passing
       end.

(** The answer of [reload_items]: no dialog, the item grid emptied. *)
Definition empties_item_grid (e : exn) : event := GridReset GridItems [].

(** How a run of [op] that returns has dealt with its failures, [u]
    being the widgets it started from and [evs] its events. *)
Definition caught (op : operation) (u : widgets) (evs : list event) : Prop :=
  match op with
  | LoadTableRows => answered_last (error_dialog "Fehler beim Laden:") evs
  | ExportCsvCurrent _ => answered_last (error_dialog "Exportfehler:") evs
  | ReloadItems =>
      answered_last empties_item_grid evs
      /\ Forall (fun ev => ~ is_messagebox ev) evs
  | AddItem =>
      answered_last (error_dialog "Fehler beim Hinzufügen:") evs
      \/ exists c reload,
           evs = item_added c (strip (ent_name u)) (strip (ent_desc u)) ++ reload
                   ++ [MessageBox Info APP_TITLE "Item hinzugefügt."]
           /\ answered_last empties_item_grid reload
           /\ Forall (fun ev => ~ is_messagebox ev) reload
  | DeleteSelectedRow =>
      answered_last (error_dialog "Löschfehler:") evs
      \/ exists before c key v load,
           evs = before
                   ++ [Execute c (DeleteWhere (strip (cmb_tables u)) key v);
                       Commit c; Commit c]
                   ++ load
           /\ Forall (fun ev => ~ is_raised ev) before
           /\ answered_last (error_dialog "Fehler beim Laden:") load
  | RunSql =>
      exists input loaded reloaded tail,
        evs = input ++ (loaded ++ reloaded) ++ tail
        /\ Forall (fun ev => ~ is_raised ev) input
        /\ answered_once (error_dialog "Fehler beim Laden:") loaded
        /\ answered_once empties_item_grid reloaded
        /\ Forall (fun ev => ~ is_user_sql ev) (loaded ++ reloaded ++ tail)
        /\ (loaded ++ reloaded <> [] -> exists c, last input = Some (Commit c))
        /\ (tail = []
            \/ exists e passing,
                 Forall cleanup passing
                 /\ tail = Raised e :: passing ++ [error_dialog "SQL-Fehler:" e])
  | RefreshSchema | BuildErDiagram => True
  end.

(** A failure that leaves [delete_selected_row]: it lies in the lookup
    of the key, before the [try] and before any [DELETE]. *)
Definition escapes (u : widgets) (r : res unit) (evs : list event) : Prop :=
  existsb (String.eqb "id") (columns (grid_browse u)) = false
  /\ exists e before passing,
       r = Raise e /\ evs = before ++ Raised e :: passing
       /\ Forall (fun ev => ~ is_raised ev) before /\ Forall cleanup passing
       /\ Forall (fun ev => ~ is_delete ev) before.

End Handlers.

(** ** The menu commands and the start of the program *)
Module Shell.
Import PyStr Gui.

(** [pathlib], by what the program asks of it: [Path(file)] for the
    answer of a file dialog, [p.name], and the text of
    [Path(p).resolve()], which consults the file system.  How a file
    name is cut into parts depends on the platform; what follows holds
    for every [pathlib]. *)
Record pathlib (St : Type) := Pathlib {
  Path : string -> DbName.path;
  name : DbName.path -> string;
  resolve : DbName.path -> St -> string
}.
Arguments Path {St}.
Arguments name {St}.
Arguments resolve {St}.

(** [sys.platform], [os.startfile], [os.system] (which returns the exit
    status of the command) and [str(p)] for a path. *)
Record os (St : Type) := Os {
  platform : string;
  startfile : string -> St -> res unit * St;
  system : string -> St -> res Z * St;
  fspath : DbName.path -> string
}.
Arguments platform {St}.
Arguments startfile {St}.
Arguments system {St}.
Arguments fspath {St}.

(** The tabs of the notebook, in the order [_build_tabs] adds them. *)
Inductive tab := TabSchema | TabSql | TabBrowse | TabItems | TabEr | TabHelp.

(** The program with the two widgets the menu commands touch besides
    those of [widgets]: the label that shows the current database and
    the notebook, by its selected tab. *)
Record app (St : Type) := App {
  world_of : world St;
  lbl_db : string;
  nb_selected : tab
}.
Arguments App {St}.
Arguments world_of {St}.
Arguments lbl_db {St}.
Arguments nb_selected {St}.

(** [_example_queries] *)
Definition _example_queries : list (string * string) :=
  [ ("Tabellen anlegen (PK/FK)",
     join nl
       [ "CREATE TABLE kunden (";
         "  kunden_id INTEGER PRIMARY KEY AUTOINCREMENT,";
         "  name TEXT NOT NULL,";
         "  email TEXT UNIQUE";
         ");";
         "CREATE TABLE produkte (";
         "  produkt_id INTEGER PRIMARY KEY AUTOINCREMENT,";
         "  titel TEXT NOT NULL,";
         "  preis REAL";
         ");";
         "CREATE TABLE bestellungen (";
         "  bestellung_id INTEGER PRIMARY KEY AUTOINCREMENT,";
         "  kunden_id INTEGER NOT NULL,";
         "  produkt_id INTEGER NOT NULL,";
         "  datum TEXT DEFAULT (datetime('now','localtime')),";
         "  FOREIGN KEY (kunden_id) REFERENCES kunden(kunden_id),";
         "  FOREIGN KEY (produkt_id) REFERENCES produkte(produkt_id)";
         ");" ]);
    ("Testdaten",
     join nl
       [ "INSERT INTO kunden (name, email) VALUES";
         "('Alice','alice@example.com'),";
         "('Bob','bob@example.com');";
         "INSERT INTO produkte (titel, preis) VALUES";
         "('Kaffeemaschine',79.99),";
         "('Toaster',29.95);";
         "INSERT INTO bestellungen (kunden_id, produkt_id) VALUES";
         "(1,1),(2,2),(1,2);" ]);
    ("Alle Tabellen",
     "SELECT name FROM sqlite_master WHERE type='table';");
    ("Struktur: bestellungen",
     "SELECT * FROM pragma_table_info('bestellungen');");
    ("FKs: bestellungen",
     "SELECT * FROM pragma_foreign_key_list('bestellungen');");
    ("Join-Beispiel",
     join nl
       [ "SELECT b.bestellung_id, k.name AS kunde, p.titel AS produkt, b.datum";
         "FROM bestellungen b";
         "JOIN kunden k ON b.kunden_id = k.kunden_id";
         "JOIN produkte p ON b.produkt_id = p.produkt_id;" ]) ].

Section Commands.
Context {St : Type} (sq : sqlite3 St) (pl : pathlib St) (sys : os St).

(** A command of the menu: it runs on the whole program. *)
Definition command (A : Type) : Type := app St -> res A * app St.

Definition done_ {A} (a : A) : command A := fun p => (Ok a, p).

Definition and_then {A B} (m : command A) (k : A -> command B) : command B :=
  fun p => match m p with
           | (Ok a, p') => k a p'
           | (Raise e, p') => (Raise e, p')
           end.

(** An operation of [Gui] run inside the program. *)
Definition in_world {A} (m : M St A) : command A :=
  fun p => let '(r, w') := m (world_of p) in (r, App w' (lbl_db p) (nb_selected p)).

(** [set_current_db] on the globals of the world; its [ValueError]
    is raised as any other exception. *)
Definition set_current_db (name : string) : M St unit :=
  fun w => match DbName.set_current_db name (globals w) with
           | (inl _, g) => (Ok tt, World (env w) g (ui w) (trace w))
           | (inr (DbName.ValueError msg), _) => raise (Exn "ValueError" msg) w
           end.

(** [sqlite3.connect(p)] for a path [p] *)
Definition sq_connect_at (p : DbName.path) : M St nat :=
  let* c := call (connect sq p) in
  emit (Connect c);;
  ret c.

(** [with sqlite3.connect(p) as conn: body]: commit or roll back on the
    way out, as in [with_conn], and no [close]. *)
Definition with_connect {A} (p : DbName.path) (body : nat -> M St A) : M St A :=
  let* conn := sq_connect_at p in
  fun w => match body conn w with
           | (Ok a, w') => (sq_commit sq conn;; ret a) w'
           | (Raise e, w') => (sq_rollback sq conn;; reraise e) w'
           end.

(** The block that [ensure_default_db] and [on_new_db] share: the
    pragma, the [items] table, [conn.commit()]. *)
Definition create_database (p : DbName.path) : M St unit :=
  with_connect p (fun conn =>
    sq_execute sq conn PragmaForeignKeysOn;;
    sq_execute sq conn CreateItems;;
    sq_commit sq conn).

(** [ensure_default_db] *)
Definition ensure_default_db : M St unit :=
  let* g := get_globals in
  let base := DbName.path_div (DbName.DATA_DIR g) "database.db" in
  let* present := (fun w => (Ok (db_exists sq base (env w)), w)) in
  (if negb present then create_database base else ret tt);;
  set_current_db "database.db".

(** [self.lbl_db.config(text=f"Aktuelle DB: {Path(CURRENT_DB).resolve()}")] *)
Definition show_current_db : command unit :=
  fun p =>
    let w := world_of p in
    (Ok tt,
     App w ("Aktuelle DB: " +:+ resolve pl (DbName.CURRENT_DB (globals w)) (env w))
       (nb_selected p)).

(** What [on_open_db] and [on_new_db] end with. *)
Definition reopen (status_text : string) : command unit :=
  and_then show_current_db (fun _ =>
  and_then (in_world (refresh_schema sq)) (fun _ =>
  and_then (in_world (build_er_diagram sq)) (fun _ =>
  in_world (_status status_text)))).

(** [on_open_db]; [file] is what the open dialog answers, the empty
    string when it is cancelled. *)
Definition on_open_db (file : string) : command unit :=
  if String.eqb file "" then done_ tt else
  and_then (in_world (set_current_db (name pl (Path pl file)))) (fun _ =>
  reopen "DB geöffnet.").

(** [on_new_db]; [file] is what the save dialog answers. *)
Definition on_new_db (file : string) : command unit :=
  if String.eqb file "" then done_ tt else
  let p := Path pl file in
  and_then (in_world (create_database p)) (fun _ =>
  and_then (in_world (set_current_db (name pl p))) (fun _ =>
  reopen "Neue DB erstellt.")).

(** [open_data_dir]: the exit status of [os.system] is dropped. *)
Definition open_data_dir : M St unit :=
  let* g := get_globals in
  let dir := fspath sys (DbName.DATA_DIR g) in
  try_except
    (if startswith (platform sys) "win" then call (startfile sys dir)
     else if String.eqb (platform sys) "darwin" then
       call (system sys ("open '" +:+ dir +:+ "'"));; ret tt
     else
       call (system sys ("xdg-open '" +:+ dir +:+ "'"));; ret tt)
    (fun e => showerror APP_TITLE
                ("Konnte Datenordner nicht öffnen:" +:+ nl +:+ e_str e)).

(** [insert_example]: the SQL tab is selected and the text of the
    editor replaced.  A Tk text widget ends with a newline of its own,
    which [get("1.0", "end")], the reading [txt_sql] stands for,
    returns after the text. *)
Definition insert_example (sql : string) : command unit :=
  fun p =>
    (Ok tt,
     App (World (env (world_of p)) (globals (world_of p))
            (set_txt_sql (sql +:+ nl) (ui (world_of p))) (trace (world_of p)))
       (lbl_db p) TabSql).

(** The button of an example followed by "Ausführen". *)
Definition run_example (sql : string) : command unit :=
  and_then (insert_example sql) (fun _ => in_world (run_sql sq)).

End Commands.

(** *** Vocabulary for the properties of the commands *)

(** The events of [create_database] on connection [c] when nothing
    fails: the explicit commit and the one of the [with] block. *)
Definition database_created (c : nat) : list event :=
  [ Connect c; Execute c PragmaForeignKeysOn; Execute c CreateItems;
    Commit c; Commit c ].

Definition invalid_name : exn :=
  Exn "ValueError" "Ungültiger DB-Name (a-z, 0-9, _, -, .db)".

(** The program with one more event in its trace. *)
Definition with_event {St} (ev : event) (p : app St) : app St :=
  App (World (env (world_of p)) (globals (world_of p)) (ui (world_of p))
         (trace (world_of p) ++ [ev]))
    (lbl_db p) (nb_selected p).

(** [pathlib.PurePosixPath], for running the commands: the root, then
    the parts between the slashes, empty parts and single dots dropped;
    the name is the last part unless that is the root. *)
Definition posix_root (s : string) : list string :=
  if startswith s "//" && negb (startswith s "///") then ["//"]
  else if startswith s "/" then ["/"]
  else [].

Definition posix_parts (s : string) : list string :=
  List.filter (fun part => negb (String.eqb part "") && negb (String.eqb part "."))
    (split "/" s).

Definition posix_name (p : DbName.path) : string :=
  match last p with
  | Some part => if contains "/" part then "" else part
  | None => ""
  end.

(** The text of an absolute path without symbolic links. *)
Definition posix_text (p : DbName.path) : string :=
  match p with
  | root :: parts => if contains "/" root then root +:+ join "/" parts else join "/" p
  | [] => "."
  end.

Definition posix {St : Type} : pathlib St :=
  Pathlib St (fun s => posix_root s ++ posix_parts s) posix_name (fun p _ => posix_text p).

End Shell.

(** ** More example databases and programs *)
Module Cases.
Import PyStr Gui Trace RefDb Examples Shell.

(** The customers are chosen in the Browse tab. *)
Definition kunden_chosen : world state := with_ui (set_cmb_tables "kunden") shop_world.

Definition kunden_answer : cursor :=
  Cursor (Some ["kunden_id"; "name"]) [ [VInt 1; VStr "Alice"]; [VInt 2; VStr "Bob"] ].

Definition tables_answer : cursor :=
  Cursor (Some ["name"]) [ [VStr "bestellungen"]; [VStr "kunden"] ].

(** A table without a key: no column [id], no primary key. *)
Definition notizen : rtable :=
  RTable "notizen" [ RColumn "text" "TEXT" 0 VNone 0 ] [] [ [VStr "Milch"] ].

(** Its one row is selected. *)
Definition note_world : world state := browse "notizen" [0%nat] (start [notizen]).

(** Bob is selected, and the database file can no longer be opened. *)
Definition lost_world : world state :=
  World (State true false shop_tables [] [] []) (globals bob_world) (ui bob_world) [].

Definition unable_to_open : exn := operational_error "unable to open database file".

(** What the database answers to the two statements of
    [two_statements]. *)
Definition two_statements_log : list run_entry :=
  [ RunEntry "delete from bestellungen" (Cursor None []) 0 1;
    RunEntry "select * from kunden" kunden_answer 1 1 ].

(** The file of the current database is missing; it is there and
    cannot be opened. *)
Definition no_file : world state :=
  World (State false true [] [] [] []) (globals shop_world) blank_widgets [].

Definition unreadable : world state :=
  World (State true false shop_tables [] [] []) (globals shop_world) blank_widgets [].

(** A file system of database files: [sqlite3.connect] makes the file
    it is given when it is missing; every statement is accepted and
    answers nothing. *)
Record files := Files {
  existing : list DbName.path;
  made : nat
}.

Definition f_connect (p : DbName.path) (st : files) : res nat * files :=
  (Ok (made st),
   Files (if bool_decide (p ∈ existing st) then existing st else existing st ++ [p])
     (S (made st))).

Definition file_engine : sqlite3 files :=
  Sqlite3 files (fun p st => bool_decide (p ∈ existing st)) f_connect
    (fun _ _ st => (Ok (Cursor None []), st))
    (fun _ _ st => (Ok tt, st))
    (fun _ st => (Ok tt, st))
    (fun _ st => st)
    (fun _ _ => 0)
    (fun _ st => (Ok tt, st))
    (fun _ _ st => (Ok tt, st)).

(** A database that answers every typed statement with the row
    [1, 2] under two columns named [a], as SQLite answers
    [SELECT 1 AS a, 2 AS a]. *)
Definition alias_answer : cursor := Cursor (Some ["a"; "a"]) [ [VInt 1; VInt 2] ].

Definition alias_engine : sqlite3 files :=
  Sqlite3 files (fun p st => bool_decide (p ∈ existing st)) f_connect
    (fun _ s st =>
       (Ok match s with Statement _ => alias_answer | _ => Cursor None [] end, st))
    (fun _ _ st => (Ok tt, st))
    (fun _ st => (Ok tt, st))
    (fun _ st => st)
    (fun _ _ => 0)
    (fun _ st => (Ok tt, st))
    (fun _ _ st => (Ok tt, st)).

(** The program at its start, before any database file exists. *)
Definition fresh : app files :=
  App (World (Files [] 0)
         (DbName.Globals ["/"; "app"; "data"] ["/"; "app"; "data"; "database.db"])
         blank_widgets [])
    "" TabSchema.

End Cases.

(** * Properties *)

(** ** The ER diagram *)
Section ErFacts.
Import Er.

Implicit Types (W idx : Z) (tables : list string) (catalog : list table_def).
Implicit Types (boxes : gmap string box) (cbt : gmap string (list column)).

#[local] Arguments place : simpl never.
#[local] Arguments render : simpl never.

Lemma per_row_ge_1 W : 1 <= per_row W.
Proof. unfold per_row. lia. Qed.

Lemma frames_app c1 c2 : frames (c1 ++ c2) = frames c1 ++ frames c2.
Proof. unfold frames. apply flat_map_app. Qed.

Lemma lines_app c1 c2 : lines (c1 ++ c2) = lines c1 ++ lines c2.
Proof. unfold lines. apply flat_map_app. Qed.

Lemma frames_draw_columns x1 y h cols : frames (draw_columns x1 y h cols) = [].
Proof. revert y. induction cols as [|c cols IH]; intros y; simpl; auto. Qed.

Lemma frames_draw_table_box name cols x1 y1 x2 y2 h :
  frames (_draw_table_box name cols x1 y1 x2 y2 h) = [(x1, y1, x2, y2)].
Proof.
  unfold _draw_table_box. rewrite frames_app, frames_draw_columns. reflexivity.
Qed.

Lemma lines_draw_columns x1 y h cols : lines (draw_columns x1 y h cols) = [].
Proof. revert y. induction cols as [|c cols IH]; intros y; simpl; auto. Qed.

Lemma lines_draw_table_box name cols x1 y1 x2 y2 h :
  lines (_draw_table_box name cols x1 y1 x2 y2 h) = [].
Proof.
  unfold _draw_table_box. rewrite lines_app, lines_draw_columns. reflexivity.
Qed.

(** *** The layout loop *)

Lemma layout_cons W cbt idx t tables canvas boxes :
  layout W cbt idx (t :: tables) canvas boxes =
    let b := place W idx (length (cbt !!! t)) in
    layout W cbt (idx + 1) tables
      (canvas ++ _draw_table_box t (cbt !!! t) b.1.1.1 b.1.1.2 b.1.2 b.2 LINE_H)
      (<[t := b]> boxes).
Proof.
  cbn [layout]. destruct (place W idx (length (cbt !!! t))) as [[[x1 y1] x2] y2].
  reflexivity.
Qed.

Lemma layout_other W cbt tables : forall idx canvas boxes t,
  t ∉ tables ->
  (layout W cbt idx tables canvas boxes).2 !! t = boxes !! t.
Proof.
  induction tables as [|u tables IH]; intros idx canvas boxes t Hnot.
  - reflexivity.
  - apply not_elem_of_cons in Hnot as [Hne Hnot].
    rewrite layout_cons. cbv zeta.
    rewrite IH by assumption. rewrite lookup_insert_ne; auto.
Qed.

Lemma layout_lookup W cbt tables : forall idx canvas boxes (i : nat) t,
  NoDup tables ->
  tables !! i = Some t ->
  (layout W cbt idx tables canvas boxes).2 !! t
    = Some (place W (idx + Z.of_nat i) (length (cbt !!! t))).
Proof.
  induction tables as [|u tables IH]; intros idx canvas boxes i t Hnd Hi.
  - discriminate.
  - apply NoDup_cons in Hnd as [Hu Hnd]. rewrite layout_cons. cbv zeta.
    destruct i as [|i]; simpl in Hi.
    + injection Hi as ->. rewrite layout_other by assumption.
      rewrite lookup_insert_eq. change (Z.of_nat 0) with 0.
      by rewrite Z.add_0_r.
    + rewrite (IH _ _ _ i t Hnd Hi). do 2 f_equal. lia.
Qed.

Lemma layout_dom W cbt tables : forall idx canvas boxes,
  dom (layout W cbt idx tables canvas boxes).2 = dom boxes ∪ list_to_set tables.
Proof.
  induction tables as [|u tables IH]; intros idx canvas boxes.
  - simpl. by rewrite (right_id_L ∅ (∪)).
  - rewrite layout_cons. cbv zeta.
    rewrite IH, dom_insert_L. simpl.
    rewrite (comm_L (∪) {[u]} (dom boxes)). by rewrite (assoc_L (∪)).
Qed.

Lemma layout_frames W cbt tables : forall idx canvas boxes,
  frames (layout W cbt idx tables canvas boxes).1
    = frames canvas
      ++ imap (fun i t => place W (idx + Z.of_nat i) (length (cbt !!! t))) tables.
Proof.
  induction tables as [|u tables IH]; intros idx canvas boxes.
  - simpl. by rewrite app_nil_r.
  - rewrite layout_cons. cbv zeta.
    rewrite IH, frames_app, frames_draw_table_box, <- app_assoc.
    destruct (place W idx (length (cbt !!! u))) as [[[x1 y1] x2] y2] eqn:Hp.
    simpl. change (Z.of_nat 0) with 0. rewrite Z.add_0_r, Hp. do 2 f_equal.
    apply imap_ext. intros i t _. unfold compose. f_equal. lia.
Qed.

Lemma layout_lines W cbt tables : forall idx canvas boxes,
  lines (layout W cbt idx tables canvas boxes).1 = lines canvas.
Proof.
  induction tables as [|u tables IH]; intros idx canvas boxes.
  - reflexivity.
  - rewrite layout_cons. cbv zeta.
    rewrite IH, lines_app, lines_draw_table_box. by rewrite app_nil_r.
Qed.

(** *** The collecting loop *)

Lemma collect_fks catalog : forall cbt fks,
  (collect catalog cbt fks).2 = fks ++ flat_map fk_rows_of catalog.
Proof.
  induction catalog as [|d catalog IH]; intros cbt fks; simpl.
  - by rewrite app_nil_r.
  - rewrite IH, <- app_assoc. reflexivity.
Qed.

Lemma collect_other catalog : forall cbt fks t,
  t ∉ map t_name catalog ->
  (collect catalog cbt fks).1 !! t = cbt !! t.
Proof.
  induction catalog as [|d catalog IH]; intros cbt fks t Hnot; simpl in *.
  - reflexivity.
  - apply not_elem_of_cons in Hnot as [Hne Hnot].
    rewrite IH by assumption. rewrite lookup_insert_ne; auto.
Qed.

Lemma collect_lookup catalog : forall cbt fks d,
  NoDup (map t_name catalog) ->
  d ∈ catalog ->
  (collect catalog cbt fks).1 !! t_name d = Some (t_cols d).
Proof.
  induction catalog as [|e catalog IH]; intros cbt fks d Hnd Hin; simpl in *.
  - by apply elem_of_nil in Hin.
  - apply NoDup_cons in Hnd as [He Hnd].
    apply elem_of_cons in Hin as [->|Hin].
    + rewrite collect_other by assumption. apply lookup_insert_eq.
    + by apply IH.
Qed.

(** *** The edge loop and the whole rendering *)

Lemma draw_edges_app boxes fks : forall canvas,
  draw_edges boxes fks canvas = canvas ++ flat_map (draw_edge boxes) fks.
Proof.
  induction fks as [|e fks IH]; intros canvas; simpl.
  - by rewrite app_nil_r.
  - by rewrite IH, <- app_assoc.
Qed.

Lemma render_eq w catalog :
  render w catalog =
    ((the_layout w catalog).1
       ++ flat_map (draw_edge (the_layout w catalog).2) (flat_map fk_rows_of catalog),
     (the_layout w catalog).2).
Proof.
  unfold render, the_layout, the_cols.
  pose proof (collect_fks catalog ∅ []) as Hf.
  destruct (collect catalog ∅ []) as [cbt fks]. simpl in Hf. subst fks.
  cbn [fst snd]. cbv zeta.
  destruct (layout (canvas_width w) cbt 0 (map t_name catalog) [] ∅)
    as [canvas boxes]. cbn [fst snd app].
  by rewrite draw_edges_app.
Qed.

Lemma the_cols_lookup catalog d :
  NoDup (map t_name catalog) -> d ∈ catalog ->
  the_cols catalog !!! t_name d = t_cols d.
Proof.
  intros Hnd Hin. unfold the_cols.
  apply lookup_total_correct. by apply collect_lookup.
Qed.

(** The box of the table at index [i] is [place] of its index and its
    own number of columns. *)
Lemma render_box w catalog (i : nat) d :
  NoDup (map t_name catalog) ->
  catalog !! i = Some d ->
  (render w catalog).2 !! t_name d
    = Some (place (canvas_width w) (Z.of_nat i) (length (t_cols d))).
Proof.
  intros Hnd Hi. rewrite render_eq. simpl. unfold the_layout.
  rewrite (layout_lookup _ _ _ _ _ _ i (t_name d) Hnd).
  - rewrite the_cols_lookup; eauto using list_elem_of_lookup_2.
  - by rewrite list_lookup_fmap, Hi.
Qed.

Lemma render_size w catalog :
  NoDup (map t_name catalog) ->
  size (render w catalog).2 = length catalog.
Proof.
  intros Hnd. rewrite render_eq. simpl. unfold the_layout.
  rewrite <- size_dom, layout_dom, dom_empty_L, (left_id_L ∅ (∪)).
  rewrite size_list_to_set by assumption. apply length_map.
Qed.

(** *** Arithmetic of [place] *)

Lemma place_nonneg W idx n : 0 <= idx -> nonneg_box (place W idx n).
Proof.
  intros Hidx. unfold place, nonneg_box.
  pose proof (per_row_ge_1 W) as Hp.
  assert (0 <= idx / per_row W) by (apply Z.div_pos; lia).
  assert (0 <= idx mod per_row W) by (apply Z.mod_pos_bound; lia).
  unfold PADDING, BOX_W, GAP_X, GAP_Y, TITLE_H, LINE_H. nia.
Qed.

Lemma layout_boxes_inv (P : box -> Prop) W cbt tables : forall idx canvas boxes,
  (forall i n, idx <= i -> P (place W i n)) ->
  (forall t b, boxes !! t = Some b -> P b) ->
  forall t b, (layout W cbt idx tables canvas boxes).2 !! t = Some b -> P b.
Proof.
  induction tables as [|u tables IH]; intros idx canvas boxes Hplace Hinit t b.
  - apply Hinit.
  - rewrite layout_cons. cbv zeta. apply IH.
    + intros i n Hi. apply Hplace. lia.
    + intros t' b'. rewrite lookup_insert. case_decide.
      * intros [= <-]. apply Hplace. lia.
      * apply Hinit.
Qed.

(** C1, as stated, fails: on an unmapped canvas ([winfo_width() = 0], so
    [W = 1000] and three boxes per row) the fourth table of two schemas
    with four tables each sits at [(24, 128)] when it has one column and
    at [(24, 146)] when it has two. *)
Lemma position_depends_on_column_count :
  length schema_narrow = length schema_wide /\
  position_of 0 schema_narrow 3 = Some (24, 128) /\
  position_of 0 schema_wide 3 = Some (24, 146) /\
  ~ (forall w c1 c2 i p1 p2,
        length c1 = length c2 ->
        position_of w c1 i = Some p1 -> position_of w c2 i = Some p2 ->
        p1 = p2).
Proof.
  assert (H1 : position_of 0 schema_narrow 3 = Some (24, 128)) by (vm_compute; reflexivity).
  assert (H2 : position_of 0 schema_wide 3 = Some (24, 146)) by (vm_compute; reflexivity).
  repeat split; try assumption.
  intros H. specialize (H 0 schema_narrow schema_wide 3%nat _ _ eq_refl H1 H2).
  discriminate H.
Qed.

(** C1, amended: the position of a box is a function of the table's
    index, the canvas width and the table's own number of columns.
    [x1] depends on the index and the width only; for two tables at the
    same index under the same width, equal column counts give equal
    positions, whatever the number of tables, the names, the foreign
    keys or the columns of the other tables. *)
Theorem position_function_of_index_width_columns
    (w : Z) (c1 c2 : list table_def) (i : nat) (d1 d2 : table_def) :
  NoDup (map t_name c1) -> NoDup (map t_name c2) ->
  c1 !! i = Some d1 -> c2 !! i = Some d2 ->
  exists x1 y1 x1' y1',
    position_of w c1 i = Some (x1, y1) /\
    position_of w c2 i = Some (x1', y1') /\
    x1 = x1' /\
    x1 = PADDING + Z.of_nat i mod per_row (canvas_width w) * (BOX_W + GAP_X) /\
    y1 = PADDING + Z.of_nat i / per_row (canvas_width w)
           * (TITLE_H + 8 + Z.max 1 (Z.of_nat (length (t_cols d1))) * LINE_H + 12 + GAP_Y) /\
    (length (t_cols d1) = length (t_cols d2) -> y1 = y1').
Proof.
  intros Hnd1 Hnd2 Hi1 Hi2. unfold position_of. rewrite Hi1, Hi2. simpl.
  rewrite (render_box w c1 i d1 Hnd1 Hi1), (render_box w c2 i d2 Hnd2 Hi2).
  simpl. unfold place. simpl. do 4 eexists.
  split; [reflexivity|]. split; [reflexivity|].
  split; [reflexivity|]. split; [reflexivity|]. split; [reflexivity|].
  intros ->. reflexivity.
Qed.

Lemma position_function_witness :
  exists x1 y1 x1' y1',
    position_of 0 schema_narrow 3 = Some (x1, y1) /\
    position_of 0 (schema_wide ++ [one_col "t5"]) 3 = Some (x1', y1') /\
    x1 = x1' /\
    x1 = PADDING + 3 mod per_row (canvas_width 0) * (BOX_W + GAP_X) /\
    y1 = PADDING + 3 / per_row (canvas_width 0)
           * (TITLE_H + 8 + Z.max 1 1 * LINE_H + 12 + GAP_Y) /\
    (1%nat = 2%nat -> y1 = y1').
Proof.
  apply (position_function_of_index_width_columns 0 schema_narrow
           (schema_wide ++ [one_col "t5"]) 3 (one_col "t4") (two_cols "t4")).
  - apply (bool_decide_unpack _). vm_compute. exact I.
  - apply (bool_decide_unpack _). vm_compute. exact I.
  - reflexivity.
  - reflexivity.
Defined.

(** C2: the number of boxes per row is [max(1, (W - 24) // (260 + 40))],
    and the box of the table at index [i] of the table list sits in the
    grid cell [row = i // per_row], [col = i % per_row]: its [x1] is the
    left edge of column [col], its [y1] is [row] times this box's pitch. *)
Theorem tiles_per_row_and_grid_cell
    (w : Z) (catalog : list table_def) (i : nat) (d : table_def) :
  NoDup (map t_name catalog) ->
  catalog !! i = Some d ->
  let W := canvas_width w in
  per_row W = Z.max 1 ((W - 24) / (260 + 40)) /\
  exists x1 y1 x2 y2 row col,
    (render w catalog).2 !! t_name d = Some (x1, y1, x2, y2) /\
    row = Z.of_nat i / per_row W /\
    col = Z.of_nat i mod per_row W /\
    0 <= col < per_row W /\
    Z.of_nat i = row * per_row W + col /\
    x1 = 24 + col * (260 + 40) /\
    x2 = x1 + 260 /\
    y1 = 24 + row * (y2 - y1 + 40).
Proof.
  intros Hnd Hi W. split; [reflexivity|].
  rewrite (render_box w catalog i d Hnd Hi). fold W.
  pose proof (per_row_ge_1 W) as Hp.
  unfold place. do 6 eexists.
  split; [reflexivity|]. split; [reflexivity|]. split; [reflexivity|].
  split; [apply Z.mod_pos_bound; lia|].
  split; [rewrite Z.mul_comm; apply Z.div_mod; lia|].
  unfold PADDING, BOX_W, GAP_X, GAP_Y.
  split; [reflexivity|]. split; [reflexivity|]. f_equal. f_equal. lia.
Qed.

Lemma tiles_per_row_witness :
  per_row (canvas_width 0) = Z.max 1 ((canvas_width 0 - 24) / (260 + 40)) /\
  exists x1 y1 x2 y2 row col,
    (render 0 schema_wide).2 !! "t4" = Some (x1, y1, x2, y2) /\
    row = 3 / per_row (canvas_width 0) /\
    col = 3 mod per_row (canvas_width 0) /\
    0 <= col < per_row (canvas_width 0) /\
    3 = row * per_row (canvas_width 0) + col /\
    x1 = 24 + col * (260 + 40) /\
    x2 = x1 + 260 /\
    y1 = 24 + row * (y2 - y1 + 40).
Proof.
  apply (tiles_per_row_and_grid_cell 0 schema_wide 3 (two_cols "t4")).
  - apply (bool_decide_unpack _). vm_compute. exact I.
  - reflexivity.
Defined.

(** C4: whatever the catalog and whatever [winfo_width()] answers, one
    box is drawn per table, every coordinate of every drawn box and of
    every entry of [boxes] is non-negative, and [per_row] is at least 1. *)
Theorem layout_places_N_nonneg_boxes (w : Z) (catalog : list table_def) :
  length (frames (render w catalog).1) = length catalog /\
  Forall nonneg_box (frames (render w catalog).1) /\
  (forall t b, (render w catalog).2 !! t = Some b -> nonneg_box b) /\
  1 <= per_row (canvas_width w).
Proof.
  rewrite render_eq. cbn [fst snd]. unfold the_layout.
  set (W := canvas_width w). set (cbt := the_cols catalog).
  assert (Hfr : frames (layout W cbt 0 (map t_name catalog) [] ∅).1
                = imap (fun i t => place W (0 + Z.of_nat i) (length (cbt !!! t)))
                    (map t_name catalog)).
  { rewrite layout_frames. reflexivity. }
  assert (Hedges : forall boxes fks, frames (flat_map (draw_edge boxes) fks) = []).
  { intros boxes fks. induction fks as [|e fks IH]; [reflexivity|].
    simpl. rewrite frames_app, IH, app_nil_r.
    destruct e as [[[ft fc] tt'] tc]. unfold draw_edge.
    destruct (boxes !! ft) as [[[[? ?] ?] ?]|]; [|reflexivity].
    destruct (boxes !! tt') as [[[[? ?] ?] ?]|]; [|reflexivity].
    unfold _draw_arrow. by destruct (String.eqb _ ""). }
  rewrite frames_app, Hedges, app_nil_r, Hfr.
  repeat split.
  - by rewrite length_imap, length_map.
  - apply Forall_forall. intros b Hb.
    apply elem_of_lookup_imap in Hb as (i & t & -> & _).
    apply place_nonneg. lia.
  - apply (layout_boxes_inv nonneg_box).
    + intros i n Hi. by apply place_nonneg.
    + intros t b. by rewrite lookup_empty.
  - apply per_row_ge_1.
Qed.

Lemma label_not_empty (fc tc : string) : String.eqb (fc +:+ " → " +:+ tc) "" = false.
Proof. destruct fc; reflexivity. Qed.

Lemma lines_box_items w catalog : lines (the_layout w catalog).1 = [].
Proof. unfold the_layout. by rewrite layout_lines. Qed.

(** C3: after the boxes, the canvas receives the items of the foreign-key
    rows in the order of the introspection and nothing else.  A row whose
    two tables have a box gives one line, from the right edge of the
    source box at its vertical midpoint to the left edge of the target
    box at its vertical midpoint, with the label "from → to"; a row with
    a table that has no box gives nothing. *)
Theorem one_edge_per_fk_row (w : Z) (catalog : list table_def) :
  let boxes := (render w catalog).2 in
  let rows := flat_map fk_rows_of catalog in
  (exists box_items,
     lines box_items = [] /\
     (render w catalog).1 = box_items ++ flat_map (draw_edge boxes) rows) /\
  forall ft fc tt' tc,
    (forall fx1 fy1 fx2 fy2 tx1 ty1 tx2 ty2,
       boxes !! ft = Some (fx1, fy1, fx2, fy2) ->
       boxes !! tt' = Some (tx1, ty1, tx2, ty2) ->
       let sy := (fy1 + fy2) / 2 in
       let ey := (ty1 + ty2) / 2 in
       draw_edge boxes (ft, fc, tt', tc) =
         [ Line fx2 sy tx1 ey;
           Text ((fx2 + tx1) / 2) ((sy + ey) / 2 - 8)
             (fc +:+ " → " +:+ tc) "Segoe UI 8" ]) /\
    (boxes !! ft = None \/ boxes !! tt' = None ->
       draw_edge boxes (ft, fc, tt', tc) = []).
Proof.
  intros boxes rows. split.
  - exists (the_layout w catalog).1. split; [apply lines_box_items|].
    subst boxes rows. by rewrite render_eq.
  - intros ft fc tt' tc. split.
    + intros fx1 fy1 fx2 fy2 tx1 ty1 tx2 ty2 Hf Ht sy ey.
      unfold draw_edge. rewrite Hf, Ht. unfold _draw_arrow.
      by rewrite label_not_empty.
    + intros [Hf|Ht]; unfold draw_edge.
      * by rewrite Hf.
      * rewrite Ht. by destruct (boxes !! ft) as [[[[? ?] ?] ?]|].
Qed.

Lemma one_edge_witness :
  draw_edge (render 0 shop).2 ("bestellungen", "kunden_id", "kunden", "kunden_id")
    = [ Line 284 ((24 + 124) / 2) 324 ((24 + 106) / 2);
        Text ((284 + 324) / 2) (((24 + 124) / 2 + (24 + 106) / 2) / 2 - 8)
          "kunden_id → kunden_id" "Segoe UI 8" ] /\
  draw_edge (render 0 shop).2 ("bestellungen", "datum", "kalender", "tag") = [].
Proof.
  pose proof (one_edge_per_fk_row 0 shop) as [_ H]. split.
  - apply (proj1 (H "bestellungen" "kunden_id" "kunden" "kunden_id")
             24 24 284 124 324 24 584 106); vm_compute; reflexivity.
  - apply (proj2 (H "bestellungen" "datum" "kalender" "tag")).
    right. vm_compute. reflexivity.
Defined.

End ErFacts.

(** ** Database names *)
Section DbNameFacts.
Import DbName.

Local Open Scope char_scope.

Example match_default : re_match SAFE_DB_RE "database.db" = true.
Proof. reflexivity. Qed.
Example match_two_extensions : re_match SAFE_DB_RE "database.db.db" = false.
Proof. reflexivity. Qed.
Example match_no_stem : re_match SAFE_DB_RE ".db" = false.
Proof. reflexivity. Qed.
Example match_umlaut : re_match SAFE_DB_RE "ä.db" = false.
Proof. reflexivity. Qed.
Example match_slash : re_match SAFE_DB_RE "../x.db" = false.
Proof. reflexivity. Qed.

Lemma app_cons c (s1 s2 : string) : (String c s1 +:+ s2 = String c (s1 +:+ s2))%string.
Proof. reflexivity. Qed.

Lemma app_assoc' (s1 s2 s3 : string) : ((s1 +:+ s2) +:+ s3 = s1 +:+ (s2 +:+ s3))%string.
Proof. induction s1 as [|c s1 IH]; [reflexivity|]. by rewrite !app_cons, IH. Qed.

Lemma in_class_safe c :
  in_class [("a", "z"); ("A", "Z"); ("0", "9"); ("_", "_"); ("-", "-")] c = safe_char c.
Proof.
  unfold in_class, in_range, safe_char. cbn [existsb fst snd].
  change (nat_of_ascii "a") with 97%nat. change (nat_of_ascii "z") with 122%nat.
  change (nat_of_ascii "A") with 65%nat. change (nat_of_ascii "Z") with 90%nat.
  change (nat_of_ascii "0") with 48%nat. change (nat_of_ascii "9") with 57%nat.
  change (nat_of_ascii "_") with 95%nat. change (nat_of_ascii "-") with 45%nat.
  generalize (nat_of_ascii c). intros n.
  rewrite orb_false_r, !orb_assoc. f_equal; [f_equal|].
  - destruct (Nat.eqb_spec n 95) as [->|Hn]; [reflexivity|].
    destruct (Nat.leb_spec 95 n), (Nat.leb_spec n 95); try reflexivity; lia.
  - destruct (Nat.eqb_spec n 45) as [->|Hn]; [reflexivity|].
    destruct (Nat.leb_spec 45 n), (Nat.leb_spec n 45); try reflexivity; lia.
Qed.

Lemma all_chars_ext f g s : (forall c, f c = g c) -> all_chars f s = all_chars g s.
Proof. intros H. induction s as [|c s IH]; [done|]. simpl. by rewrite H, IH. Qed.

Lemma one_or_more_spec cls k s :
  one_or_more cls k s = true <->
  exists stem rest, stem <> ""%string /\ all_chars cls stem = true
                    /\ s = (stem +:+ rest)%string /\ k rest = true.
Proof.
  induction s as [|c s IH]; simpl.
  - split; [discriminate|].
    intros (stem & rest & Hne & _ & Heq & _). destruct stem; [done|discriminate].
  - rewrite andb_true_iff, orb_true_iff, IH. split.
    + intros [Hc [(stem & rest & Hne & Hall & -> & Hk)|Hk]].
      * exists (String c stem), rest. simpl. rewrite Hc, Hall. by repeat split.
      * exists (String c ""), s. simpl. rewrite Hc. by repeat split.
    + intros (stem & rest & Hne & Hall & Heq & Hk).
      destruct stem as [|c' stem]; [done|]. rewrite app_cons in Heq.
      injection Heq as <- ->. simpl in Hall. apply andb_true_iff in Hall as [Hc Hall].
      split; [assumption|]. destruct stem as [|c'' stem].
      * by right.
      * left. exists (String c'' stem), rest. by repeat split.
Qed.

Lemma extension_spec s :
  match_atoms [Chr "."; Chr "d"; Chr "b"; Eol] false s = true <->
  s = ".db"%string \/ s = (".db" +:+ newline)%string.
Proof.
  cbn [match_atoms]. split.
  - destruct s as [|c1 [|c2 [|c3 s]]]; try discriminate;
      try (rewrite ?andb_true_iff; intros [_ H]; discriminate H);
      try (rewrite ?andb_true_iff; intros [_ [_ H]]; discriminate H).
    rewrite !andb_true_iff, !Ascii.eqb_eq. intros (<- & <- & <- & Heol & _).
    destruct s as [|c4 [|c5 s]]; [by left| |discriminate].
    simpl in Heol. apply Ascii.eqb_eq in Heol as ->. by right.
  - intros [->| ->]; reflexivity.
Qed.

(** What [SAFE_DB_RE.match] accepts: the allowed names, and the allowed
    names followed by one newline. *)
Lemma SAFE_DB_RE_spec name :
  re_match SAFE_DB_RE name = true <->
  safe_db_name name \/ exists n, safe_db_name n /\ name = (n +:+ newline)%string.
Proof.
  unfold re_match, SAFE_DB_RE. cbn [match_atoms andb].
  rewrite one_or_more_spec. split.
  - intros (stem & rest & Hne & Hall & -> & Hk).
    apply extension_spec in Hk as [->| ->].
    + left. exists stem. repeat split; [done|].
      by rewrite <- Hall, (all_chars_ext _ _ stem in_class_safe).
    + right. exists (stem +:+ ".db")%string. split; [|by rewrite app_assoc'].
      exists stem. repeat split; [done|].
      by rewrite <- Hall, (all_chars_ext _ _ stem in_class_safe).
  - intros [(stem & Hne & Hall & ->)|(n & (stem & Hne & Hall & ->) & ->)].
    + exists stem, ".db"%string.
      rewrite (all_chars_ext _ _ stem in_class_safe). repeat split; auto.
    + exists stem, (".db" +:+ newline)%string.
      rewrite app_assoc', (all_chars_ext _ _ stem in_class_safe). repeat split; auto.
Qed.

(** An allowed name has no newline in it. *)
Lemma safe_db_name_last name : ~ safe_db_name (name +:+ newline)%string.
Proof.
  intros (stem & _ & _ & Heq). revert name Heq.
  induction stem as [|c stem IH]; intros name Heq.
  - by destruct name as [|c1 [|c2 [|c3 [|c4 name]]]].
  - destruct name as [|c' name].
    + destruct stem; discriminate Heq.
    + rewrite !app_cons in Heq. injection Heq as _ Heq. by apply IH in Heq.
Qed.

(** [set_current_db] on the names the pattern accepts, and on the rest. *)
Lemma set_current_db_accepted name g :
  re_match SAFE_DB_RE name = true ->
  set_current_db name g
    = (inl tt, {| DATA_DIR := DATA_DIR g; CURRENT_DB := path_div (DATA_DIR g) name |}).
Proof. intros H. unfold set_current_db. by rewrite H. Qed.

Lemma set_current_db_refused name g :
  re_match SAFE_DB_RE name = false ->
  exists e, set_current_db name g = (inr e, g).
Proof. intros H. unfold set_current_db. rewrite H. eauto. Qed.

(** C5 holds on every name without a trailing newline ... *)
Lemma set_current_db_safe_names name g :
  (forall n, name <> (n +:+ newline)%string) ->
  (safe_db_name name ->
     set_current_db name g
       = (inl tt, {| DATA_DIR := DATA_DIR g; CURRENT_DB := path_div (DATA_DIR g) name |}))
  /\ (~ safe_db_name name -> exists e, set_current_db name g = (inr e, g)).
Proof.
  intros Hnl. split.
  - intros Hs. apply set_current_db_accepted, SAFE_DB_RE_spec. by left.
  - intros Hns. apply set_current_db_refused.
    destruct (re_match SAFE_DB_RE name) eqn:Hm; [|reflexivity].
    apply SAFE_DB_RE_spec in Hm as [Hs|(n & _ & ->)]; [done|]. by destruct (Hnl n).
Qed.

(** ... and C5 fails on the others: ["a.db\n"] is not an allowed name,
    [SAFE_DB_RE.match] accepts it because [$] also matches before a final
    newline, and [set_current_db] makes it the current database instead
    of raising. *)
Theorem set_current_db_accepts_trailing_newline (g : globals) :
  let name := ("a.db" +:+ newline)%string in
  ~ safe_db_name name /\
  set_current_db name g
    = (inl tt, {| DATA_DIR := DATA_DIR g; CURRENT_DB := path_div (DATA_DIR g) name |}).
Proof.
  intros name. split.
  - apply safe_db_name_last.
  - reflexivity.
Qed.

End DbNameFacts.

Section PyStrFacts.
Import PyStr.
Example strip_ex : strip "  a b ;
 " = "a b ;". Proof. reflexivity. Qed.
Example strip_blank : strip "   " = "". Proof. reflexivity. Qed.
Example strip_unicode :
  strip (bytes [194; 160] +:+ "a" +:+ bytes [226; 128; 169; 32; 227; 128; 128]) = "a"
  /\ strip (bytes [226; 128; 139]) = bytes [226; 128; 139]
  /\ strip (bytes [194; 160; 10]) = ""%string.
Proof. repeat split. Qed.
Example lower_ex : lower "SeLect * FROM T_1" = "select * from t_1". Proof. reflexivity. Qed.
Example contains_ex : contains "end" "appendix" = true. Proof. reflexivity. Qed.
Example contains_ex2 : contains "begin" "select" = false. Proof. reflexivity. Qed.
Example contains_ex3 : contains "" "" = true. Proof. reflexivity. Qed.
Example split_ex : split ";" "a;b;;c;" = ["a"; "b"; ""; "c"; ""]. Proof. reflexivity. Qed.
Example split_ex2 : split ";" "" = [""]. Proof. reflexivity. Qed.
Example join_ex : join ";" ["a"; "b"; ""; "c"] = "a;b;;c". Proof. reflexivity. Qed.
End PyStrFacts.

(** ** The operations: what they add to the trace *)
Section TraceFacts.
Import PyStr Gui Trace.
Context {St : Type} (sq : sqlite3 St).

#[local] Abbreviation engine_run := (Trace.engine_run sq).
#[local] Abbreviation delete_and_reload := (Trace.delete_and_reload sq).

Section EmitsOnly.
Variable S : event -> Prop.
Hypothesis S_raised : forall e, S (Raised e).

Lemma emits_ret {A} (a : A) : emits_only S (ret (St:=St) a).
Proof. intros w. exists []. by rewrite app_nil_r. Qed.

Lemma emits_bind {A B} (m : M St A) (f : A -> M St B) :
  emits_only S m -> (forall a, emits_only S (f a)) -> emits_only S (bind m f).
Proof.
  intros Hm Hf w. unfold bind. destruct (Hm w) as (evs1 & E1 & P1).
  destruct (m w) as [[a|e] w1]; simpl in E1.
  - destruct (Hf a w1) as (evs2 & E2 & P2). exists (evs1 ++ evs2).
    rewrite E2, E1, app_assoc. split; [done|]. by apply Forall_app.
  - by exists evs1.
Qed.

Lemma emits_emit ev : S ev -> emits_only S (emit (St:=St) ev).
Proof. intros H w. exists [ev]. split; [done|]. by constructor. Qed.

Lemma emits_raise {A} e : emits_only S (raise (St:=St) (A:=A) e).
Proof. intros w. exists [Raised e]. split; [done|]. by constructor. Qed.

Lemma emits_reraise {A} e : emits_only S (reraise (St:=St) (A:=A) e).
Proof. intros w. exists []. by rewrite app_nil_r. Qed.

Lemma emits_call {A} (f : St -> res A * St) : emits_only S (call f).
Proof.
  intros w. unfold call. destruct (f (env w)) as [[a|e] st]; simpl.
  - exists []. by rewrite app_nil_r.
  - exists [Raised e]. split; [done|]. by constructor.
Qed.

Lemma emits_try_except {A} (body : M St A) handler :
  emits_only S body -> (forall e, emits_only S (handler e)) ->
  emits_only S (try_except body handler).
Proof.
  intros Hb Hh w. unfold try_except. destruct (Hb w) as (evs1 & E1 & P1).
  destruct (body w) as [[a|e] w1]; simpl in E1.
  - by exists evs1.
  - destruct (Hh e w1) as (evs2 & E2 & P2). exists (evs1 ++ evs2).
    rewrite E2, E1, app_assoc. split; [done|]. by apply Forall_app.
Qed.

Lemma emits_get_ui : emits_only S (get_ui (St:=St)).
Proof. intros w. exists []. by rewrite app_nil_r. Qed.

Lemma emits_get_globals : emits_only S (get_globals (St:=St)).
Proof. intros w. exists []. by rewrite app_nil_r. Qed.

Lemma emits_modify_ui f : emits_only S (modify_ui (St:=St) f).
Proof. intros w. exists []. by rewrite app_nil_r. Qed.

Lemma emits_lift {A} (r : res A) : emits_only S (lift (St:=St) r).
Proof. destruct r; [apply emits_ret|apply emits_raise]. Qed.

Lemma emits_for_each {A} (xs : list A) body :
  (forall x, emits_only S (body x)) -> emits_only S (for_each (St:=St) xs body).
Proof.
  intros Hb. induction xs as [|x xs IH]; simpl.
  - apply emits_ret.
  - apply emits_bind; auto.
Qed.

Lemma emits_fold_each {A B} (xs : list A) (acc : B) body :
  (forall b x, emits_only S (body b x)) -> emits_only S (fold_each (St:=St) xs acc body).
Proof.
  intros Hb. revert acc. induction xs as [|x xs IH]; intros acc; simpl.
  - apply emits_ret.
  - apply emits_bind; auto.
Qed.

Lemma emits_map_each {A B} (xs : list A) (f : A -> M St B) :
  (forall x, emits_only S (f x)) -> emits_only S (map_each xs f).
Proof.
  intros Hf. induction xs as [|x xs IH]; simpl.
  - apply emits_ret.
  - apply emits_bind; [auto|]. intros y. apply emits_bind; [auto|].
    intros ys. apply emits_ret.
Qed.

(** A step of a proof that an operation emits only [S]: the rule of
    the outermost construct, or a case split on what it branches on. *)
Ltac emits_step :=
  lazymatch goal with
  | |- emits_only _ (ret _) => apply emits_ret
  | |- emits_only _ (bind _ _) => apply emits_bind; [|intros ?]
  | |- emits_only _ (emit _) => apply emits_emit; auto
  | |- emits_only _ (raise _) => apply emits_raise
  | |- emits_only _ (reraise _) => apply emits_reraise
  | |- emits_only _ (call _) => apply emits_call
  | |- emits_only _ (try_except _ _) => apply emits_try_except; [|intros ?]
  | |- emits_only _ get_ui => apply emits_get_ui
  | |- emits_only _ get_globals => apply emits_get_globals
  | |- emits_only _ (modify_ui _) => apply emits_modify_ui
  | |- emits_only _ (lift _) => apply emits_lift
  | |- emits_only _ (for_each _ _) => apply emits_for_each; intros ?
  | |- emits_only _ (fold_each _ _ _) => apply emits_fold_each; intros ? ?
  | |- emits_only _ (map_each _ _) => apply emits_map_each; intros ?
  | |- emits_only _ (if ?b then _ else _) => destruct b
  | |- emits_only _ (match ?x with _ => _ end) => destruct x
  | |- emits_only _ (let '_ := ?x in _) => destruct x
  end.

Hypothesis S_connect : forall c, S (Connect c).
Hypothesis S_pragma_fk : forall c, S (Execute c PragmaForeignKeysOn).
Hypothesis S_executescript : forall c s, S (ExecuteScript c s).
Hypothesis S_commit : forall c, S (Commit c).
Hypothesis S_rollback : forall c, S (Rollback c).
Hypothesis S_gridreset : forall g cols, S (GridReset g cols).

Lemma emits_sq_connect : emits_only S (sq_connect sq).
Proof. unfold sq_connect. repeat emits_step; auto. Qed.

Lemma emits_sq_execute c s : S (Execute c s) -> emits_only S (sq_execute sq c s).
Proof. intros H. unfold sq_execute. repeat emits_step; auto. Qed.

Lemma emits_sq_executescript c s : emits_only S (sq_executescript sq c s).
Proof. unfold sq_executescript. repeat emits_step; auto. Qed.

Lemma emits_sq_commit c : emits_only S (sq_commit sq c).
Proof. unfold sq_commit. repeat emits_step; auto. Qed.

Lemma emits_sq_rollback c : emits_only S (sq_rollback sq c).
Proof. unfold sq_rollback. repeat emits_step; auto. Qed.

Lemma emits_sq_total_changes c : emits_only S (sq_total_changes sq c).
Proof. intros w. exists []. by rewrite app_nil_r. Qed.

Lemma emits_exists_current_db : emits_only S (exists_current_db sq).
Proof. intros w. exists []. by rewrite app_nil_r. Qed.

Lemma emits_get_db_conn : emits_only S (get_db_conn sq).
Proof.
  unfold get_db_conn. apply emits_bind; [apply emits_sq_connect|]. intros c.
  apply emits_bind; [by apply emits_sq_execute|]. intros _. apply emits_ret.
Qed.

Lemma emits_with_conn {A} (body : nat -> M St A) :
  (forall c, emits_only S (body c)) -> emits_only S (with_conn sq body).
Proof.
  intros Hb. unfold with_conn. apply emits_bind; [apply emits_get_db_conn|].
  intros c w. destruct (Hb c w) as (evs1 & E1 & P1).
  destruct (body c w) as [[a|e] w1]; simpl in E1.
  - assert (H : emits_only S (bind (sq_commit sq c) (fun _ => ret a))).
    { apply emits_bind; [apply emits_sq_commit|]. intros _. apply emits_ret. }
    destruct (H w1) as (evs2 & E2 & P2). exists (evs1 ++ evs2).
    rewrite E2, E1, app_assoc. split; [done|]. by apply Forall_app.
  - assert (H : emits_only S (bind (sq_rollback sq c) (fun _ => reraise (A:=A) e))).
    { apply emits_bind; [apply emits_sq_rollback|]. intros _. apply emits_reraise. }
    destruct (H w1) as (evs2 & E2 & P2). exists (evs1 ++ evs2).
    rewrite E2, E1, app_assoc. split; [done|]. by apply Forall_app.
Qed.

Lemma emits_status text : emits_only S (_status (St:=St) text).
Proof. apply emits_modify_ui. Qed.

Lemma emits_row_values cols r : emits_only S (row_values (St:=St) cols r).
Proof. unfold row_values. repeat emits_step. Qed.

Lemma emits_description_names cur : emits_only S (description_names (St:=St) cur).
Proof. unfold description_names. repeat emits_step. Qed.

Lemma emits_render_grid g cols rows : emits_only S (_render_grid (St:=St) g cols rows).
Proof.
  unfold _render_grid. apply emits_bind; [by apply emits_emit|]. intros _.
  apply emits_bind; [apply emits_modify_ui|]. intros _.
  apply emits_for_each. intros r. apply emits_bind; [apply emits_row_values|].
  intros vals. apply emits_modify_ui.
Qed.

Hypothesis S_select_items : forall c, S (Execute c SelectItems).

(** [reload_items] makes database calls only: no dialog, no file. *)
Lemma emits_reload_items : emits_only S (reload_items sq).
Proof.
  unfold reload_items. apply emits_try_except.
  - apply emits_bind.
    + apply emits_with_conn. intros c. apply emits_bind; [by apply emits_sq_execute|].
      intros cur. apply emits_bind; [apply emits_description_names|].
      intros cols. apply emits_ret.
    + intros [cols rows]. apply emits_render_grid.
  - intros _. apply emits_render_grid.
Qed.

Hypothesis S_info : forall t m, S (MessageBox Info t m).
Hypothesis S_warning : forall t m, S (MessageBox Warning t m).
Hypothesis S_error : forall t m, S (MessageBox Error t m).
Hypothesis S_tables : forall c, S (Execute c SelectTables).
Hypothesis S_table_info : forall c t, S (Execute c (PragmaTableInfo t)).
Hypothesis S_fk_list : forall c t, S (Execute c (PragmaForeignKeyList t)).
Hypothesis S_select : forall c t f, S (Execute c (SelectAllFrom t f)).
Hypothesis S_delete : forall c t k v, S (Execute c (DeleteWhere t k v)).
Hypothesis S_create : forall c, S (Execute c CreateItems).
Hypothesis S_insert : forall c n d, S (Execute c (InsertItem n d)).
Hypothesis S_statement : forall c s, S (Execute c (Statement s)).
Hypothesis S_openfile : forall f e, S (OpenFile f e).
Hypothesis S_writefile : forall f t, S (WriteFile f t).
Hypothesis S_closefile : forall f, S (CloseFile f).

(** One more step: the rules of the program's own helpers. *)
Ltac emits_op :=
  first
  [ progress cbv zeta
  | emits_step
  | apply emits_sq_execute; solve [auto]
  | apply emits_sq_executescript | apply emits_sq_commit
  | apply emits_sq_total_changes | apply emits_exists_current_db
  | apply emits_with_conn; intros ?
  | apply emits_status | apply emits_row_values | apply emits_description_names
  | apply emits_render_grid | apply emits_reload_items
  | apply emits_emit; solve [auto] ].

Lemma emits_with_open {A} file (body : M St A) :
  emits_only S body -> emits_only S (with_open sq file body).
Proof.
  intros Hb. unfold with_open. apply emits_bind; [apply emits_call|]. intros _.
  apply emits_bind; [by apply emits_emit|]. intros _ w.
  destruct (Hb w) as (evs1 & E1 & P1).
  destruct (body w) as [[a|e] w1]; simpl in E1.
  - exists (evs1 ++ [CloseFile file]). simpl. rewrite E1, app_assoc. split; [done|].
    apply Forall_app. split; [done|]. by constructor.
  - exists (evs1 ++ [CloseFile file]). simpl. rewrite E1, app_assoc. split; [done|].
    apply Forall_app. split; [done|]. by constructor.
Qed.

Lemma emits_writerow file fields : emits_only S (writerow sq file fields).
Proof. unfold writerow. repeat emits_op. Qed.

Lemma emits_load_table_rows : emits_only S (load_table_rows sq).
Proof. unfold load_table_rows, showerror. repeat emits_op. Qed.

Lemma emits_first_pk pkinfo : emits_only S (first_pk (St:=St) pkinfo).
Proof.
  induction pkinfo as [|c rest IH]; simpl; [apply emits_ret|].
  apply emits_bind; [apply emits_lift|]. intros pk.
  destruct (eq_int pk 1); [apply emits_lift|apply IH].
Qed.

Lemma emits_delete_selected_row : emits_only S (delete_selected_row sq).
Proof.
  unfold delete_selected_row, find_pk_col, delete_try, showerror, showwarning, showinfo.
  repeat first [ apply emits_load_table_rows | apply emits_first_pk | emits_op ].
Qed.

Lemma emits_export_csv_try t file : emits_only S (export_csv_try sq t file).
Proof.
  unfold export_csv_try.
  repeat first [ apply emits_with_open | apply emits_writerow | emits_op ].
Qed.

Lemma emits_export_csv_current file : emits_only S (export_csv_current sq file).
Proof.
  unfold export_csv_current, showerror, showinfo.
  repeat first [ apply emits_export_csv_try | emits_op ].
Qed.

Lemma emits_add_item : emits_only S (add_item sq).
Proof. unfold add_item, showerror, showwarning, showinfo. repeat emits_op. Qed.

Lemma emits_refresh_schema : emits_only S (refresh_schema sq).
Proof.
  unfold refresh_schema, column_tree_label, fk_tree_label, tree_insert.
  repeat first [ apply emits_load_table_rows | emits_op ].
Qed.

Lemma emits_build_er_diagram : emits_only S (build_er_diagram sq).
Proof.
  unfold build_er_diagram, decode_column, decode_fk. repeat emits_op.
Qed.

Lemma emits_run_sql : emits_only S (run_sql sq).
Proof.
  unfold run_sql, run_sql_execute, run_statement, show_result, showerror.
  repeat first [ apply emits_refresh_schema | apply emits_build_er_diagram | emits_op ].
Qed.

Lemma emits_perform op : emits_only S (perform sq op).
Proof.
  destruct op; simpl;
    auto using emits_refresh_schema, emits_load_table_rows,
      emits_delete_selected_row, emits_export_csv_current, emits_add_item,
      emits_reload_items, emits_run_sql, emits_build_er_diagram.
Qed.

End EmitsOnly.

Lemma bind_get_ui {A} (f : widgets -> M St A) w : bind get_ui f w = f (ui w) w.
Proof. reflexivity. Qed.

Lemma bind_ret {A B} (a : A) (f : A -> M St B) w : bind (ret a) f w = f a w.
Proof. reflexivity. Qed.

Lemma bind_ok_inv {A B} (m : M St A) (f : A -> M St B) w b w' :
  bind m f w = (Ok b, w') ->
  exists a w1, m w = (Ok a, w1) /\ f a w1 = (Ok b, w').
Proof.
  unfold bind. destruct (m w) as [[a|e] w1]; [|discriminate]. eauto.
Qed.

Lemma try_except_ok {A} (body : M St A) handler w a w' :
  body w = (Ok a, w') -> try_except body handler w = (Ok a, w').
Proof. intros H. unfold try_except. by rewrite H. Qed.

Lemma try_except_raise {A} (body : M St A) handler w e w' :
  body w = (Raise e, w') -> try_except body handler w = handler e w'.
Proof. intros H. unfold try_except. by rewrite H. Qed.

(** The calls into [sqlite3], step by step. *)
Lemma sq_connect_eq w :
  sq_connect sq w =
    match connect sq (DbName.CURRENT_DB (globals w)) (env w) with
    | (Ok c, st) => (Ok c, World st (globals w) (ui w) (trace w ++ [Connect c]))
    | (Raise e, st) => (Raise e, World st (globals w) (ui w) (trace w ++ [Raised e]))
    end.
Proof.
  unfold sq_connect, bind, get_globals, call, emit, ret. simpl.
  by destruct (connect sq _ (env w)) as [[c|e] st].
Qed.

Lemma sq_execute_eq c s w :
  sq_execute sq c s w =
    match execute sq c s (env w) with
    | (Ok cur, st) => (Ok cur, World st (globals w) (ui w) (trace w ++ [Execute c s]))
    | (Raise e, st) =>
        (Raise e, World st (globals w) (ui w) (trace w ++ [Execute c s; Raised e]))
    end.
Proof.
  unfold sq_execute, bind, call, emit. simpl.
  destruct (execute sq c s (env w)) as [[cur|e] st]; [done|].
  by rewrite <- app_assoc.
Qed.

Lemma sq_commit_eq c w :
  sq_commit sq c w =
    match commit sq c (env w) with
    | (Ok u, st) => (Ok u, World st (globals w) (ui w) (trace w ++ [Commit c]))
    | (Raise e, st) =>
        (Raise e, World st (globals w) (ui w) (trace w ++ [Commit c; Raised e]))
    end.
Proof.
  unfold sq_commit, bind, call, emit. simpl.
  destruct (commit sq c (env w)) as [[u|e] st]; [done|].
  by rewrite <- app_assoc.
Qed.

Lemma sq_rollback_eq c w :
  sq_rollback sq c w =
    (Ok tt, World (rollback sq c (env w)) (globals w) (ui w) (trace w ++ [Rollback c])).
Proof. reflexivity. Qed.

(** [get_db_conn] returns when the connection opens and the pragma
    runs, and raises when either fails. *)
Lemma get_db_conn_eq w :
  get_db_conn sq w =
    match connect sq (DbName.CURRENT_DB (globals w)) (env w) with
    | (Ok c, st1) =>
        match execute sq c PragmaForeignKeysOn st1 with
        | (Ok _, st2) =>
            (Ok c, World st2 (globals w) (ui w)
                     (trace w ++ [Connect c; Execute c PragmaForeignKeysOn]))
        | (Raise e, st2) =>
            (Raise e, World st2 (globals w) (ui w)
                        (trace w ++ [Connect c; Execute c PragmaForeignKeysOn; Raised e]))
        end
    | (Raise e, st1) => (Raise e, World st1 (globals w) (ui w) (trace w ++ [Raised e]))
    end.
Proof.
  unfold get_db_conn, bind. rewrite sq_connect_eq.
  destruct (connect sq _ (env w)) as [[c|e] st1]; [|done].
  rewrite sq_execute_eq. simpl.
  destruct (execute sq c PragmaForeignKeysOn st1) as [[cur|e] st2]; simpl;
    by rewrite <- app_assoc.
Qed.

Lemma with_conn_eq {A} (body : nat -> M St A) w :
  with_conn sq body w =
    match get_db_conn sq w with
    | (Ok c, w1) =>
        match body c w1 with
        | (Ok a, w2) =>
            match sq_commit sq c w2 with
            | (Ok _, w3) => (Ok a, w3)
            | (Raise e, w3) => (Raise e, w3)
            end
        | (Raise e, w2) =>
            (Raise e, World (rollback sq c (env w2)) (globals w2) (ui w2)
                        (trace w2 ++ [Rollback c]))
        end
    | (Raise e, w1) => (Raise e, w1)
    end.
Proof.
  unfold with_conn. unfold bind at 1.
  destruct (get_db_conn sq w) as [[c|e] w1]; [|done].
  destruct (body c w1) as [[a|e] w2].
  - unfold bind. by destruct (sq_commit sq c w2) as [[u|e] w3].
  - reflexivity.
Qed.

(** *** Failures and their handlers in the trace *)

Section Handling.
(** How the handlers under study start. *)
Variable answers : exn -> event -> Prop.

#[local] Abbreviation follows := (Trace.follows answers).
#[local] Abbreviation handles := (Trace.handles answers).
#[local] Abbreviation catches := (Trace.catches answers).
#[local] Abbreviation handler_for := (Trace.handler_for answers).

Lemma follows_app s1 evs1 s2 evs2 s3 :
  follows s1 evs1 s2 -> follows s2 evs2 s3 -> follows s1 (evs1 ++ evs2) s3.
Proof.
  intros H1 H2. induction H1; simpl; auto.
  - by apply follows_raised, IHfollows.
  - by apply follows_other; [|apply IHfollows].
  - by apply follows_cleanup; [|apply IHfollows].
  - by apply follows_answer; [|apply IHfollows].
Qed.

Lemma catches_handles {A} (m : M St A) : catches m -> handles m.
Proof.
  intros H w. destruct (H w) as (evs & a & E & T & F). exists evs.
  by rewrite E.
Qed.

Lemma catches_ret {A} (a : A) : catches (ret (St:=St) a).
Proof. intros w. exists [], a. rewrite app_nil_r. repeat split. constructor. Qed.

Lemma catches_quiet {A} (m : M St A) :
  (forall w, exists a, (m w).1 = Ok a /\ trace (m w).2 = trace w) -> catches m.
Proof.
  intros H w. destruct (H w) as (a & E & T). exists [], a.
  rewrite app_nil_r. repeat split; auto. constructor.
Qed.

Lemma catches_get_ui : catches (get_ui (St:=St)).
Proof. apply catches_quiet. intros w. by exists (ui w). Qed.

Lemma catches_get_globals : catches (get_globals (St:=St)).
Proof. apply catches_quiet. intros w. by exists (globals w). Qed.

Lemma catches_modify_ui f : catches (modify_ui (St:=St) f).
Proof. apply catches_quiet. intros w. by exists tt. Qed.

Lemma catches_sq_total_changes c : catches (sq_total_changes sq c).
Proof. apply catches_quiet. intros w. by eexists. Qed.

Lemma catches_exists_current_db : catches (exists_current_db sq).
Proof. apply catches_quiet. intros w. by eexists. Qed.

Lemma catches_emit ev : (forall e, ev <> Raised e) -> catches (emit (St:=St) ev).
Proof.
  intros H w. exists [ev], tt. repeat split. apply follows_other; [done|constructor].
Qed.

Lemma catches_bind {A B} (m : M St A) (f : A -> M St B) :
  catches m -> (forall a, catches (f a)) -> catches (bind m f).
Proof.
  intros Hm Hf w. unfold bind. destruct (Hm w) as (evs1 & a & E1 & T1 & F1).
  destruct (m w) as [r w1]. simpl in *. subst r.
  destruct (Hf a w1) as (evs2 & b & E2 & T2 & F2). exists (evs1 ++ evs2), b.
  rewrite T2, T1, app_assoc. repeat split; auto. by eapply follows_app.
Qed.

Lemma handles_bind {A B} (m : M St A) (f : A -> M St B) :
  handles m -> (forall a, handles (f a)) -> handles (bind m f).
Proof.
  intros Hm Hf w. unfold bind. destruct (Hm w) as (evs1 & T1 & F1).
  destruct (m w) as [[a|e] w1]; simpl in *.
  - destruct (Hf a w1) as (evs2 & T2 & F2). exists (evs1 ++ evs2).
    rewrite T2, T1, app_assoc. split; [done|]. by eapply follows_app.
  - by exists evs1.
Qed.

Lemma handles_raise {A} e : handles (raise (St:=St) (A:=A) e).
Proof. intros w. exists [Raised e]. split; [done|]. simpl. repeat constructor. Qed.

Lemma handles_call {A} (f : St -> res A * St) : handles (call f).
Proof.
  intros w. unfold call. destruct (f (env w)) as [[a|e] st]; simpl.
  - exists []. rewrite app_nil_r. split; [done|]. constructor.
  - exists [Raised e]. split; [done|]. repeat constructor.
Qed.

Lemma handles_lift {A} (r : res A) : handles (lift (St:=St) r).
Proof. destruct r; [apply catches_handles, catches_ret|apply handles_raise]. Qed.

Lemma handles_for_each {A} (xs : list A) body :
  (forall x, handles (body x)) -> handles (for_each (St:=St) xs body).
Proof.
  intros Hb. induction xs as [|x xs IH]; simpl.
  - apply catches_handles, catches_ret.
  - apply handles_bind; auto.
Qed.

Lemma handles_fold_each {A B} (xs : list A) (acc : B) body :
  (forall b x, handles (body b x)) -> handles (fold_each (St:=St) xs acc body).
Proof.
  intros Hb. revert acc. induction xs as [|x xs IH]; intros acc; simpl.
  - apply catches_handles, catches_ret.
  - apply handles_bind; auto.
Qed.

Lemma handles_map_each {A B} (xs : list A) (f : A -> M St B) :
  (forall x, handles (f x)) -> handles (map_each xs f).
Proof.
  intros Hf. induction xs as [|x xs IH]; simpl.
  - apply catches_handles, catches_ret.
  - apply handles_bind; [auto|]. intros y. apply handles_bind; [auto|].
    intros ys. apply catches_handles, catches_ret.
Qed.

(** The two ways out of [try: ... except Exception as e: ...]. *)
Lemma catches_try_except {A} (body : M St A) handler :
  handles body -> (forall e, handler_for e (handler e)) ->
  catches (try_except body handler).
Proof.
  intros Hb Hh w. unfold try_except. destruct (Hb w) as (evs1 & T1 & F1).
  destruct (body w) as [[a|e] w1]; simpl in *.
  - by exists evs1, a.
  - destruct (Hh e w1) as (evs2 & a & E2 & T2 & F2). exists (evs1 ++ evs2), a.
    rewrite T2, T1, app_assoc. repeat split; auto. by eapply follows_app.
Qed.

(** The two [with] blocks: an exception on its way passes the
    roll-back and the closing of the file. *)
Lemma handles_with_conn {A} (body : nat -> M St A) :
  (forall c, handles (body c)) -> handles (with_conn sq body).
Proof.
  intros Hb. unfold with_conn. apply handles_bind.
  { unfold get_db_conn, sq_connect, sq_execute.
    repeat first [ apply handles_bind; [|intros ?] | apply handles_call
                 | apply catches_handles;
                   first [ apply catches_ret | apply catches_get_globals
                         | by apply catches_emit ] ]. }
  intros c w. destruct (Hb c w) as (evs1 & T1 & F1).
  destruct (body c w) as [[a|e] w1]; simpl in *.
  - assert (H : handles (bind (sq_commit sq c) (fun _ => ret a))).
    { unfold sq_commit.
      repeat first [ apply handles_bind; [|intros ?] | apply handles_call
                   | apply catches_handles;
                     first [ apply catches_ret | by apply catches_emit ] ]. }
    destruct (H w1) as (evs2 & T2 & F2). exists (evs1 ++ evs2).
    rewrite T2, T1, app_assoc. split; [done|]. by eapply follows_app.
  - exists (evs1 ++ [Rollback c]). unfold bind, sq_rollback, emit, call, reraise, bind.
    simpl. rewrite T1, app_assoc. split; [done|].
    eapply follows_app; [exact F1|]. apply follows_cleanup; [exact I|constructor].
Qed.

Lemma handles_with_open {A} file (body : M St A) :
  handles body -> handles (with_open sq file body).
Proof.
  intros Hb. unfold with_open. apply handles_bind; [apply handles_call|]. intros _.
  apply handles_bind; [by apply catches_handles, catches_emit|]. intros _ w.
  destruct (Hb w) as (evs1 & T1 & F1).
  destruct (body w) as [[a|e] w1]; simpl in *.
  - exists (evs1 ++ [CloseFile file]). rewrite T1, app_assoc. split; [done|].
    eapply follows_app; [exact F1|]. apply follows_other; [done|constructor].
  - exists (evs1 ++ [CloseFile file]). rewrite T1, app_assoc. split; [done|].
    eapply follows_app; [exact F1|]. apply follows_cleanup; [exact I|constructor].
Qed.

(** A step of a proof of [catches], [handles] or [handler_for]. *)
Ltac handles_step :=
  lazymatch goal with
  | |- catches (ret _) => apply catches_ret
  | |- catches (bind _ _) => apply catches_bind; [|intros ?]
  | |- catches (emit _) => by apply catches_emit
  | |- catches (try_except _ _) => apply catches_try_except; [|intros ?]
  | |- catches get_ui => apply catches_get_ui
  | |- catches get_globals => apply catches_get_globals
  | |- catches (modify_ui _) => apply catches_modify_ui
  | |- catches (_status _) => apply catches_modify_ui
  | |- catches (sq_total_changes _ _) => apply catches_sq_total_changes
  | |- catches (exists_current_db _) => apply catches_exists_current_db
  | |- handles (bind _ _) => apply handles_bind; [|intros ?]
  | |- handles (raise _) => apply handles_raise
  | |- handles (call _) => apply handles_call
  | |- handles (lift _) => apply handles_lift
  | |- handles (for_each _ _) => apply handles_for_each; intros ?
  | |- handles (fold_each _ _ _) => apply handles_fold_each; intros ? ?
  | |- handles (map_each _ _) => apply handles_map_each; intros ?
  | |- handles (with_conn _ _) => apply handles_with_conn; intros ?
  | |- handles (with_open _ _ _) => apply handles_with_open
  | |- _ (if ?b then _ else _) => destruct b
  | |- _ (match ?x with _ => _ end) => destruct x
  | |- handles (ret _) => apply catches_handles
  | |- handles (emit _) => apply catches_handles
  | |- handles (try_except _ _) => apply catches_handles
  | |- handles get_ui => apply catches_handles
  | |- handles get_globals => apply catches_handles
  | |- handles (modify_ui _) => apply catches_handles
  | |- handles (_status _) => apply catches_handles
  | |- handles (sq_total_changes _ _) => apply catches_handles
  | |- handles (exists_current_db _) => apply catches_handles
  end.

Ltac handles_op := repeat first [ progress cbv zeta | handles_step ].

Lemma handles_sq_execute c s : handles (sq_execute sq c s).
Proof. unfold sq_execute. handles_op. Qed.

Lemma handles_sq_executescript c s : handles (sq_executescript sq c s).
Proof. unfold sq_executescript. handles_op. Qed.

Lemma handles_sq_commit c : handles (sq_commit sq c).
Proof. unfold sq_commit. handles_op. Qed.

Lemma handles_row_values cols r : handles (row_values (St:=St) cols r).
Proof. unfold row_values. handles_op. Qed.

Lemma handles_description_names cur : handles (description_names (St:=St) cur).
Proof. unfold description_names. handles_op. Qed.

Lemma handles_render_grid g cols rows : handles (_render_grid (St:=St) g cols rows).
Proof.
  unfold _render_grid. apply handles_bind; [by apply catches_handles, catches_emit|].
  intros _. apply handles_bind; [apply catches_handles, catches_modify_ui|].
  intros _. apply handles_for_each. intros r.
  apply handles_bind; [apply handles_row_values|]. intros vals.
  apply catches_handles, catches_modify_ui.
Qed.

Lemma handles_writerow file fields : handles (writerow sq file fields).
Proof. unfold writerow. handles_op. Qed.

Ltac handles_more :=
  repeat first
    [ progress cbv zeta
    | apply handles_sq_execute | apply handles_sq_executescript
    | apply handles_sq_commit | apply handles_row_values
    | apply handles_description_names | apply handles_render_grid
    | apply handles_writerow
    | handles_step ].

Lemma handles_export_csv_try t file : handles (export_csv_try sq t file).
Proof. unfold export_csv_try. handles_more. Qed.

Lemma handles_first_pk pkinfo : handles (first_pk (St:=St) pkinfo).
Proof.
  induction pkinfo as [|c rest IH]; simpl; [apply catches_handles, catches_ret|].
  apply handles_bind; [apply handles_lift|]. intros pk.
  destruct (eq_int pk 1); [apply handles_lift|apply IH].
Qed.

Lemma handles_find_pk_col t cols : handles (find_pk_col sq t cols).
Proof. unfold find_pk_col. repeat first [ apply handles_first_pk | progress handles_more ]. Qed.

Lemma handles_build_er_diagram : handles (build_er_diagram sq).
Proof. unfold build_er_diagram, decode_column, decode_fk. handles_more. Qed.

Lemma handles_show_result cols rows : handles (show_result (St:=St) cols rows).
Proof. unfold show_result. handles_more. Qed.

Lemma handles_run_sql_execute conn sql : handles (run_sql_execute sq conn sql).
Proof. unfold run_sql_execute, run_statement. handles_more. Qed.

End Handling.

(** *** The CSV export *)

Lemma row_values_ok cols r : forall (w : world St) vals w',
  row_values cols r w = (Ok vals, w') -> w' = w /\ lookup_all r cols = Ok vals.
Proof.
  unfold row_values.
  induction cols as [|c cols IH]; simpl; intros w vals w' H.
  - by injection H as <- <-.
  - apply bind_ok_inv in H as (v & w1 & Hv & H).
    apply bind_ok_inv in H as (vs & w2 & Hvs & H).
    injection H as <- <-. apply IH in Hvs as [-> Hvs]. rewrite Hvs.
    unfold lift in Hv. destruct (getitem r c) as [v'|e]; [|discriminate].
    by injection Hv as <- <-.
Qed.

(** In a row that has a value for every column, a column whose name
    is not repeated before it is found by its name. *)
Lemma lookup_key_at ks : forall vs (i : nat) c v,
  NoDup (map lower ks) -> ks !! i = Some c -> vs !! i = Some v ->
  lookup_key ks vs c = Ok v.
Proof.
  induction ks as [|k ks IH]; intros vs i c v Hnd Hk Hv; [done|].
  destruct vs as [|v0 vs]; [by destruct i|].
  simpl in Hnd. apply NoDup_cons in Hnd as [Hk0 Hnd]. simpl.
  destruct i as [|i]; simpl in *.
  - injection Hk as ->. injection Hv as ->. by rewrite String.eqb_refl.
  - destruct (String.eqb_spec (lower k) (lower c)) as [Heq|_]; [|by eapply IH].
    exfalso. apply Hk0. rewrite Heq. apply list_elem_of_fmap_2.
    by eapply list_elem_of_lookup_2.
Qed.

Lemma lookup_all_values ks vs :
  NoDup (map lower ks) -> length vs = length ks ->
  lookup_all (MkRow ks vs) ks = Ok vs.
Proof.
  intros Hnd Hlen.
  assert (H : forall cs ws, length cs = length ws ->
            (forall (i : nat) c w, cs !! i = Some c -> ws !! i = Some w ->
                          lookup_key ks vs c = Ok w) ->
            lookup_all (MkRow ks vs) cs = Ok ws).
  { induction cs as [|c cs IH]; intros [|w ws] Hl Hall; try discriminate; [done|].
    simpl. unfold getitem. simpl. rewrite (Hall 0%nat c w eq_refl eq_refl).
    rewrite (IH ws); [done|by injection Hl|].
    intros i c' w' Hc Hw. by apply (Hall (S i)). }
  apply H; [done|]. intros i c w Hc Hw. by eapply lookup_key_at.
Qed.

(** The loop that writes the records, when it ends normally. *)
Lemma write_rows_ok file cols rows : forall w w',
  for_each rows (fun r => let* vals := row_values cols r in writerow sq file vals) w
    = (Ok tt, w') ->
  exists written,
    Forall2 (fun r vals => lookup_all r cols = Ok vals) rows written
    /\ trace w' = trace w ++ map (fun vals => WriteFile file (csv_row ";" vals)) written
    /\ ui w' = ui w.
Proof.
  induction rows as [|r rows IH]; simpl; intros w w' H.
  - injection H as <-. exists []. rewrite app_nil_r. by repeat split.
  - apply bind_ok_inv in H as ([] & w1 & Hr & H).
    apply bind_ok_inv in Hr as (vals & w0 & Hv & Hw).
    apply row_values_ok in Hv as [-> Hv].
    unfold writerow in Hw. cbv zeta in Hw.
    apply bind_ok_inv in Hw as ([] & w0 & Hc & He).
    unfold call in Hc. destruct (write sq file _ (env w)) as [[[]|e] st]; [|discriminate].
    injection Hc as <-. unfold emit in He. injection He as <-. simpl in *.
    apply IH in H as (written & Hall & T & U). exists (vals :: written).
    simpl in *. rewrite T, <- app_assoc. repeat split; auto.
Qed.

Lemma rows_of_well_formed cur cols :
  description cur = Some cols -> NoDup (map lower cols) ->
  Forall (fun vs => length vs = length cols) (fetchall cur) ->
  forall written,
    Forall2 (fun r vals => lookup_all r cols = Ok vals) (rows_of cur) written ->
    written = fetchall cur.
Proof.
  intros Hd Hnd Hlen. unfold rows_of. rewrite Hd. simpl.
  induction (fetchall cur) as [|vs rows IH]; intros written H; simpl in H.
  - by apply Forall2_nil_inv_l in H.
  - apply Forall2_cons_inv_l in H as (vals & written' & Hv & H & ->).
    apply Forall_cons in Hlen as [Hl Hlen]. rewrite lookup_all_values in Hv by done.
    injection Hv as <-. f_equal. by apply IH.
Qed.

(** When the [try] block of the export ends normally. *)
Lemma export_csv_try_ok t file w w' :
  export_csv_try sq t file w = (Ok tt, w') ->
  exists conn cur0 cur st1 st2 st3 cols written,
    connect sq (DbName.CURRENT_DB (globals w)) (env w) = (Ok conn, st1)
    /\ execute sq conn PragmaForeignKeysOn st1 = (Ok cur0, st2)
    /\ execute sq conn (SelectAllFrom t "") st2 = (Ok cur, st3)
    /\ description cur = Some cols
    /\ Forall2 (fun r vals => lookup_all r cols = Ok vals) (rows_of cur) written
    /\ trace w' = trace w
         ++ [Connect conn; Execute conn PragmaForeignKeysOn;
             Execute conn (SelectAllFrom t ""); Commit conn; OpenFile file "utf-8"]
         ++ map (fun vals => WriteFile file (csv_row ";" vals)) (map VStr cols :: written)
         ++ [CloseFile file].
Proof.
  unfold export_csv_try. intros H.
  apply bind_ok_inv in H as ([cols rows] & w1 & Hconn & H).
  rewrite with_conn_eq, get_db_conn_eq in Hconn.
  destruct (connect sq _ (env w)) as [[conn|e] st1] eqn:Hc; [|discriminate].
  destruct (execute sq conn PragmaForeignKeysOn st1) as [[cur0|e] st2] eqn:Hp; [|discriminate].
  unfold bind at 1 in Hconn. rewrite sq_execute_eq in Hconn. simpl in Hconn.
  destruct (execute sq conn (SelectAllFrom t "") st2) as [[cur|e] st3] eqn:Hs;
    [|discriminate].
  unfold bind at 1 in Hconn. unfold description_names in Hconn.
  destruct (description cur) as [d|] eqn:Hd; [|discriminate].
  unfold ret at 1 in Hconn. unfold ret at 1 in Hconn. rewrite sq_commit_eq in Hconn.
  simpl in Hconn.
  destruct (commit sq conn st3) as [[[]|e] st4]; [|discriminate].
  injection Hconn as <- <- <-.
  apply bind_ok_inv in H as ([] & w2 & Hopen & Hst).
  unfold _status, modify_ui in Hst. injection Hst as <-. simpl.
  unfold with_open in Hopen.
  apply bind_ok_inv in Hopen as ([] & w3 & Ho & Hopen).
  unfold call in Ho. simpl in Ho.
  destruct (open_w sq file st4) as [[[]|e] st5]; [|discriminate].
  injection Ho as <-.
  apply bind_ok_inv in Hopen as ([] & w4 & He & Hbody).
  unfold emit in He. injection He as <-. simpl in Hbody.
  match type of Hbody with
  | context [bind (writerow sq file ?h) ?k ?w0] =>
      destruct (bind (writerow sq file h) k w0) as [[[]|e] w5] eqn:Hw
  end; [|discriminate].
  unfold bind at 1, emit, ret in Hbody. simpl in Hbody. injection Hbody as <-. simpl.
  apply bind_ok_inv in Hw as ([] & w6 & Hhead & Hrows).
  unfold writerow in Hhead. cbv zeta in Hhead.
  apply bind_ok_inv in Hhead as ([] & w7 & Hcw & Hew).
  unfold call in Hcw. simpl in Hcw.
  destruct (write sq file _ st5) as [[[]|e] st6]; [|discriminate].
  injection Hcw as <-. unfold emit in Hew. injection Hew as <-.
  apply write_rows_ok in Hrows as (written & Hall & T & _). simpl in T.
  exists conn, cur0, cur, st1, st2, st3, d, written.
  repeat split; auto. rewrite T. simpl. rewrite <- !app_assoc. reflexivity.
Qed.

(** A record whose fields hold no delimiter, quote, carriage return or
    line feed is written as its fields with [;] between them. *)
Lemma csv_row_plain (fields : list value) :
  Forall (fun v => any_char (csv_special ";") (csv_field v) = false) fields ->
  map csv_field fields <> [""] ->
  csv_row ";" fields = join ";" (map csv_field fields) +:+ String "013" nl.
Proof.
  intros Hplain Hne. unfold csv_row.
  assert (Hq : map (csv_quote ";") (map csv_field fields) = map csv_field fields).
  { clear Hne. induction Hplain as [|v vs Hv _ IH]; [done|]. cbn [map].
    unfold csv_quote at 1. by rewrite Hv, IH. }
  revert Hne Hq. generalize (map csv_field fields) as texts.
  intros [|[|c s0] [|t0 ts]] Hne Hq; try done; cbv iota; by rewrite Hq.
Qed.

(** C6: when the export of the browsed table ends without an error
    dialog, the file was opened for writing in UTF-8 and received,
    through a writer with [;] as delimiter, first the column names that
    the database answered for [SELECT * FROM t], in their order, then
    one record per row of the answer, in its order, each with the values
    of the row in column order; then it was closed.  (The answer has one
    value per column in every row and no column name twice, as for any
    table.) *)
Theorem export_csv_file (w : world St) (file : string) (evs : list event)
    (conn : nat) (cur0 cur : cursor) (st1 st2 st3 : St) (cols : list string) :
  let t := strip (cmb_tables (ui w)) in
  t <> "" -> file <> "" ->
  connect sq (DbName.CURRENT_DB (globals w)) (env w) = (Ok conn, st1) ->
  execute sq conn PragmaForeignKeysOn st1 = (Ok cur0, st2) ->
  execute sq conn (SelectAllFrom t "") st2 = (Ok cur, st3) ->
  description cur = Some cols ->
  NoDup (map lower cols) ->
  Forall (fun vs => length vs = length cols) (fetchall cur) ->
  trace (export_csv_current sq file w).2 = trace w ++ evs ->
  (forall title message, MessageBox Error title message ∉ evs) ->
  evs = [Connect conn; Execute conn PragmaForeignKeysOn;
         Execute conn (SelectAllFrom t ""); Commit conn; OpenFile file "utf-8"]
        ++ map (fun fields => WriteFile file (csv_row ";" fields))
             (map VStr cols :: fetchall cur)
        ++ [CloseFile file].
Proof.
  intros t Ht Hfile Hc Hp Hs Hd Hnd Hlen Htrace Hquiet.
  unfold export_csv_current in Htrace. rewrite bind_get_ui in Htrace.
  cbv zeta in Htrace. fold t in Htrace.
  apply String.eqb_neq in Ht, Hfile. rewrite Ht, Hfile in Htrace.
  destruct (export_csv_try sq t file w) as [[[]|e] w1] eqn:Htry.
  - rewrite (try_except_ok _ _ _ _ _ Htry) in Htrace. simpl in Htrace.
    apply export_csv_try_ok in Htry
      as (conn' & cur0' & cur' & st1' & st2' & st3' & cols' & written
          & Hc' & Hp' & Hs' & Hd' & Hall & T).
    rewrite Hc in Hc'. injection Hc' as <- <-.
    rewrite Hp in Hp'. injection Hp' as <- <-.
    rewrite Hs in Hs'. injection Hs' as <- <-.
    rewrite Hd in Hd'. injection Hd' as <-.
    apply (rows_of_well_formed cur cols Hd Hnd Hlen) in Hall as ->.
    rewrite T in Htrace. by apply app_inv_head in Htrace.
  - exfalso. rewrite (try_except_raise _ _ _ _ _ Htry) in Htrace.
    destruct (emits_export_csv_try (fun _ => True)) with (t := t) (file := file) (w := w)
      as (evs1 & T1 & _); auto.
    rewrite Htry in T1. simpl in T1, Htrace. rewrite T1, <- app_assoc in Htrace.
    apply app_inv_head in Htrace as <-.
    eapply Hquiet. apply elem_of_app. right. apply list_elem_of_here.
Qed.

(** *** The SQL editor *)

Lemma run_statement_eq conn acc stmt w :
  run_statement sq conn acc stmt w =
    match execute sq conn (Statement stmt) (env w) with
    | (Ok cur, st) =>
        (Ok (loop_state acc
               [RunEntry stmt cur (total_changes sq conn (env w)) (total_changes sq conn st)]),
         World st (globals w) (ui w) (trace w ++ [Execute conn (Statement stmt)]))
    | (Raise e, st) =>
        (Raise e, World st (globals w) (ui w)
                    (trace w ++ [Execute conn (Statement stmt); Raised e]))
    end.
Proof.
  destruct acc as [[out_cols out_rows] affected_total].
  unfold run_statement, loop_state. simpl. fold (is_query stmt).
  destruct (is_query stmt).
  - unfold bind. rewrite sq_execute_eq.
    destruct (execute sq conn (Statement stmt) (env w)) as [[cur|e] st]; [|done].
    unfold ret, row_set. simpl. by rewrite Z.add_0_r.
  - unfold bind, sq_total_changes. rewrite sq_execute_eq. simpl.
    destruct (execute sq conn (Statement stmt) (env w)) as [[cur|e] st]; [|done].
    unfold ret. simpl. by rewrite Z.add_0_r.
Qed.

Lemma loop_state_cons acc en log :
  loop_state (loop_state acc [en]) log = loop_state acc (en :: log).
Proof.
  destruct acc as [[out_cols out_rows] affected_total]. unfold loop_state. simpl.
  destruct (is_query (r_stmt en)); simpl;
    destruct (last_query log); simpl; f_equal; lia.
Qed.

(** The loop of [run_sql] runs the statements as [engine_run] does. *)
Lemma statement_loop_ok conn stmts : forall acc w acc' w',
  fold_each stmts acc (run_statement sq conn) w = (Ok acc', w') ->
  exists log,
    engine_run conn stmts (env w) = (Ok log, env w')
    /\ map r_stmt log = stmts
    /\ acc' = loop_state acc log
    /\ trace w' = trace w ++ map (fun s => Execute conn (Statement s)) stmts
    /\ globals w' = globals w /\ ui w' = ui w.
Proof.
  induction stmts as [|s stmts IH]; intros acc w acc' w' H; simpl in H.
  - injection H as <- <-. exists []. rewrite app_nil_r. repeat split.
    destruct acc as [[? ?] ?]. simpl. f_equal. lia.
  - apply bind_ok_inv in H as (acc1 & w1 & H1 & H).
    rewrite run_statement_eq in H1.
    destruct (execute sq conn (Statement s) (env w)) as [[cur|e] st] eqn:He;
      [|discriminate].
    injection H1 as <- <-.
    apply IH in H as (log & Hrun & Hs & Hacc & T & G & U). simpl in *.
    exists (RunEntry s cur (total_changes sq conn (env w)) (total_changes sq conn st) :: log).
    repeat split; auto.
    + simpl. by rewrite He, Hrun.
    + simpl. by rewrite Hs.
    + by rewrite Hacc, loop_state_cons.
    + by rewrite T, <- app_assoc.
Qed.

Lemma shown_result_loop_state log :
  match loop_state ([], [], 0) log with
  | ([], _, affected_total) =>
      shown_result log = (["Info"], [info_row affected_total])
  | (out_cols, out_rows, _) => shown_result log = (out_cols, out_rows)
  end.
Proof.
  unfold loop_state, shown_result, info_result.
  destruct (last_query log) as [q|]; [|done].
  destruct (row_set q) as [[|c cols] rows]; done.
Qed.

(** What the result grid shows for the [Info] line, *)
Lemma show_result_info n (w : world St) :
  show_result ["Info"] [info_row n] w =
    (Ok tt,
     World (env w) (globals w)
       (set_result (Grid ["Info"] [[VStr ("OK. Geänderte Zeilen: " +:+ pretty n)]] [])
          (ui w))
       (trace w)).
Proof. by destruct w as [st g [] tr]. Qed.

Lemma row_values_lookup_all cols r (w : world St) : forall vals,
  lookup_all r cols = Ok vals -> row_values cols r w = (Ok vals, w).
Proof.
  unfold row_values.
  induction cols as [|c cols IH]; simpl; intros vals H.
  - by injection H as <-.
  - destruct (getitem r c) as [v|e]; [|discriminate].
    destruct (lookup_all r cols) as [vs|e]; [|discriminate].
    injection H as <-. unfold bind at 1.
    change (lift (Ok v) w) with (Ok v, w). cbv iota beta.
    unfold bind at 1. by rewrite (IH vs eq_refl).
Qed.

Lemma show_rows_loop cols (shown : Row -> list value) rows : forall (w : world St),
  Forall (fun r => lookup_all r cols = Ok (shown r)) rows ->
  for_each (map FromRow rows) (fun r =>
    let* vals :=
      match r with
      | FromDict d => ret (map (dict_get d) cols)
      | FromRow r => row_values cols r
      end in
    modify_ui (fun u => set_result (insert_item vals (result u)) u)) w
  = (Ok tt,
     World (env w) (globals w)
       (set_result (Grid (columns (result (ui w)))
                      (items (result (ui w)) ++ map shown rows)
                      (selection (result (ui w)))) (ui w))
       (trace w)).
Proof.
  induction rows as [|r rows IH]; intros w Hall; simpl.
  - rewrite app_nil_r. by destruct w as [st g [? ? ? ? ? [] ? ? ? ? ? ? ? ?] tr].
  - apply Forall_cons in Hall as [Hr Hall].
    unfold bind at 1. unfold bind at 1.
    rewrite (row_values_lookup_all _ _ _ _ Hr). unfold modify_ui at 1.
    rewrite IH by assumption. simpl.
    destruct w as [st g [? ? ? ? ? [] ? ? ? ? ? ? ? ?] tr]. simpl.
    by rewrite <- app_assoc.
Qed.

(** and what it shows for a row set: each row by the values found
    under its column names. *)
Lemma show_result_rows c cols (shown : Row -> list value) rows (w : world St) :
  Forall (fun r => lookup_all r (c :: cols) = Ok (shown r)) rows ->
  show_result (c :: cols) (map FromRow rows) w =
    (Ok tt,
     World (env w) (globals w)
       (set_result (Grid (c :: cols) (map shown rows) []) (ui w))
       (trace w)).
Proof.
  intros Hall. unfold show_result. unfold bind at 1. unfold modify_ui at 1.
  unfold bind at 1. unfold modify_ui at 1.
  rewrite (show_rows_loop _ shown) by assumption.
  by destruct w as [st g [] tr].
Qed.

(** *** Deleting the selected row *)

Lemma first_pk_eq pkinfo (w : world St) :
  Forall has_pk_and_name pkinfo ->
  first_pk pkinfo w = (Ok (stated_pk pkinfo), w).
Proof.
  intros Hwf. unfold stated_pk.
  induction Hwf as [|c rest [[pk Hpk] [name Hname]] _ IH]; [done|].
  simpl. unfold pk_is_1. rewrite Hpk. unfold bind at 1. unfold lift at 1, ret at 1.
  destruct (eq_int pk 1); [|exact IH]. by rewrite Hname.
Qed.

Lemma key_used_after t cols vals key evs0 evs :
  Forall (fun ev => ~ is_delete ev) evs0 ->
  key_used t cols vals key evs -> key_used t cols vals key (evs0 ++ evs).
Proof.
  intros H0 [H1 H2]. split.
  - intros c t' k v [Hin|Hin]%elem_of_app; [|by apply H1 in Hin].
    rewrite Forall_forall in H0. by apply H0 in Hin.
  - intros Hq. destruct H2 as (c & i & v & Hi & Hv & He & Hc).
    { intros title message Hin. eapply Hq, elem_of_app. by right. }
    exists c, i, v. rewrite !elem_of_app. auto.
Qed.

Lemma bind_ret_eq {A B} (a : A) (f : A -> M St B) : bind (ret a) f = f a.
Proof. reflexivity. Qed.

Lemma bind_raise_eq {A B} e (f : A -> M St B) : bind (raise e) f = raise e.
Proof. reflexivity. Qed.

Lemma delete_event_other t key v ev :
  ~ is_lookup ev -> ~ is_warning ev -> ~ is_delete ev -> delete_event t key v ev.
Proof. intros H1 H2 H3. by repeat split. Qed.

Lemma delete_and_reload_body_events t key v :
  emits_only (delete_event t key v) (delete_and_reload t key v).
Proof.
  unfold delete_and_reload. apply emits_bind; [|intros _; apply emits_bind].
  - apply emits_with_conn; try (intros; apply delete_event_other; simpl; tauto).
    intros c. apply emits_bind.
    + apply emits_sq_execute; [intros; apply delete_event_other; simpl; tauto|].
      repeat split; simpl; try tauto. intros _. by exists c.
    + intros _. apply emits_sq_commit; intros; apply delete_event_other; simpl; tauto.
  - apply emits_load_table_rows; intros; apply delete_event_other; simpl; tauto.
  - intros _. apply emits_status.
Qed.

Lemma delete_and_reload_events t key v :
  emits_only (delete_event t key v)
    (try_except (delete_and_reload t key v) delete_handler).
Proof.
  apply emits_try_except.
  - apply delete_and_reload_body_events.
  - intros e. apply emits_emit. apply delete_event_other; simpl; tauto.
Qed.

Lemma delete_and_reload_ok t key v w w' :
  delete_and_reload t key v w = (Ok tt, w') ->
  exists c evs,
    trace w' = trace w ++ evs
    /\ Execute c (DeleteWhere t (str key) v) ∈ evs /\ Commit c ∈ evs.
Proof.
  unfold delete_and_reload. intros H.
  apply bind_ok_inv in H as ([] & w1 & Hconn & H).
  apply bind_ok_inv in H as ([] & w2 & Hload & H).
  unfold _status, modify_ui in H. injection H as <-. simpl.
  rewrite with_conn_eq, get_db_conn_eq in Hconn.
  destruct (connect sq _ (env w)) as [[c|e] st1]; [|discriminate].
  destruct (execute sq c PragmaForeignKeysOn st1) as [[cur0|e] st2]; [|discriminate].
  unfold bind at 1 in Hconn. rewrite sq_execute_eq in Hconn. simpl in Hconn.
  destruct (execute sq c (DeleteWhere _ _ _) st2) as [[cur|e] st3]; [|discriminate].
  rewrite sq_commit_eq in Hconn. simpl in Hconn.
  destruct (commit sq c st3) as [[[]|e] st4]; simpl in Hconn; [|discriminate].
  rewrite sq_commit_eq in Hconn. simpl in Hconn.
  destruct (commit sq c st4) as [[[]|e] st5]; simpl in Hconn; [|discriminate].
  destruct (emits_load_table_rows (fun _ => True)) with (w := w1)
    as (evs2 & T2 & _); auto.
  rewrite Hload in T2. simpl in T2. injection Hconn as <-. simpl in T2.
  exists c. eexists. rewrite T2, <- !app_assoc. split; [reflexivity|].
  simpl. split; repeat first [apply list_elem_of_here|apply list_elem_of_further].
Qed.

(** From the [try] on, the key is used as [key_used] says. *)
Lemma delete_try_key_used t cols vals key (w : world St) :
  exists evs,
    trace (try_except (delete_try sq t cols vals key) delete_handler w).2 = trace w ++ evs
    /\ Forall (fun ev => ~ is_lookup ev /\ ~ is_warning ev) evs
    /\ key_used t cols vals key evs.
Proof.
  unfold delete_try.
  destruct (index_of cols key) as [i|] eqn:Hi.
  2:{ rewrite bind_raise_eq. eexists [_; _].
      split; [unfold try_except, raise, delete_handler, showerror, emit; simpl;
              rewrite <- app_assoc; reflexivity|].
      split.
      - repeat constructor; simpl; tauto.
      - split.
        + intros c t' k v Hin. repeat (apply elem_of_cons in Hin as [Hin|Hin]; try discriminate).
          by apply elem_of_nil in Hin.
        + intros Hq. exfalso. eapply Hq. apply list_elem_of_further, list_elem_of_here. }
  rewrite bind_ret_eq.
  destruct (vals !! i) as [v|] eqn:Hv.
  2:{ rewrite bind_raise_eq. eexists [_; _].
      split; [unfold try_except, raise, delete_handler, showerror, emit; simpl;
              rewrite <- app_assoc; reflexivity|].
      split.
      - repeat constructor; simpl; tauto.
      - split.
        + intros c t' k v Hin. repeat (apply elem_of_cons in Hin as [Hin|Hin]; try discriminate).
          by apply elem_of_nil in Hin.
        + intros Hq. exfalso. eapply Hq. apply list_elem_of_further, list_elem_of_here. }
  rewrite bind_ret_eq. fold (delete_and_reload t key v).
  destruct (delete_and_reload_events t key v w) as (evs & T & HS).
  exists evs. split; [exact T|]. split.
  { eapply Forall_impl; [exact HS|]. unfold delete_event. tauto. }
  split.
  - intros c t' k v' Hin. rewrite Forall_forall in HS.
    destruct (HS _ Hin) as (_ & _ & Hd). destruct (Hd I) as (c' & [= -> -> -> ->]).
    eauto.
  - intros Hq.
    destruct (delete_and_reload t key v w) as [[[]|e] w1] eqn:Hrun.
    + rewrite (try_except_ok _ _ _ _ _ Hrun) in T. simpl in T.
      apply delete_and_reload_ok in Hrun as (c & evs' & T' & He & Hc).
      rewrite T' in T. apply app_inv_head in T as <-. eauto 10.
    + exfalso. rewrite (try_except_raise _ _ _ _ _ Hrun) in T. simpl in T.
      destruct (delete_and_reload_body_events t key v w) as (evs1 & T1 & _).
      rewrite Hrun in T1. simpl in T1. rewrite T1, <- app_assoc in T.
      apply app_inv_head in T as <-.
      eapply Hq. apply elem_of_app. right. apply list_elem_of_here.
Qed.

Lemma has_id_In cols : existsb (String.eqb "id") cols = true <-> In "id" cols.
Proof.
  rewrite existsb_exists. split.
  - intros (x & Hin & Heq). apply String.eqb_eq in Heq. by subst.
  - intros Hin. exists "id". by rewrite String.eqb_refl.
Qed.

(** The key lookup, when the database answers it. *)
Lemma find_pk_col_answered t cols w conn cur0 pk_cur st1 st2 st3 st4 :
  existsb (String.eqb "id") cols = false ->
  connect sq (DbName.CURRENT_DB (globals w)) (env w) = (Ok conn, st1) ->
  execute sq conn PragmaForeignKeysOn st1 = (Ok cur0, st2) ->
  execute sq conn (PragmaTableInfo t) st2 = (Ok pk_cur, st3) ->
  commit sq conn st3 = (Ok tt, st4) ->
  Forall has_pk_and_name (rows_of pk_cur) ->
  find_pk_col sq t cols w =
    (Ok (stated_pk (rows_of pk_cur)),
     World st4 (globals w) (ui w)
       (trace w ++ [Connect conn; Execute conn PragmaForeignKeysOn;
                    Execute conn (PragmaTableInfo t); Commit conn])).
Proof.
  intros Hid Hc Hp Hi Hm Hwf. unfold find_pk_col. rewrite Hid.
  unfold bind at 1. rewrite with_conn_eq, get_db_conn_eq, Hc, Hp.
  unfold bind at 1. rewrite sq_execute_eq. simpl. rewrite Hi.
  unfold ret at 1. rewrite sq_commit_eq. simpl. rewrite Hm.
  rewrite first_pk_eq by assumption. by rewrite <- !app_assoc.
Qed.

(** C10, amended.  With a table and a row selected:
    - when the grid has a column named [id], the database is not asked
      for the table's columns and [id] is the key, whether or not it
      is the primary key;
    - otherwise the key is the [name] of the first row of
      [PRAGMA table_info(t)] whose [pk] is 1, and when there is none
      the operation shows the warning and executes nothing else;
    - with a key, every [DELETE] executed is
      [DELETE FROM t WHERE key = ?] bound to the value of the selected
      row in the key column, and unless an error dialog is shown it is
      executed and committed. *)
Theorem delete_selected_row_key (w : world St) (t : string) (sel0 : nat) (sel : list nat) :
  strip (cmb_tables (ui w)) = t -> t <> "" ->
  selection (grid_browse (ui w)) = sel0 :: sel ->
  let cols := columns (grid_browse (ui w)) in
  let vals := default [] (items (grid_browse (ui w)) !! sel0) in
  exists evs,
    trace (delete_selected_row sq w).2 = trace w ++ evs
    /\ (In "id" cols ->
        Forall (fun ev => ~ is_lookup ev /\ ~ is_warning ev) evs
        /\ key_used t cols vals (VStr "id") evs)
    /\ (~ In "id" cols ->
        forall conn cur0 pk_cur st1 st2 st3 st4,
          connect sq (DbName.CURRENT_DB (globals w)) (env w) = (Ok conn, st1) ->
          execute sq conn PragmaForeignKeysOn st1 = (Ok cur0, st2) ->
          execute sq conn (PragmaTableInfo t) st2 = (Ok pk_cur, st3) ->
          commit sq conn st3 = (Ok tt, st4) ->
          Forall has_pk_and_name (rows_of pk_cur) ->
          let key := stated_pk (rows_of pk_cur) in
          let lookup := [Connect conn; Execute conn PragmaForeignKeysOn;
                         Execute conn (PragmaTableInfo t); Commit conn] in
          (truthy key = false ->
             evs = lookup ++ [MessageBox Warning APP_TITLE
                                "Keine PK-Spalte gefunden (z. B. 'id')."])
          /\ (truthy key = true ->
              exists evs',
                evs = lookup ++ evs'
                /\ Forall (fun ev => ~ is_lookup ev /\ ~ is_warning ev) evs'
                /\ key_used t cols vals key evs')).
Proof.
  intros Ht Hne Hsel cols vals.
  assert (Hrun : delete_selected_row sq w =
            (let* pk_col := find_pk_col sq t cols in
             if negb (truthy pk_col) then
               showwarning APP_TITLE "Keine PK-Spalte gefunden (z. B. 'id')."
             else try_except (delete_try sq t cols vals pk_col) delete_handler) w).
  { unfold delete_selected_row. rewrite bind_get_ui. cbv zeta. rewrite Ht.
    apply String.eqb_neq in Hne. rewrite Hne, Hsel. reflexivity. }
  rewrite Hrun. clear Hrun.
  destruct (existsb (String.eqb "id") cols) eqn:Hid.
  - unfold find_pk_col. rewrite Hid, bind_ret. simpl negb. cbv iota.
    destruct (delete_try_key_used t cols vals (VStr "id") w) as (evs & T & HS & HK).
    exists evs. split; [exact T|]. split; [auto|].
    intros Hno. apply has_id_In in Hid. contradiction.
  - destruct (emits_delete_selected_row (fun _ => True)) with (w := w)
      as (evs & T & _); auto.
    assert (Hrun : delete_selected_row sq w =
              (let* pk_col := find_pk_col sq t cols in
               if negb (truthy pk_col) then
                 showwarning APP_TITLE "Keine PK-Spalte gefunden (z. B. 'id')."
               else try_except (delete_try sq t cols vals pk_col) delete_handler) w).
    { unfold delete_selected_row. rewrite bind_get_ui. cbv zeta. rewrite Ht.
      apply String.eqb_neq in Hne. rewrite Hne, Hsel. reflexivity. }
    rewrite Hrun in T. clear Hrun.
    exists evs. split; [exact T|]. split.
    { intros Hin. apply has_id_In in Hin. congruence. }
    intros _ conn cur0 pk_cur st1 st2 st3 st4 Hc Hp Hi Hm Hwf key lookup.
    unfold bind at 1 in T.
    rewrite (find_pk_col_answered t cols w conn cur0 pk_cur st1 st2 st3 st4) in T
      by assumption.
    fold key in T. split.
    + intros Hk. rewrite Hk in T. simpl in T. rewrite <- app_assoc in T.
      by apply app_inv_head in T.
    + intros Hk. rewrite Hk in T. change (negb true) with false in T. cbv iota in T.
      match type of T with
      | context [try_except _ _ ?w1] =>
          destruct (delete_try_key_used t cols vals key w1) as (evs' & T' & HS & HK)
      end.
      rewrite T' in T. simpl in T. rewrite <- app_assoc in T.
      apply app_inv_head in T as <-. exists evs'.
      split; [reflexivity|]. split; assumption.
Qed.

(** No operation closes a connection: among the events of any of the
    eight operations there is no [Close]. *)
Lemma no_operation_closes (w : world St) (op : operation) :
  exists evs,
    trace (perform sq op w).2 = trace w ++ evs
    /\ Forall (fun ev => ~ is_close ev) evs.
Proof. apply emits_perform; simpl; auto. Qed.

End TraceFacts.

(** ** The operations on the example database *)
Section ExampleFacts.
Import PyStr Gui Trace RefDb Examples.

(** C8, at a concrete input: loading the rows of [kunden] opens
    connection 0, runs the pragma and the query, and commits; no
    [close] follows, on the successful path and on the failing one
    (a filter the database rejects), and the operation returns. *)
Theorem load_table_rows_leaves_connection_open :
  let ok := load_table_rows engine (with_ui (set_cmb_tables "kunden") shop_world) in
  let failing :=
    load_table_rows engine
      (with_ui (set_ent_filter "name = ") (with_ui (set_cmb_tables "kunden") shop_world)) in
  ok.1 = Ok tt
  /\ trace ok.2 =
       [ Connect 0; Execute 0 PragmaForeignKeysOn;
         Execute 0 (SelectAllFrom "kunden" ""); Commit 0;
         GridReset GridBrowse ["kunden_id"; "name"] ]
  /\ failing.1 = Ok tt
  /\ trace failing.2 =
       [ Connect 0; Execute 0 PragmaForeignKeysOn;
         Execute 0 (SelectAllFrom "kunden" "name =");
         Raised (Exn "sqlite3.OperationalError" "near 'name =': syntax error");
         Rollback 0;
         MessageBox Error APP_TITLE
           ("Fehler beim Laden:" +:+ nl +:+ "near 'name =': syntax error") ]
  /\ (Close 0 ∉ trace (snd ok)) /\ (Close 0 ∉ trace (snd failing)).
Proof.
  vm_compute. repeat split; try reflexivity.
  - intros H. repeat (apply elem_of_cons in H as [H|H]; [discriminate H|]).
    by apply elem_of_nil in H.
  - intros H. repeat (apply elem_of_cons in H as [H|H]; [discriminate H|]).
    by apply elem_of_nil in H.
Qed.

(** C7, as stated, fails: without a table [items], [reload_items]
    fails on its query, and the failure is answered by the empty item
    grid, with no message. *)
Lemma reload_items_failure_is_silent :
  let r := reload_items engine shop_world in
  r.1 = Ok tt
  /\ trace r.2 =
       [ Connect 0; Execute 0 PragmaForeignKeysOn; Execute 0 SelectItems;
         Raised (Exn "sqlite3.OperationalError" "no such table: items");
         Rollback 0; GridReset GridItems [] ]
  /\ grid_items (ui r.2) = empty_grid
  /\ ~ (forall e, Raised e ∈ trace r.2 ->
          exists i t m, MessageBox i t m ∈ trace r.2).
Proof.
  vm_compute. repeat split; try reflexivity.
  intros H.
  destruct (H (Exn "sqlite3.OperationalError" "no such table: items"))
    as (i & t & m & Hin).
  - do 3 apply list_elem_of_further. apply list_elem_of_here.
  - repeat (apply elem_of_cons in Hin as [Hin|Hin]; [discriminate Hin|]).
    by apply elem_of_nil in Hin.
Qed.

(** *** Exporting [kunden] *)

Example export_kunden_file :
  files (env (export_csv_current engine "out.csv" export_world).2)
    = [("out.csv",
        "kunden_id;name" +:+ String "013" nl
        +:+ "1;Alice" +:+ String "013" nl
        +:+ "2;Bob" +:+ String "013" nl)].
Proof. vm_compute. reflexivity. Qed.

Lemma export_csv_file_witness :
  trace (export_csv_current engine "out.csv" export_world).2
  = [ Connect 1; Execute 1 PragmaForeignKeysOn;
      Execute 1 (SelectAllFrom "kunden" ""); Commit 1; OpenFile "out.csv" "utf-8" ]
    ++ map (fun fields => WriteFile "out.csv" (csv_row ";" fields))
         (map VStr ["kunden_id"; "name"]
            :: [ [VInt 1; VStr "Alice"]; [VInt 2; VStr "Bob"] ])
    ++ [CloseFile "out.csv"].
Proof.
  apply (export_csv_file engine export_world "out.csv"
           (trace (export_csv_current engine "out.csv" export_world).2)
           1 (Cursor None [])
           (Cursor (Some ["kunden_id"; "name"])
              [ [VInt 1; VStr "Alice"]; [VInt 2; VStr "Bob"] ])
           (connect engine (DbName.CURRENT_DB (globals export_world)) (env export_world)).2
           (connect engine (DbName.CURRENT_DB (globals export_world)) (env export_world)).2
           (connect engine (DbName.CURRENT_DB (globals export_world)) (env export_world)).2
           ["kunden_id"; "name"]).
  - vm_compute. discriminate.
  - discriminate.
  - vm_compute. reflexivity.
  - vm_compute. reflexivity.
  - vm_compute. reflexivity.
  - reflexivity.
  - apply (bool_decide_unpack _). vm_compute. exact I.
  - repeat constructor.
  - reflexivity.
  - intros title message. vm_compute. intros H.
    repeat (apply elem_of_cons in H as [H|H]; [discriminate H|]).
    by apply elem_of_nil in H.
Defined.

(** *** The SQL editor *)

(** C9, as stated, fails: the input [PRAGMA foreign_keys = ON] is one
    statement that begins with [pragma]; it has no result columns, and
    the result is not its (empty) row set but the "Info" line. *)
Lemma pragma_without_columns_shows_info :
  let sql_text := "PRAGMA foreign_keys = ON" in
  script_branch sql_text = false
  /\ (engine_run engine 0 (statements sql_text) (env sql_world)).1 = Ok pragma_log
  /\ last_query pragma_log = Some (RunEntry sql_text (Cursor None []) 0 0)
  /\ (run_sql_execute engine 0 sql_text sql_world).1
       = Ok (["Info"], [info_row 0])
  /\ stated_result pragma_log = ([], [])
  /\ result (ui (run_sql engine (typing sql_text shop_world)).2)
       = Grid ["Info"] [[VStr "OK. Geänderte Zeilen: 0"]] []
  /\ (run_sql_execute engine 0 sql_text sql_world).1 <> Ok (stated_result pragma_log).
Proof. vm_compute. repeat split; try reflexivity. discriminate. Qed.

(** *** Deleting a customer *)

Example delete_bob :
  let r := delete_selected_row engine bob_world in
  trace r.2 =
    [ Connect 1; Execute 1 PragmaForeignKeysOn; Execute 1 (PragmaTableInfo "kunden");
      Commit 1;
      Connect 2; Execute 2 PragmaForeignKeysOn;
      Execute 2 (DeleteWhere "kunden" "kunden_id" (VInt 2)); Commit 2; Commit 2;
      Connect 3; Execute 3 PragmaForeignKeysOn;
      Execute 3 (SelectAllFrom "kunden" ""); Commit 3;
      GridReset GridBrowse ["kunden_id"; "name"] ]
  /\ (rt_rows <$> find_table "kunden" (tables (env r.2)))
       = Some [ [VInt 1; VStr "Alice"] ].
Proof. vm_compute. split; reflexivity. Qed.

(** C10, as stated, fails: with Alice selected the key column
    [kunden_id] is found, and the row whose [kunden_id] is 1 is not
    deleted, because the [DELETE] violates the foreign key of
    [bestellungen] that [get_db_conn] has switched on; an error dialog
    is shown instead. *)
Lemma referenced_row_is_not_deleted :
  let r := delete_selected_row engine alice_world in
  columns (grid_browse (ui alice_world)) = ["kunden_id"; "name"]
  /\ default [] (items (grid_browse (ui alice_world)) !! 0%nat) = [VInt 1; VStr "Alice"]
  /\ trace r.2 =
       [ Connect 1; Execute 1 PragmaForeignKeysOn; Execute 1 (PragmaTableInfo "kunden");
         Commit 1;
         Connect 2; Execute 2 PragmaForeignKeysOn;
         Execute 2 (DeleteWhere "kunden" "kunden_id" (VInt 1));
         Raised (Exn "sqlite3.IntegrityError" "FOREIGN KEY constraint failed");
         Rollback 2;
         MessageBox Error APP_TITLE
           ("Löschfehler:" +:+ nl +:+ "FOREIGN KEY constraint failed") ]
  /\ (rt_rows <$> find_table "kunden" (tables (env r.2)))
       = Some [ [VInt 1; VStr "Alice"]; [VInt 2; VStr "Bob"] ].
Proof. vm_compute. repeat split; reflexivity. Qed.

Lemma delete_selected_row_key_witness :
  let cols := columns (grid_browse (ui bob_world)) in
  let vals := default [] (items (grid_browse (ui bob_world)) !! 1%nat) in
  exists evs,
    trace (delete_selected_row engine bob_world).2 = trace bob_world ++ evs
    /\ (In "id" cols ->
        Forall (fun ev => ~ is_lookup ev /\ ~ is_warning ev) evs
        /\ key_used "kunden" cols vals (VStr "id") evs)
    /\ (~ In "id" cols ->
        forall conn cur0 pk_cur st1 st2 st3 st4,
          connect engine (DbName.CURRENT_DB (globals bob_world)) (env bob_world)
            = (Ok conn, st1) ->
          execute engine conn PragmaForeignKeysOn st1 = (Ok cur0, st2) ->
          execute engine conn (PragmaTableInfo "kunden") st2 = (Ok pk_cur, st3) ->
          commit engine conn st3 = (Ok tt, st4) ->
          Forall has_pk_and_name (rows_of pk_cur) ->
          let key := stated_pk (rows_of pk_cur) in
          let lookup := [Connect conn; Execute conn PragmaForeignKeysOn;
                         Execute conn (PragmaTableInfo "kunden"); Commit conn] in
          (truthy key = false ->
             evs = lookup ++ [MessageBox Warning APP_TITLE
                                "Keine PK-Spalte gefunden (z. B. 'id')."])
          /\ (truthy key = true ->
              exists evs',
                evs = lookup ++ evs'
                /\ Forall (fun ev => ~ is_lookup ev /\ ~ is_warning ev) evs'
                /\ key_used "kunden" cols vals key evs')).
Proof.
  apply (delete_selected_row_key engine bob_world "kunden" 1 []).
  - vm_compute. reflexivity.
  - discriminate.
  - vm_compute. reflexivity.
Defined.

End ExampleFacts.

(** ** The geometry of the diagram *)
Section GeometryFacts.
Import Er Geometry.

#[local] Arguments place : simpl never.

Lemma place_eq W idx n :
  place W idx n =
    (PADDING + idx mod per_row W * (BOX_W + GAP_X),
     PADDING + idx / per_row W * (box_h n + GAP_Y),
     PADDING + idx mod per_row W * (BOX_W + GAP_X) + BOX_W,
     PADDING + idx / per_row W * (box_h n + GAP_Y) + box_h n).
Proof. reflexivity. Qed.

Lemma per_row_wide W : 324 <= W -> per_row W * 300 <= W - 24.
Proof.
  intros HW. unfold per_row, PADDING, BOX_W, GAP_X.
  assert (1 <= (W - 24) / (260 + 40)) by (apply Z.div_le_lower_bound; lia).
  rewrite Z.max_r by lia.
  pose proof (Z.mul_div_le (W - 24) (260 + 40)). lia.
Qed.

Lemma per_row_narrow W : W < 624 -> per_row W = 1.
Proof.
  intros HW. unfold per_row, PADDING, BOX_W, GAP_X.
  assert ((W - 24) / (260 + 40) < 2) by (apply Z.div_lt_upper_bound; lia).
  lia.
Qed.

Lemma box_h_pos n : 64 <= box_h n.
Proof. unfold box_h, TITLE_H, LINE_H. lia. Qed.

(** X1: on a canvas at least one box wide (324 pixels: padding, box
    and gap), every box lies between the left padding and the right
    edge of the canvas less the gap, and is 260 wide. *)
Theorem boxes_within_canvas_width (w : Z) (catalog : list table_def)
    (t : string) (x1 y1 x2 y2 : Z) :
  324 <= canvas_width w ->
  (render w catalog).2 !! t = Some (x1, y1, x2, y2) ->
  PADDING <= x1 /\ x2 = x1 + BOX_W /\ x2 + GAP_X <= canvas_width w.
Proof.
  intros HW Hb. rewrite render_eq in Hb. cbn [snd] in Hb. unfold the_layout in Hb.
  set (W := canvas_width w) in *.
  apply (layout_boxes_inv
           (fun b => PADDING <= b.1.1.1 /\ b.1.2 = b.1.1.1 + BOX_W /\ b.1.2 + GAP_X <= W)
           W _ _ 0 [] ∅) in Hb; [exact Hb| |].
  - intros i n Hi. rewrite place_eq. cbn [fst snd].
    pose proof (per_row_ge_1 W) as Hp. pose proof (per_row_wide W HW) as Hq.
    assert (0 <= i mod per_row W < per_row W) by (apply Z.mod_pos_bound; lia).
    unfold PADDING, BOX_W, GAP_X. nia.
  - intros t' b. by rewrite lookup_empty.
Qed.

Lemma boxes_within_canvas_width_witness :
  324 <= canvas_width 0 /\
  (PADDING <= 324 /\ 584 = 324 + BOX_W /\ 584 + GAP_X <= canvas_width 0).
Proof.
  split; [vm_compute; discriminate|].
  apply (boxes_within_canvas_width 0 shop "kunden" 324 24 584 106).
  - vm_compute. discriminate.
  - vm_compute. reflexivity.
Defined.

(** X2: below 624 pixels of width, the 1 pixel of a canvas that is
    not yet laid out included, the boxes are stacked in a single
    column: the table at index [i] sits at [x1 = 24], [i] pitches of
    its own height down. *)
Theorem narrow_canvas_single_column
    (w : Z) (catalog : list table_def) (i : nat) (d : table_def) :
  canvas_width w < 624 ->
  NoDup (map t_name catalog) ->
  catalog !! i = Some d ->
  let h := box_h (length (t_cols d)) in
  let y1 := PADDING + Z.of_nat i * (h + GAP_Y) in
  per_row (canvas_width w) = 1 /\
  (render w catalog).2 !! t_name d = Some (PADDING, y1, PADDING + BOX_W, y1 + h).
Proof.
  intros HW Hnd Hi h y1. pose proof (per_row_narrow _ HW) as Hp.
  split; [exact Hp|].
  rewrite (render_box w catalog i d Hnd Hi), place_eq, Hp.
  rewrite Z.mod_1_r, Z.div_1_r. subst y1 h. do 4 f_equal; lia.
Qed.

Lemma narrow_canvas_single_column_witness :
  per_row (canvas_width 1) = 1 /\
  (render 1 schema_wide).2 !! "t4"
    = Some (PADDING, PADDING + 3 * (box_h 2 + GAP_Y), PADDING + BOX_W,
            PADDING + 3 * (box_h 2 + GAP_Y) + box_h 2).
Proof.
  apply (narrow_canvas_single_column 1 schema_wide 3 (two_cols "t4")).
  - vm_compute. reflexivity.
  - apply (bool_decide_unpack _). vm_compute. exact I.
  - reflexivity.
Defined.

Lemma place_apart W i j n m :
  0 <= i -> 0 <= j -> i <> j ->
  Z.max 1 (Z.of_nat n) = Z.max 1 (Z.of_nat m) ->
  apart 40 (place W i n) (place W j m).
Proof.
  intros Hi Hj Hij Hnm. rewrite !place_eq. unfold apart.
  assert (Hh : box_h m = box_h n) by (unfold box_h; by rewrite Hnm).
  rewrite Hh. pose proof (box_h_pos n) as Hpos.
  pose proof (per_row_ge_1 W) as Hp. set (p := per_row W) in *.
  pose proof (Z.div_mod i p ltac:(lia)) as Ei.
  pose proof (Z.div_mod j p ltac:(lia)) as Ej.
  assert (0 <= i mod p < p) by (apply Z.mod_pos_bound; lia).
  assert (0 <= j mod p < p) by (apply Z.mod_pos_bound; lia).
  set (ri := i / p) in *. set (rj := j / p) in *.
  set (ci := i mod p) in *. set (cj := j mod p) in *.
  unfold PADDING, BOX_W, GAP_X, GAP_Y.
  destruct (Z.lt_trichotomy ri rj) as [Hr|[Hr|Hr]].
  - right. right. left. nia.
  - assert (ci <> cj) by (intros E; apply Hij; nia).
    destruct (Z.lt_trichotomy ci cj) as [Hc|[Hc|Hc]]; [left; nia|done|right; left; nia].
  - right. right. right. nia.
Qed.

(** X3: two tables with the same number of box lines never overlap,
    wherever they stand in the table list: their boxes are at least
    40 pixels apart, side by side or one above the other. *)
Theorem equal_line_counts_keep_boxes_apart
    (w : Z) (catalog : list table_def) (i j : nat) (di dj : table_def) :
  NoDup (map t_name catalog) ->
  catalog !! i = Some di -> catalog !! j = Some dj -> i <> j ->
  Z.max 1 (Z.of_nat (length (t_cols di))) = Z.max 1 (Z.of_nat (length (t_cols dj))) ->
  exists bi bj,
    (render w catalog).2 !! t_name di = Some bi /\
    (render w catalog).2 !! t_name dj = Some bj /\
    apart 40 bi bj /\ ~ overlap bi bj.
Proof.
  intros Hnd Hi Hj Hij Hn.
  rewrite (render_box w catalog i di Hnd Hi), (render_box w catalog j dj Hnd Hj).
  do 2 eexists. split; [reflexivity|]. split; [reflexivity|].
  assert (Ha : apart 40 (place (canvas_width w) (Z.of_nat i) (length (t_cols di)))
                 (place (canvas_width w) (Z.of_nat j) (length (t_cols dj)))).
  { apply place_apart; lia. }
  split; [exact Ha|].
  revert Ha. rewrite !place_eq. unfold apart, overlap. lia.
Qed.

Lemma equal_line_counts_witness :
  exists bi bj,
    (render 0 schema_narrow).2 !! "t1" = Some bi /\
    (render 0 schema_narrow).2 !! "t4" = Some bj /\
    apart 40 bi bj /\ ~ overlap bi bj.
Proof.
  apply (equal_line_counts_keep_boxes_apart 0 schema_narrow 0 3 (one_col "t1") (one_col "t4")).
  - apply (bool_decide_unpack _). vm_compute. exact I.
  - reflexivity.
  - reflexivity.
  - discriminate.
  - reflexivity.
Defined.

(** X4: the box one row below a box, in the same column, starts
    [40 + (row + 1) * 18 * (lines below - lines above)] pixels under its
    bottom edge: 40 when the two tables have as many lines, less for
    each line the upper table has more, and the two boxes overlap as
    soon as this is negative and the lower box does not end above the
    upper one. *)
Theorem box_below_gap (W i : Z) (a b : nat) :
  0 <= i ->
  let '(ax1, ay1, ax2, ay2) := place W i a in
  let '(bx1, by1, bx2, by2) := place W (i + per_row W) b in
  let row := i / per_row W in
  bx1 = ax1 /\ bx2 = ax2 /\
  by1 - ay2 = GAP_Y + (row + 1) * LINE_H * (Z.max 1 (Z.of_nat b) - Z.max 1 (Z.of_nat a)) /\
  (overlap (ax1, ay1, ax2, ay2) (bx1, by1, bx2, by2) <-> by1 < ay2 /\ ay1 < by2).
Proof.
  intros Hi. rewrite !place_eq. cbv zeta.
  pose proof (per_row_ge_1 W) as Hp.
  replace (i + per_row W) with (i + 1 * per_row W) by lia.
  rewrite Z.mod_add, Z.div_add by lia.
  unfold box_h, overlap, PADDING, BOX_W, GAP_X, GAP_Y, TITLE_H, LINE_H.
  repeat split; try lia; try tauto.
Qed.

Lemma box_below_gap_witness :
  (render 0 schema_tall_first).2 !! "t1" = Some (place 1000 0 5) /\
  (render 0 schema_tall_first).2 !! "t4" = Some (place 1000 (0 + per_row 1000) 1) /\
  overlap (place 1000 0 5) (place 1000 (0 + per_row 1000) 1).
Proof.
  split; [vm_compute; reflexivity|]. split; [vm_compute; reflexivity|].
  pose proof (box_below_gap 1000 0 5 1 ltac:(lia)) as H.
  rewrite !place_eq in *. apply H. vm_compute. split; reflexivity.
Defined.

Lemma draw_columns_anchors x1 y1 x2 y2 cols : forall y,
  x1 + 10 < x2 -> y1 < y -> y + LINE_H * Z.of_nat (length cols) < y2 + LINE_H ->
  Forall (inside (x1, y1, x2, y2)) (anchors (draw_columns x1 y LINE_H cols)).
Proof.
  induction cols as [|c cols IH]; intros y Hx Hy1 Hy2; [constructor|].
  cbn [draw_columns anchors flat_map app]. constructor.
  - unfold inside, LINE_H in *. cbn [fst snd length] in *. lia.
  - apply IH; [done|unfold LINE_H; lia|]. cbn [length] in Hy2. unfold LINE_H in *. lia.
Qed.

(** X5: in the box drawn for a table, the anchor of the title and the
    anchor of every column label lie strictly inside the frame, however
    many columns the table has. *)
Theorem labels_anchored_inside_box (W idx : Z) (name : string) (cols : list column) :
  let '(x1, y1, x2, y2) := place W idx (length cols) in
  length (anchors (_draw_table_box name cols x1 y1 x2 y2 LINE_H)) = S (length cols) /\
  Forall (inside (x1, y1, x2, y2))
    (anchors (_draw_table_box name cols x1 y1 x2 y2 LINE_H)).
Proof.
  rewrite place_eq.
  set (x1 := PADDING + _). set (y1 := PADDING + _).
  unfold _draw_table_box. cbn [anchors flat_map app]. split.
  - cbn [length]. f_equal. fold (anchors (draw_columns x1 (y1 + 32) LINE_H cols)).
    generalize (y1 + 32). induction cols as [|c cols IH]; intros y; [done|].
    cbn [draw_columns anchors flat_map app length]. f_equal. apply IH.
  - constructor.
    + unfold inside, box_h, BOX_W, TITLE_H, LINE_H. cbn [fst snd]. lia.
    + apply draw_columns_anchors; unfold box_h, BOX_W, TITLE_H, LINE_H; lia.
Qed.

End GeometryFacts.

(** ** Names and statements, character by character *)
Section TextFacts.
Import DbName PyStr Gui.

Lemma all_chars_app f (s1 s2 : string) :
  all_chars f (s1 +:+ s2) = all_chars f s1 && all_chars f s2.
Proof.
  induction s1 as [|c s1 IH]; [reflexivity|].
  rewrite app_cons. cbn [all_chars]. by rewrite IH, andb_assoc.
Qed.

Lemma all_chars_weaken (f g : ascii -> bool) s :
  (forall c, f c = true -> g c = true) -> all_chars f s = true -> all_chars g s = true.
Proof.
  intros Hfg. induction s as [|c s IH]; [done|]. cbn [all_chars].
  rewrite !andb_true_iff. intros [Hc Hs]. auto.
Qed.

(** [sub in s] for a [sub] of one character. *)
Lemma contains_char c s :
  contains (String c "") s = false <-> all_chars (fun x => negb (Ascii.eqb c x)) s = true.
Proof.
  induction s as [|x s IH]; [done|]. cbn [contains String.prefix all_chars].
  destruct (ascii_dec c x) as [->|Hne].
  - rewrite Ascii.eqb_refl. by destruct s.
  - apply Ascii.eqb_neq in Hne. rewrite Hne. cbn [negb andb orb]. exact IH.
Qed.

Lemma safe_char_no_separator c :
  safe_char c = true -> negb (Ascii.eqb "/" c) && negb (Ascii.eqb "\" c) && negb (Ascii.eqb "." c) = true.
Proof.
  destruct c as [[] [] [] [] [] [] [] []]; vm_compute; congruence.
Qed.

(** X6: a name [set_current_db] accepts, a trailing newline included,
    holds no path separator and is not [..]: the new [CURRENT_DB] is a
    file directly in [DATA_DIR], and [DATA_DIR] stays what it was. *)
Theorem accepted_name_stays_in_data_dir (name : string) (g : DbName.globals) :
  (set_current_db name g).1 = inl tt ->
  contains "/" name = false /\ contains "\" name = false /\ name <> ".."%string /\
  CURRENT_DB (set_current_db name g).2 = DATA_DIR g ++ [name] /\
  DATA_DIR (set_current_db name g).2 = DATA_DIR g.
Proof.
  intros Hok.
  assert (Hm : re_match SAFE_DB_RE name = true).
  { unfold set_current_db in Hok. by destruct (re_match SAFE_DB_RE name). }
  rewrite (set_current_db_accepted name g Hm). cbn [snd CURRENT_DB DATA_DIR].
  assert (Hsafe : exists stem rest,
             stem <> ""%string /\ all_chars safe_char stem = true /\
             name = (stem +:+ rest)%string /\ (rest = ".db" \/ rest = ".db" +:+ newline)%string).
  { apply SAFE_DB_RE_spec in Hm as [(stem & H1 & H2 & ->)|(n & (stem & H1 & H2 & ->) & ->)].
    - exists stem, ".db"%string. auto.
    - exists stem, (".db" +:+ newline)%string. rewrite app_assoc'. auto. }
  destruct Hsafe as (stem & rest & Hne & Hall & -> & Hrest).
  assert (Hsep : forall c, c = "/"%char \/ c = "\"%char ->
             all_chars (fun x => negb (Ascii.eqb c x)) (stem +:+ rest) = true).
  { intros c Hc. rewrite all_chars_app. apply andb_true_iff. split.
    - apply (all_chars_weaken safe_char); [|done]. intros x Hx.
      apply safe_char_no_separator in Hx. apply andb_true_iff in Hx as [Hx _].
      apply andb_true_iff in Hx as [H1 H2]. by destruct Hc as [-> | ->].
    - by destruct Hc as [-> | ->], Hrest as [-> | ->]. }
  repeat split.
  - apply contains_char, Hsep. by left.
  - apply contains_char, Hsep. by right.
  - destruct stem as [|c stem]; [done|]. rewrite app_cons. intros [= -> _].
    cbn [all_chars] in Hall. discriminate Hall.
Qed.

Lemma accepted_name_witness :
  contains "/" "shop-2.db" = false /\ contains "\" "shop-2.db" = false
  /\ "shop-2.db"%string <> ".."%string /\
  CURRENT_DB (set_current_db "shop-2.db" (DbName.Globals ["app"; "data"] ["app"; "data"; "database.db"])).2
    = ["app"; "data"] ++ ["shop-2.db"%string] /\
  DATA_DIR (set_current_db "shop-2.db" (DbName.Globals ["app"; "data"] ["app"; "data"; "database.db"])).2
    = ["app"; "data"].
Proof.
  apply (accepted_name_stays_in_data_dir "shop-2.db"
           (DbName.Globals ["app"; "data"] ["app"; "data"; "database.db"])).
  reflexivity.
Defined.

(** *** [strip] and the statements of the SQL editor *)

Lemma app_empty_r (s : string) : s +:+ "" = s.
Proof. induction s as [|c s IH]; [done|]. by rewrite app_cons, IH. Qed.

Lemma length_app' (s t : string) :
  String.length (s +:+ t) = (String.length s + String.length t)%nat.
Proof. induction s as [|c s IH]; [done|]. rewrite app_cons. simpl. by rewrite IH. Qed.

Lemma prefix_app e s : String.prefix e s = true <-> exists r, s = e +:+ r.
Proof.
  revert s. induction e as [|c e IH]; intros s.
  - split; [intros _; by exists s|intros _; by destruct s].
  - destruct s as [|a s]; simpl.
    + split; [done|]. intros (r & Hr). discriminate.
    + destruct (ascii_dec c a) as [->|Hne].
      * rewrite IH. split; intros (r & Hr); exists r.
        -- by rewrite app_cons, Hr.
        -- rewrite app_cons in Hr. by injection Hr.
      * split; [done|]. intros (r & Hr). rewrite app_cons in Hr. by injection Hr.
Qed.

(** Two prefixes of one string: one is a prefix of the other. *)
Lemma prefix_total e e' s :
  String.prefix e s = true -> String.prefix e' s = true ->
  String.prefix e e' = true \/ String.prefix e' e = true.
Proof.
  revert e' s. induction e as [|c e IH]; intros e' s He He'.
  - left. by destruct e'.
  - destruct e' as [|c' e']; [by right|].
    destruct s as [|a s]; [done|]. simpl in *.
    destruct (ascii_dec c a) as [->|]; [|done].
    destruct (ascii_dec c' a) as [->|]; [|done].
    destruct (ascii_dec a a); [|done]. eauto.
Qed.


Ltac each_space Hin :=
  vm_compute in Hin; repeat (destruct Hin as [<-|Hin]); [..|destruct Hin].

Lemma whitespace_not_empty e : In e whitespace -> exists c e', e = String c e'.
Proof. intros Hin. each_space Hin; eauto. Qed.

(** No white space character is the beginning of another. *)
Lemma whitespace_prefix_free e e' :
  In e whitespace -> In e' whitespace -> String.prefix e e' = true -> e = e'.
Proof.
  intros Hin Hin' Hp. each_space Hin; each_space Hin';
    first [reflexivity|vm_compute in Hp; discriminate Hp].
Qed.

Lemma space_at_Some s e :
  space_at s = Some e -> In e whitespace /\ exists r, s = e +:+ r.
Proof.
  unfold space_at. intros H. apply find_some in H as [Hin Hp].
  by apply prefix_app in Hp.
Qed.

Lemma space_at_app e r : In e whitespace -> space_at (e +:+ r) = Some e.
Proof.
  intros Hin. unfold space_at.
  destruct (find _ whitespace) as [e'|] eqn:Hf.
  - apply find_some in Hf as [Hin' Hp'].
    assert (Hp : String.prefix e (e +:+ r) = true) by (apply prefix_app; eauto).
    destruct (prefix_total _ _ _ Hp Hp') as [H|H].
    + by rewrite (whitespace_prefix_free _ _ Hin Hin' H).
    + by rewrite (whitespace_prefix_free _ _ Hin' Hin H).
  - exfalso. eapply find_none in Hf; [|exact Hin]. simpl in Hf.
    assert (Hp : String.prefix e (e +:+ r) = true) by (apply prefix_app; eauto).
    congruence.
Qed.

Lemma space_at_None s e r : space_at s = None -> In e whitespace -> s <> e +:+ r.
Proof. intros Hn Hin ->. by rewrite space_at_app in Hn. Qed.

Lemma lstrip_from_app x r : lstrip_from (String.length x) (x +:+ r) = lstrip r.
Proof. induction x as [|c x IH]; [reflexivity|]. exact IH. Qed.

Lemma lstrip_space e r : In e whitespace -> lstrip (e +:+ r) = lstrip r.
Proof.
  intros Hin. destruct (whitespace_not_empty e Hin) as (c & e' & ->).
  unfold lstrip at 1. rewrite app_cons. cbn [lstrip_from].
  rewrite <- app_cons, (space_at_app _ r Hin).
  replace (String.length (String c e') - 1)%nat with (String.length e')
    by (cbn [String.length]; lia).
  apply lstrip_from_app.
Qed.

Lemma lstrip_no_space s : space_at s = None -> lstrip s = s.
Proof. intros H. destruct s as [|c s]; [done|]. unfold lstrip. cbn [lstrip_from]. by rewrite H. Qed.

(** Reasoning on a string by the white space it starts with. *)
Lemma lstrip_ind (P : string -> Prop) :
  (forall s, space_at s = None -> P s) ->
  (forall e r, In e whitespace -> P r -> P (e +:+ r)) ->
  forall s, P s.
Proof.
  intros Hnone Hstep s.
  remember (String.length s) as n eqn:Hn. revert s Hn.
  induction n as [n IH] using lt_wf_ind. intros s ->.
  destruct (space_at s) as [e|] eqn:Hs; [|by apply Hnone].
  apply space_at_Some in Hs as (Hin & r & ->). apply Hstep; [done|].
  apply (IH (String.length r)); [|done].
  destruct (whitespace_not_empty e Hin) as (c & e' & ->).
  rewrite length_app'. simpl. lia.
Qed.

Lemma lstrip_idem s : lstrip (lstrip s) = lstrip s.
Proof.
  induction s as [s Hs|e r Hin IH] using lstrip_ind.
  - by rewrite !(lstrip_no_space s Hs).
  - by rewrite lstrip_space.
Qed.

Lemma space_at_lstrip s : space_at (lstrip s) = None.
Proof.
  induction s as [s Hs|e r Hin IH] using lstrip_ind.
  - by rewrite (lstrip_no_space s Hs).
  - by rewrite lstrip_space.
Qed.

(** [lstrip] drops a prefix made of white space. *)
Lemma lstrip_app_blank s t : lstrip s = "" -> lstrip (s +:+ t) = lstrip t.
Proof.
  induction s as [s Hs|e r Hin IH] using lstrip_ind.
  - rewrite (lstrip_no_space s Hs). by intros ->.
  - rewrite lstrip_space by done. intros Hr. by rewrite app_assoc', lstrip_space, IH.
Qed.

Lemma lstrip_split s : exists b, s = b +:+ lstrip s /\ lstrip b = "".
Proof.
  induction s as [s Hs|e r Hin (b & Hb & Hblank)] using lstrip_ind.
  - exists "". by rewrite (lstrip_no_space s Hs).
  - exists (e +:+ b). rewrite !lstrip_space by done. split; [|done].
    by rewrite app_assoc', <- Hb.
Qed.

Lemma rstrip_cons c s :
  rstrip (String c s) =
    if String.eqb (lstrip (String c s)) "" then EmptyString else String c (rstrip s).
Proof. reflexivity. Qed.

(** [rstrip] drops a suffix made of white space. *)
Lemma rstrip_split s : exists b, s = rstrip s +:+ b /\ lstrip b = "".
Proof.
  induction s as [|c s (b & Hb & Hblank)]; [by exists ""|].
  rewrite rstrip_cons. destruct (String.eqb_spec (lstrip (String c s)) "") as [H|H].
  - by exists (String c s).
  - exists b. by rewrite app_cons, <- Hb.
Qed.

Lemma rstrip_idem s : rstrip (rstrip s) = rstrip s.
Proof.
  induction s as [|c s IH]; [done|]. rewrite rstrip_cons.
  destruct (String.eqb_spec (lstrip (String c s)) "") as [H|H]; [done|].
  rewrite rstrip_cons, IH.
  destruct (String.eqb_spec (lstrip (String c (rstrip s))) "") as [H'|H']; [|done].
  exfalso. apply H. destruct (rstrip_split s) as (b & Hb & Hblank).
  rewrite Hb, <- app_cons. by rewrite lstrip_app_blank.
Qed.

Lemma lstrip_rstrip s : lstrip (rstrip (lstrip s)) = rstrip (lstrip s).
Proof.
  pose proof (space_at_lstrip s) as Hn. destruct (rstrip_split (lstrip s)) as (b & Hb & _).
  apply lstrip_no_space. destruct (space_at (rstrip (lstrip s))) as [e|] eqn:Hs; [|done].
  apply space_at_Some in Hs as (Hin & r & Hr). exfalso.
  apply (space_at_None _ e (r +:+ b) Hn Hin). by rewrite Hb at 1; rewrite Hr, app_assoc'.
Qed.

Lemma strip_idem s : strip (strip s) = strip s.
Proof. unfold strip. by rewrite lstrip_rstrip, rstrip_idem. Qed.

Lemma all_chars_lstrip f s : all_chars f s = true -> all_chars f (lstrip s) = true.
Proof.
  destruct (lstrip_split s) as (b & Hb & _). rewrite Hb at 1.
  rewrite all_chars_app, andb_true_iff. tauto.
Qed.

Lemma all_chars_rstrip f s : all_chars f s = true -> all_chars f (rstrip s) = true.
Proof.
  destruct (rstrip_split s) as (b & Hb & _). rewrite Hb at 1.
  rewrite all_chars_app, andb_true_iff. tauto.
Qed.


Lemma app_inv_head' (s t u : string) : s +:+ t = s +:+ u -> t = u.
Proof. induction s as [|c s IH]; [done|]. rewrite !app_cons. intros [= H]. auto. Qed.

(** No white space character of several bytes ends with a newline. *)
Lemma whitespace_no_nl e s : In e whitespace -> s <> "" -> e <> s +:+ nl.
Proof.
  intros Hin Hne He. each_space Hin;
    destruct s as [|a [|b [|c [|d s]]]]; try done; discriminate He.
Qed.

(** A newline after a text that starts with no white space makes none. *)
Lemma space_at_app_nl s : s <> "" -> space_at s = None -> space_at (s +:+ nl) = None.
Proof.
  intros Hne Hn. destruct (space_at (s +:+ nl)) as [e|] eqn:Hs; [|done]. exfalso.
  apply space_at_Some in Hs as (Hin & r & Hr).
  assert (Hp : String.prefix e (s +:+ nl) = true) by (apply prefix_app; eauto).
  assert (Hp' : String.prefix s (s +:+ nl) = true) by (apply prefix_app; eauto).
  destruct (prefix_total _ _ _ Hp Hp') as [H|H].
  - apply prefix_app in H as (r' & ->). by apply (space_at_None _ e r' Hn Hin).
  - apply prefix_app in H as (x & Hx). rewrite Hx, app_assoc' in Hr.
    apply app_inv_head' in Hr. destruct x as [|a x].
    + rewrite app_empty_r in Hx. subst e. apply (space_at_None _ s "" Hn Hin).
      by rewrite app_empty_r.
    + rewrite app_cons in Hr. injection Hr as <- Hr. destruct x; [|discriminate Hr].
      by apply (whitespace_no_nl e s).
Qed.

Lemma lstrip_nl : lstrip nl = "".
Proof. reflexivity. Qed.

(** A text is white space with a newline after it when it is without. *)
Lemma blank_app_nl s : s <> "" -> lstrip (s +:+ nl) = "" -> lstrip s = "".
Proof.
  induction s as [s Hs|e r Hin IH] using lstrip_ind; intros Hne.
  - rewrite (lstrip_no_space _ (space_at_app_nl s Hne Hs)). intros H.
    destruct s; [done|discriminate H].
  - rewrite app_assoc', (lstrip_space e (r +:+ nl)), (lstrip_space e r) by done.
    destruct r as [|c r]; [intros _; reflexivity|].
    by apply IH.
Qed.

Lemma rstrip_app_nl s : rstrip (s +:+ nl) = rstrip s.
Proof.
  induction s as [|c s IH]; [reflexivity|].
  rewrite app_cons, !rstrip_cons, IH, <- app_cons.
  destruct (String.eqb_spec (lstrip (String c s)) "") as [H|H].
  - by rewrite lstrip_app_blank.
  - destruct (String.eqb_spec (lstrip (String c s +:+ nl)) "") as [H'|H']; [|done].
    by apply blank_app_nl in H'.
Qed.

Lemma strip_app_nl s : strip (s +:+ nl) = strip s.
Proof.
  unfold strip. destruct (lstrip_split s) as (b & Hb & Hblank).
  rewrite Hb at 1. rewrite app_assoc', lstrip_app_blank by done.
  destruct (lstrip s) as [|a r] eqn:Hl; [reflexivity|].
  rewrite lstrip_no_space; [apply rstrip_app_nl|].
  apply space_at_app_nl; [done|]. rewrite <- Hl. apply space_at_lstrip.
Qed.

Lemma split_pieces sep s :
  Forall (fun p => all_chars (fun x => negb (Ascii.eqb sep x)) p = true) (split sep s).
Proof.
  induction s as [|c s IH]; [by repeat constructor|]. cbn [split].
  destruct (Ascii.eqb c sep) eqn:Hc.
  - by constructor.
  - destruct (split sep s) as [|piece rest].
    + repeat constructor. cbn [all_chars]. rewrite Ascii.eqb_sym, Hc. reflexivity.
    + apply Forall_cons in IH as [Hp Hr]. constructor; [|done].
      cbn [all_chars]. by rewrite Ascii.eqb_sym, Hc, Hp.
Qed.

Lemma split_not_nil sep s : split sep s <> [].
Proof.
  destruct s as [|c s]; [done|]. cbn [split].
  destruct (Ascii.eqb c sep); [done|]. by destruct (split sep s).
Qed.

(** [split] loses nothing: the pieces joined by the separator are the
    text. *)
Lemma join_split sep s : join (String sep "") (split sep s) = s.
Proof.
  induction s as [|c s IH]; [done|]. cbn [split].
  pose proof (split_not_nil sep s) as Hne.
  destruct (Ascii.eqb_spec c sep) as [->|Hc].
  - destruct (split sep s) as [|p ps]; [done|].
    change (join (String sep "") ("" :: p :: ps))
      with (String sep (join (String sep "") (p :: ps))).
    by rewrite IH.
  - destruct (split sep s) as [|p ps]; [done|]. rewrite <- IH.
    destruct ps as [|q ps]; reflexivity.
Qed.

(** The statements of [run_sql] are the trimmed pieces between the
    semicolons of the input, the blank ones left out. *)
Lemma statements_pieces sql_text :
  exists pieces,
    join ";" pieces = sql_text
    /\ Forall (fun p => contains ";" p = false) pieces
    /\ statements sql_text
       = map strip (List.filter (fun p => negb (String.eqb (strip p) "")) pieces).
Proof.
  exists (split ";" sql_text). split; [apply join_split|]. split; [|done].
  eapply Forall_impl; [apply split_pieces|]. intros p Hp. by apply contains_char.
Qed.
(** X7: whatever the editor holds, every statement the loop of
    [run_sql] executes is not empty, has no white space at either end
    and holds no semicolon: the text is cut at every semicolon, those
    inside an SQL string literal included. *)
Theorem statements_are_trimmed_pieces (sql_text : string) :
  Forall (fun stmt => stmt <> ""%string /\ strip stmt = stmt /\ contains ";" stmt = false)
    (statements sql_text).
Proof.
  unfold statements. apply Forall_forall. intros stmt Hin.
  apply list_elem_of_fmap in Hin as (piece & -> & Hin).
  apply list_elem_of_In, filter_In in Hin as [Hin Hne].
  apply negb_true_iff, String.eqb_neq in Hne.
  split; [exact Hne|]. split; [apply strip_idem|].
  apply contains_char. unfold strip. apply all_chars_rstrip, all_chars_lstrip.
  pose proof (split_pieces ";" sql_text) as Hp.
  rewrite Forall_forall in Hp. apply Hp. by apply list_elem_of_In.
Qed.

Example statements_unicode :
  statements ("SELECT 1;" +:+ bytes [194; 160]) = ["SELECT 1"]
  /\ strip (bytes [226; 128; 131] +:+ bytes [10]) = ""%string.
Proof. by split. Qed.

Example statements_cut_a_literal :
  statements "insert into t values ('a;b') ; select 1;;"
    = ["insert into t values ('a"; "b')"; "select 1"].
Proof. reflexivity. Qed.

End TextFacts.

(** ** What the operations keep, and how they bracket their resources *)
Section DisciplineFacts.
Import PyStr Gui Trace Discipline.
Context {St : Type} (sq : sqlite3 St).

(** *** Traces built from blocks *)
Section Appends.
(** A property of traces that holds of the empty trace and of the
    concatenation of two traces that have it, and of the single events
    [ok]. *)
Variable P : list event -> Prop.
Variable ok : event -> Prop.
Hypothesis P_nil : P [].
Hypothesis P_app : forall evs1 evs2, P evs1 -> P evs2 -> P (evs1 ++ evs2).
Hypothesis P_ok : forall ev, ok ev -> P [ev].
Hypothesis ok_raised : forall e, ok (Raised e).

Lemma appends_quiet {A} (m : M St A) :
  (forall w, trace (m w).2 = trace w) -> appends P m.
Proof. intros H w. exists []. by rewrite app_nil_r. Qed.

Lemma appends_ret {A} (a : A) : appends P (ret (St:=St) a).
Proof. by apply appends_quiet. Qed.

Lemma appends_bind {A B} (m : M St A) (f : A -> M St B) :
  appends P m -> (forall a, appends P (f a)) -> appends P (bind m f).
Proof.
  intros Hm Hf w. unfold bind. destruct (Hm w) as (evs1 & E1 & P1).
  destruct (m w) as [[a|e] w1]; simpl in E1.
  - destruct (Hf a w1) as (evs2 & E2 & P2). exists (evs1 ++ evs2).
    rewrite E2, E1, app_assoc. auto.
  - by exists evs1.
Qed.

Lemma appends_emit ev : ok ev -> appends P (emit (St:=St) ev).
Proof. intros H w. exists [ev]. auto. Qed.

Lemma appends_raise {A} e : appends P (raise (St:=St) (A:=A) e).
Proof. intros w. exists [Raised e]. auto. Qed.

Lemma appends_reraise {A} e : appends P (reraise (St:=St) (A:=A) e).
Proof. by apply appends_quiet. Qed.

Lemma appends_call {A} (f : St -> res A * St) : appends P (call f).
Proof.
  intros w. unfold call. destruct (f (env w)) as [[a|e] st]; simpl.
  - exists []. by rewrite app_nil_r.
  - exists [Raised e]. auto.
Qed.

Lemma appends_try_except {A} (body : M St A) handler :
  appends P body -> (forall e, appends P (handler e)) ->
  appends P (try_except body handler).
Proof.
  intros Hb Hh w. unfold try_except. destruct (Hb w) as (evs1 & E1 & P1).
  destruct (body w) as [[a|e] w1]; simpl in E1.
  - by exists evs1.
  - destruct (Hh e w1) as (evs2 & E2 & P2). exists (evs1 ++ evs2).
    rewrite E2, E1, app_assoc. auto.
Qed.

Lemma appends_lift {A} (r : res A) : appends P (lift (St:=St) r).
Proof. destruct r; [apply appends_ret|apply appends_raise]. Qed.

Lemma appends_for_each {A} (xs : list A) body :
  (forall x, appends P (body x)) -> appends P (for_each (St:=St) xs body).
Proof.
  intros Hb. induction xs as [|x xs IH]; simpl.
  - apply appends_ret.
  - apply appends_bind; auto.
Qed.

Lemma appends_fold_each {A B} (xs : list A) (acc : B) body :
  (forall b x, appends P (body b x)) -> appends P (fold_each (St:=St) xs acc body).
Proof.
  intros Hb. revert acc. induction xs as [|x xs IH]; intros acc; simpl.
  - apply appends_ret.
  - apply appends_bind; auto.
Qed.

Lemma appends_map_each {A B} (xs : list A) (f : A -> M St B) :
  (forall x, appends P (f x)) -> appends P (map_each xs f).
Proof.
  intros Hf. induction xs as [|x xs IH]; simpl.
  - apply appends_ret.
  - apply appends_bind; [auto|]. intros y. apply appends_bind; [auto|].
    intros ys. apply appends_ret.
Qed.

Ltac appends_step :=
  lazymatch goal with
  | |- appends _ (ret _) => apply appends_ret
  | |- appends _ (bind _ _) => apply appends_bind; [|intros ?]
  | |- appends _ (emit _) => apply appends_emit; auto
  | |- appends _ (raise _) => apply appends_raise
  | |- appends _ (reraise _) => apply appends_reraise
  | |- appends _ (call _) => apply appends_call
  | |- appends _ (try_except _ _) => apply appends_try_except; [|intros ?]
  | |- appends _ get_ui => by apply appends_quiet
  | |- appends _ get_globals => by apply appends_quiet
  | |- appends _ (modify_ui _) => by apply appends_quiet
  | |- appends _ (_status _) => by apply appends_quiet
  | |- appends _ (sq_total_changes _ _) => by apply appends_quiet
  | |- appends _ (exists_current_db _) => by apply appends_quiet
  | |- appends _ (lift _) => apply appends_lift
  | |- appends _ (for_each _ _) => apply appends_for_each; intros ?
  | |- appends _ (fold_each _ _ _) => apply appends_fold_each; intros ? ?
  | |- appends _ (map_each _ _) => apply appends_map_each; intros ?
  | |- appends _ (if ?b then _ else _) => destruct b
  | |- appends _ (match ?x with _ => _ end) => destruct x
  | |- appends _ (let '_ := ?x in _) => destruct x
  end.

Hypothesis ok_execute : forall c s, ok (Execute c s).
Hypothesis ok_executescript : forall c s, ok (ExecuteScript c s).
Hypothesis ok_commit : forall c, ok (Commit c).
Hypothesis ok_rollback : forall c, ok (Rollback c).
Hypothesis ok_gridreset : forall g cols, ok (GridReset g cols).
Hypothesis ok_messagebox : forall i t m, ok (MessageBox i t m).

(** The two places where a resource is taken: the connection with its
    pragma, and the file of the export with what is written to it. *)
Hypothesis P_get_db_conn : appends P (get_db_conn sq).
Hypothesis P_export_file : forall file cols rows,
  appends P (with_open sq file
    (writerow sq file (map VStr cols);;
     for_each rows (fun r =>
       let* vals := row_values cols r in writerow sq file vals))).

Lemma appends_sq_execute c s : appends P (sq_execute sq c s).
Proof. unfold sq_execute. repeat appends_step. Qed.

Lemma appends_sq_commit c : appends P (sq_commit sq c).
Proof. unfold sq_commit. repeat appends_step. Qed.

Lemma appends_with_conn {A} (body : nat -> M St A) :
  (forall c, appends P (body c)) -> appends P (with_conn sq body).
Proof.
  intros Hb. unfold with_conn. apply appends_bind; [apply P_get_db_conn|].
  intros c w. destruct (Hb c w) as (evs1 & E1 & P1).
  destruct (body c w) as [[a|e] w1]; simpl in E1.
  - assert (H : appends P (bind (sq_commit sq c) (fun _ => ret a))).
    { apply appends_bind; [apply appends_sq_commit|]. intros _. apply appends_ret. }
    destruct (H w1) as (evs2 & E2 & P2). exists (evs1 ++ evs2).
    rewrite E2, E1, app_assoc. auto.
  - exists (evs1 ++ [Rollback c]). simpl. rewrite E1, app_assoc. auto.
Qed.

Ltac appends_op :=
  first
  [ progress cbv zeta
  | appends_step
  | apply appends_sq_execute | apply appends_sq_commit
  | apply appends_with_conn; intros ?
  | apply P_export_file ].

Lemma appends_render_grid g cols rows : appends P (_render_grid (St:=St) g cols rows).
Proof. unfold _render_grid, row_values. repeat appends_op. Qed.

Lemma appends_reload_items : appends P (reload_items sq).
Proof.
  unfold reload_items, description_names.
  repeat first [ apply appends_render_grid | appends_op ].
Qed.

Lemma appends_load_table_rows : appends P (load_table_rows sq).
Proof.
  unfold load_table_rows, showerror.
  repeat first [ apply appends_render_grid | appends_op ].
Qed.

Lemma appends_first_pk pkinfo : appends P (first_pk (St:=St) pkinfo).
Proof.
  induction pkinfo as [|c rest IH]; simpl; [apply appends_ret|].
  apply appends_bind; [apply appends_lift|]. intros pk.
  destruct (eq_int pk 1); [apply appends_lift|apply IH].
Qed.

Lemma appends_delete_selected_row : appends P (delete_selected_row sq).
Proof.
  unfold delete_selected_row, find_pk_col, delete_try, showerror, showwarning, showinfo.
  repeat first [ apply appends_load_table_rows | apply appends_first_pk | appends_op ].
Qed.

Lemma appends_export_csv_current file : appends P (export_csv_current sq file).
Proof.
  unfold export_csv_current, export_csv_try, description_names, showerror, showinfo.
  repeat appends_op.
Qed.

Lemma appends_add_item : appends P (add_item sq).
Proof.
  unfold add_item, showerror, showwarning, showinfo.
  repeat first [ apply appends_reload_items | appends_op ].
Qed.

Lemma appends_refresh_schema : appends P (refresh_schema sq).
Proof.
  unfold refresh_schema, column_tree_label, fk_tree_label, tree_insert.
  repeat first [ apply appends_load_table_rows | apply appends_reload_items | appends_op ].
Qed.

Lemma appends_build_er_diagram : appends P (build_er_diagram sq).
Proof. unfold build_er_diagram, decode_column, decode_fk. repeat appends_op. Qed.

Lemma appends_run_sql : appends P (run_sql sq).
Proof.
  unfold run_sql, run_sql_execute, run_statement, show_result, row_values,
    sq_executescript, showerror.
  repeat first [ apply appends_refresh_schema | apply appends_build_er_diagram
               | appends_op ].
Qed.

Lemma appends_perform op : appends P (perform sq op).
Proof.
  destruct op; simpl;
    auto using appends_refresh_schema, appends_load_table_rows,
      appends_delete_selected_row, appends_export_csv_current, appends_add_item,
      appends_reload_items, appends_run_sql, appends_build_er_diagram.
Qed.

End Appends.

(** *** Foreign keys on every connection *)

Lemma fk_enforced_app evs1 evs2 :
  fk_enforced evs1 -> fk_enforced evs2 -> fk_enforced (evs1 ++ evs2).
Proof. induction 1; intros H2; simpl; [done|by constructor; auto..]. Qed.

Lemma fk_enforced_single ev : ~ is_connect ev -> fk_enforced [ev].
Proof. intros H. by repeat constructor. Qed.

Lemma fk_enforced_get_db_conn : appends fk_enforced (get_db_conn sq).
Proof.
  intros w. rewrite get_db_conn_eq.
  destruct (connect sq _ (env w)) as [[c|e] st1].
  - destruct (execute sq c PragmaForeignKeysOn st1) as [[cur|e] st2]; simpl.
    + eexists. split; [reflexivity|]. apply fk_connect, fk_nil.
    + eexists. split; [reflexivity|]. apply fk_connect. apply fk_enforced_single; simpl; tauto.
  - eexists. split; [reflexivity|]. apply fk_enforced_single; simpl; tauto.
Qed.

Lemma fk_enforced_with_open {A} file (body : M St A) :
  appends fk_enforced body -> appends fk_enforced (with_open sq file body).
Proof.
  intros Hb. unfold with_open.
  apply (appends_bind fk_enforced fk_enforced_app).
  { apply (appends_call fk_enforced (fun ev => ~ is_connect ev)); auto using fk_nil, fk_enforced_single. }
  intros _. apply (appends_bind fk_enforced fk_enforced_app).
  { intros w. exists [OpenFile file "utf-8"]. split; [done|]. apply fk_enforced_single; simpl; tauto. }
  intros _ w. destruct (Hb w) as (evs1 & E1 & P1).
  destruct (body w) as [[a|e] w1]; simpl in E1;
    (exists (evs1 ++ [CloseFile file]); simpl; rewrite E1, app_assoc; split; [done|];
     apply fk_enforced_app; [done|apply fk_enforced_single; simpl; tauto]).
Qed.

(** X8: in every operation, the first thing that follows the opening
    of a connection is [PRAGMA foreign_keys = ON] on that connection:
    no statement of the program runs on a connection that does not
    enforce foreign keys. *)
Theorem every_connection_enforces_foreign_keys (w : world St) (op : operation) :
  exists evs,
    trace (perform sq op w).2 = trace w ++ evs /\ fk_enforced evs.
Proof.
  apply (appends_perform fk_enforced (fun ev => ~ is_connect ev));
    auto using fk_nil, fk_enforced_app, fk_enforced_single, fk_enforced_get_db_conn;
    try (intros; exact id).
  intros file cols rows. apply fk_enforced_with_open.
  unfold writerow, row_values.
  repeat first
    [ apply (appends_bind fk_enforced fk_enforced_app); [|intros ?]
    | apply (appends_call fk_enforced (fun ev => ~ is_connect ev));
        auto using fk_nil, fk_enforced_single
    | apply (appends_emit fk_enforced (fun ev => ~ is_connect ev));
        auto using fk_enforced_single
    | apply (appends_for_each fk_enforced fk_nil fk_enforced_app); intros ?
    | apply (appends_map_each fk_enforced fk_nil fk_enforced_app); intros ?
    | apply (appends_lift fk_enforced (fun ev => ~ is_connect ev));
        auto using fk_nil, fk_enforced_single
    | progress cbv zeta ].
Qed.

(** *** Files *)

Lemma files_closed_app evs1 evs2 :
  files_closed evs1 -> files_closed evs2 -> files_closed (evs1 ++ evs2).
Proof.
  induction 1 as [|ev evs Hev H1 IH|file enc mid evs Hmid H1 IH]; intros H2; simpl.
  - done.
  - constructor; auto.
  - rewrite <- app_assoc. simpl. apply fc_block; auto.
Qed.

Lemma files_closed_quiet evs :
  Forall (fun ev => ~ file_event ev) evs -> files_closed evs.
Proof. induction 1; [apply fc_nil|by apply fc_other]. Qed.

Lemma files_closed_single ev : ~ file_event ev -> files_closed [ev].
Proof. intros H. by repeat constructor. Qed.

Lemma writes_only file cols rows :
  emits_only (write_to file)
    (writerow sq file (map VStr cols);;
     for_each rows (fun r =>
       let* vals := row_values cols r in writerow sq file vals)).
Proof.
  assert (Hr : forall e, write_to file (Raised e)) by done.
  assert (Hw : forall fields, emits_only (write_to file) (writerow sq file fields)).
  { intros fields. unfold writerow. cbv zeta.
    apply (emits_bind (write_to file)); [by apply emits_call|]. intros _.
    by apply emits_emit. }
  apply (emits_bind (write_to file)); [apply Hw|]. intros _.
  apply (emits_for_each (write_to file)). intros r.
  apply (emits_bind (write_to file)); [|intros vals; apply Hw].
  unfold row_values. apply (emits_map_each (write_to file)). intros c.
  by apply emits_lift.
Qed.

Lemma files_closed_with_open file (body : M St unit) :
  emits_only (write_to file) body -> appends files_closed (with_open sq file body).
Proof.
  intros Hb w. unfold with_open, bind, call, emit.
  destruct (open_w sq file (env w)) as [[[]|e] st]; simpl.
  - match goal with |- context [body ?w0] => destruct (Hb w0) as (mid & E & Hmid);
      destruct (body w0) as [[a|e] w1] end; simpl in *;
      (exists (OpenFile file "utf-8" :: mid ++ [CloseFile file]);
       rewrite E, <- !app_assoc; split; [done|]; apply fc_block; [done|constructor]).
  - exists [Raised e]. split; [done|]. apply files_closed_single; simpl; tauto.
Qed.

(** X9: in every operation, a file that is opened is closed again
    before the operation ends, on the failing paths as on the
    successful one; between the two events there is nothing but writes
    to this file and failures, and no file is written or closed
    outside such a bracket. *)
Theorem every_opened_file_is_closed (w : world St) (op : operation) :
  exists evs,
    trace (perform sq op w).2 = trace w ++ evs /\ files_closed evs.
Proof.
  apply (appends_perform files_closed (fun ev => ~ file_event ev));
    auto using fc_nil, files_closed_app, files_closed_single;
    try (intros; exact id).
  - intros w0. destruct (emits_get_db_conn sq (fun ev => ~ file_event ev)) with (w := w0)
      as (evs & E & H); try (intros; exact id).
    exists evs. split; [done|]. by apply files_closed_quiet.
  - intros file cols rows. apply files_closed_with_open, writes_only.
Qed.

End DisciplineFacts.

(** ** What the operations change, and what they leave alone *)
Section OutcomeFacts.
Import PyStr Gui Trace Discipline Outcome.
Context {St : Type} (sq : sqlite3 St).

(** *** Successful calls, step by step *)

Lemma sq_execute_ok c s (w : world St) cur w' :
  sq_execute sq c s w = (Ok cur, w') ->
  exists st, execute sq c s (env w) = (Ok cur, st)
             /\ w' = World st (globals w) (ui w) (trace w ++ [Execute c s]).
Proof.
  rewrite sq_execute_eq. destruct (execute sq c s (env w)) as [[cur'|e] st]; [|done].
  intros [= <- <-]. eauto.
Qed.

Lemma sq_commit_ok c (w : world St) u w' :
  sq_commit sq c w = (Ok u, w') ->
  exists st, commit sq c (env w) = (Ok tt, st)
             /\ w' = World st (globals w) (ui w) (trace w ++ [Commit c]).
Proof.
  rewrite sq_commit_eq. destruct (commit sq c (env w)) as [[[]|e] st]; [|done].
  intros [= <- <-]. eauto.
Qed.

Lemma get_db_conn_ok (w : world St) c w' :
  get_db_conn sq w = (Ok c, w') ->
  exists st1 cur st2,
    connect sq (DbName.CURRENT_DB (globals w)) (env w) = (Ok c, st1)
    /\ execute sq c PragmaForeignKeysOn st1 = (Ok cur, st2)
    /\ w' = World st2 (globals w) (ui w)
              (trace w ++ [Connect c; Execute c PragmaForeignKeysOn]).
Proof.
  rewrite get_db_conn_eq.
  destruct (connect sq _ (env w)) as [[c'|e] st1]; [|done].
  destruct (execute sq c' PragmaForeignKeysOn st1) as [[cur|e] st2] eqn:He; [|done].
  intros [= <- <-]. by exists st1, cur, st2.
Qed.

Lemma with_conn_ok {A} (body : nat -> M St A) (w : world St) a w' :
  with_conn sq body w = (Ok a, w') ->
  exists c w1 w2,
    get_db_conn sq w = (Ok c, w1) /\ body c w1 = (Ok a, w2)
    /\ sq_commit sq c w2 = (Ok tt, w').
Proof.
  rewrite with_conn_eq.
  destruct (get_db_conn sq w) as [[c|e] w1] eqn:Hg; [|done].
  destruct (body c w1) as [[a'|e] w2] eqn:Hb; [|done].
  destruct (sq_commit sq c w2) as [[[]|e] w3] eqn:Hc; [|done].
  intros [= <- <-]. by exists c, w1, w2.
Qed.

Lemma reload_items_returns (w : world St) : (reload_items sq w).1 = Ok tt.
Proof.
  unfold reload_items, try_except.
  match goal with |- context [bind ?m ?k w] => destruct (bind m k w) as [[[]|e] w1] end;
    reflexivity.
Qed.

Lemma load_table_rows_returns (w : world St) : (load_table_rows sq w).1 = Ok tt.
Proof.
  unfold load_table_rows. rewrite bind_get_ui. cbv zeta.
  destruct (String.eqb _ ""); [done|]. unfold try_except.
  match goal with |- context [bind ?m ?k w] => destruct (bind m k w) as [[[]|e] w1] end;
    reflexivity.
Qed.

(** *** Readings that an operation keeps *)
Section Keeps.
Context {X : Type} (f : DbName.globals -> widgets -> X).

Lemma keeps_quiet {A} (m : M St A) :
  (forall w, globals (m w).2 = globals w /\ ui (m w).2 = ui w) -> keeps f m.
Proof. intros H w. by destruct (H w) as [-> ->]. Qed.

Lemma keeps_ret {A} (a : A) : keeps f (ret (St:=St) a).
Proof. by apply keeps_quiet. Qed.

Lemma keeps_bind {A B} (m : M St A) (k : A -> M St B) :
  keeps f m -> (forall a, keeps f (k a)) -> keeps f (bind m k).
Proof.
  intros Hm Hk w. unfold bind. specialize (Hm w).
  destruct (m w) as [[a|e] w1]; simpl in Hm; [|done].
  by rewrite (Hk a w1).
Qed.

Lemma keeps_try_except {A} (body : M St A) handler :
  keeps f body -> (forall e, keeps f (handler e)) -> keeps f (try_except body handler).
Proof.
  intros Hb Hh w. unfold try_except. specialize (Hb w).
  destruct (body w) as [[a|e] w1]; simpl in Hb; [done|].
  by rewrite (Hh e w1).
Qed.

Lemma keeps_call {A} (h : St -> res A * St) : keeps f (call h).
Proof.
  apply keeps_quiet. intros w. unfold call. by destruct (h (env w)) as [[a|e] st].
Qed.

Lemma keeps_lift {A} (r : res A) : keeps f (lift (St:=St) r).
Proof. by destruct r; apply keeps_quiet. Qed.

Lemma keeps_modify_ui h :
  (forall g u, f g (h u) = f g u) -> keeps f (modify_ui (St:=St) h).
Proof. intros H w. apply H. Qed.

Lemma keeps_for_each {A} (xs : list A) body :
  (forall x, keeps f (body x)) -> keeps f (for_each (St:=St) xs body).
Proof.
  intros Hb. induction xs as [|x xs IH]; simpl.
  - apply keeps_ret.
  - apply keeps_bind; auto.
Qed.

Lemma keeps_fold_each {A B} (xs : list A) (acc : B) body :
  (forall b x, keeps f (body b x)) -> keeps f (fold_each (St:=St) xs acc body).
Proof.
  intros Hb. revert acc. induction xs as [|x xs IH]; intros acc; simpl.
  - apply keeps_ret.
  - apply keeps_bind; auto.
Qed.

Lemma keeps_map_each {A B} (xs : list A) (k : A -> M St B) :
  (forall x, keeps f (k x)) -> keeps f (map_each xs k).
Proof.
  intros Hk. induction xs as [|x xs IH]; simpl.
  - apply keeps_ret.
  - apply keeps_bind; [auto|]. intros y. apply keeps_bind; [auto|].
    intros ys. apply keeps_ret.
Qed.

Lemma keeps_sq_execute c s : keeps f (sq_execute sq c s).
Proof.
  apply keeps_quiet. intros w. rewrite sq_execute_eq.
  by destruct (execute sq c s (env w)) as [[cur|e] st].
Qed.

Lemma keeps_sq_executescript c s : keeps f (sq_executescript sq c s).
Proof.
  apply keeps_quiet. intros w. unfold sq_executescript, bind, emit, call. simpl.
  by destruct (executescript sq c s (env w)) as [[u|e] st].
Qed.

Lemma keeps_sq_commit c : keeps f (sq_commit sq c).
Proof.
  apply keeps_quiet. intros w. rewrite sq_commit_eq.
  by destruct (commit sq c (env w)) as [[u|e] st].
Qed.

Lemma keeps_get_db_conn : keeps f (get_db_conn sq).
Proof.
  apply keeps_quiet. intros w. rewrite get_db_conn_eq.
  destruct (connect sq _ (env w)) as [[c|e] st1]; [|done].
  by destruct (execute sq c PragmaForeignKeysOn st1) as [[cur|e] st2].
Qed.

Lemma keeps_with_conn {A} (body : nat -> M St A) :
  (forall c, keeps f (body c)) -> keeps f (with_conn sq body).
Proof.
  intros Hb w. rewrite with_conn_eq.
  pose proof (keeps_get_db_conn w) as H1.
  destruct (get_db_conn sq w) as [[c|e] w1]; simpl in H1; [|done].
  pose proof (Hb c w1) as H2.
  destruct (body c w1) as [[a|e] w2]; simpl in H2.
  - pose proof (keeps_sq_commit c w2) as H3.
    destruct (sq_commit sq c w2) as [[u|e] w3]; simpl in *; congruence.
  - simpl. congruence.
Qed.

Lemma keeps_with_open {A} file (body : M St A) :
  keeps f body -> keeps f (with_open sq file body).
Proof.
  intros Hb. unfold with_open. apply keeps_bind; [apply keeps_call|]. intros _.
  apply keeps_bind; [by apply keeps_quiet|]. intros _ w.
  specialize (Hb w). by destruct (body w) as [[a|e] w1].
Qed.

End Keeps.

Ltac keeps_step :=
  lazymatch goal with
  | |- keeps _ (ret _) => apply keeps_ret
  | |- keeps _ (bind _ _) => apply keeps_bind; [|intros ?]
  | |- keeps _ (emit _) => by apply keeps_quiet
  | |- keeps _ (raise _) => by apply keeps_quiet
  | |- keeps _ (reraise _) => by apply keeps_quiet
  | |- keeps _ (call _) => apply keeps_call
  | |- keeps _ (try_except _ _) => apply keeps_try_except; [|intros ?]
  | |- keeps _ get_ui => by apply keeps_quiet
  | |- keeps _ get_globals => by apply keeps_quiet
  | |- keeps _ (sq_total_changes _ _) => by apply keeps_quiet
  | |- keeps _ (exists_current_db _) => by apply keeps_quiet
  | |- keeps _ (sq_execute _ _ _) => apply keeps_sq_execute
  | |- keeps _ (sq_executescript _ _ _) => apply keeps_sq_executescript
  | |- keeps _ (sq_commit _ _) => apply keeps_sq_commit
  | |- keeps _ (with_conn _ _) => apply keeps_with_conn; intros ?
  | |- keeps _ (with_open _ _ _) => apply keeps_with_open
  | |- keeps _ (lift _) => apply keeps_lift
  | |- keeps _ (for_each _ _) => apply keeps_for_each; intros ?
  | |- keeps _ (fold_each _ _ _) => apply keeps_fold_each; intros ? ?
  | |- keeps _ (map_each _ _) => apply keeps_map_each; intros ?
  | |- keeps _ (if ?b then _ else _) => destruct b
  | |- keeps _ (match ?x with _ => _ end) => destruct x
  | |- keeps _ (let '_ := ?x in _) => destruct x
  | |- keeps _ (modify_ui _) => apply keeps_modify_ui; intros ? ?; auto
  end.

Ltac keeps_op := repeat first [ progress cbv zeta | keeps_step ].

Section KeepsOperations.
Context {X : Type} (f : DbName.globals -> widgets -> X).

(** What [f] must not read for an operation to keep it. *)
Hypothesis f_grid_browse : forall v g u, f g (set_grid_browse v u) = f g u.
Hypothesis f_grid_items : forall v g u, f g (set_grid_items v u) = f g u.
Hypothesis f_status : forall v g u, f g (set_status v u) = f g u.

Lemma keeps_render_grid gr cols rows : keeps f (_render_grid (St:=St) gr cols rows).
Proof. unfold _render_grid, row_values. destruct gr; keeps_op. Qed.

Lemma keeps_reload_items : keeps f (reload_items sq).
Proof.
  unfold reload_items, description_names.
  repeat first [ apply keeps_render_grid | progress cbv zeta | keeps_step ].
Qed.

Lemma keeps_load_table_rows : keeps f (load_table_rows sq).
Proof.
  unfold load_table_rows, showerror, _status.
  repeat first [ apply keeps_render_grid | progress cbv zeta | keeps_step ].
Qed.

Lemma keeps_writerow file fields : keeps f (writerow sq file fields).
Proof. unfold writerow. keeps_op. Qed.

Lemma keeps_first_pk pkinfo : keeps f (first_pk (St:=St) pkinfo).
Proof.
  induction pkinfo as [|c rest IH]; simpl; [apply keeps_ret|].
  apply keeps_bind; [apply keeps_lift|]. intros pk.
  destruct (eq_int pk 1); [apply keeps_lift|apply IH].
Qed.

Lemma keeps_delete_selected_row : keeps f (delete_selected_row sq).
Proof.
  unfold delete_selected_row, find_pk_col, delete_try, showerror, showwarning,
    showinfo, _status.
  repeat first [ apply keeps_load_table_rows | apply keeps_first_pk
               | progress cbv zeta | keeps_step ].
Qed.

Lemma keeps_export_csv_current file : keeps f (export_csv_current sq file).
Proof.
  unfold export_csv_current, export_csv_try, description_names, row_values,
    showerror, showinfo, _status.
  repeat first [ apply keeps_writerow | progress cbv zeta | keeps_step ].
Qed.

Hypothesis f_tree : forall v g u, f g (set_tree v u) = f g u.
Hypothesis f_cmb_tables : forall v g u, f g (set_cmb_tables v u) = f g u.
Hypothesis f_cmb_tables_values : forall v g u, f g (set_cmb_tables_values v u) = f g u.
Hypothesis f_er_canvas : forall v g u, f g (set_er_canvas v u) = f g u.
Hypothesis f_er_info : forall v g u, f g (set_er_info v u) = f g u.
Hypothesis f_result : forall v g u, f g (set_result v u) = f g u.
Hypothesis f_ent_name : forall v g u, f g (set_ent_name v u) = f g u.
Hypothesis f_ent_desc : forall v g u, f g (set_ent_desc v u) = f g u.

Lemma keeps_refresh_schema : keeps f (refresh_schema sq).
Proof.
  unfold refresh_schema, column_tree_label, fk_tree_label, tree_insert.
  repeat first [ apply keeps_load_table_rows | apply keeps_reload_items
               | progress cbv zeta | keeps_step ].
Qed.

Lemma keeps_build_er_diagram : keeps f (build_er_diagram sq).
Proof. unfold build_er_diagram, decode_column, decode_fk. keeps_op. Qed.

Lemma keeps_add_item : keeps f (add_item sq).
Proof.
  unfold add_item, showerror, showwarning, showinfo.
  repeat first [ apply keeps_reload_items | progress cbv zeta | keeps_step ].
Qed.

Lemma keeps_run_sql : keeps f (run_sql sq).
Proof.
  unfold run_sql, run_sql_execute, run_statement, show_result, row_values,
    showerror, _status.
  repeat first [ apply keeps_refresh_schema | apply keeps_build_er_diagram
               | progress cbv zeta | keeps_step ].
Qed.

Lemma keeps_perform op : keeps f (perform sq op).
Proof.
  destruct op; simpl;
    auto using keeps_refresh_schema, keeps_load_table_rows,
      keeps_delete_selected_row, keeps_export_csv_current, keeps_add_item,
      keeps_reload_items, keeps_run_sql, keeps_build_er_diagram.
Qed.

End KeepsOperations.

(** X10: no operation rebinds [CURRENT_DB] or [DATA_DIR], and none
    changes what the user typed into the SQL editor or into the filter
    entry, whether it succeeds or fails: the database in use changes
    only through [set_current_db], and the filter of the Browse tab
    stays in force when [refresh_schema] selects another table. *)
Theorem operations_keep_the_inputs (w : world St) (op : operation) :
  let w' := (perform sq op w).2 in
  globals w' = globals w
  /\ txt_sql (ui w') = txt_sql (ui w)
  /\ ent_filter (ui w') = ent_filter (ui w).
Proof.
  assert (H : keeps inputs (perform sq op)) by (by apply keeps_perform).
  specialize (H w). unfold inputs in H. by injection H.
Qed.

(** *** Adding an item *)

(** X11: [add_item] clears the two entries of the form exactly when
    the item was stored.  Then one [INSERT] with the trimmed name and
    description was executed and committed on a fresh connection, the
    item grid was reloaded without any dialog, and the confirmation is
    the last event.  On every other path (a blank name, a failure of
    the connection or of a statement) no confirmation is shown, the
    last event is the warning or the error dialog, and the entries
    hold what the user typed. *)
Theorem add_item_clears_the_form_on_success_only (w : world St) :
  let name := strip (ent_name (ui w)) in
  let desc := strip (ent_desc (ui w)) in
  let w' := (add_item sq w).2 in
  exists evs,
    trace w' = trace w ++ evs /\
    ((exists c reload,
        evs = item_added c name desc ++ reload
                ++ [MessageBox Info APP_TITLE "Item hinzugefügt."]
        /\ Forall (fun ev => ~ is_messagebox ev) reload
        /\ ent_name (ui w') = "" /\ ent_desc (ui w') = "")
     \/ (Forall (fun ev => ~ is_info ev) evs
         /\ (exists i message,
               i <> Info /\ last evs = Some (MessageBox i APP_TITLE message))
         /\ ent_name (ui w') = ent_name (ui w)
         /\ ent_desc (ui w') = ent_desc (ui w))).
Proof.
  intros name desc. cbv zeta.
  destruct (add_item sq w) as [r w'] eqn:Hrun. cbn [snd].
  unfold add_item in Hrun. rewrite bind_get_ui in Hrun. cbv zeta in Hrun.
  fold name desc in Hrun.
  destruct (String.eqb name "").
  { injection Hrun as <- <-.
    exists [MessageBox Warning APP_TITLE "Name erforderlich."]. split; [done|].
    right. split; [apply Forall_cons_2; [simpl; tauto|constructor]|]. split; [|done].
    by exists Warning, "Name erforderlich.". }
  unfold try_except in Hrun. unfold bind at 1 in Hrun.
  set (block := with_conn sq _) in Hrun.
  assert (Hkeep : keeps item_form block) by (subst block; keeps_op).
  assert (Hemit : emits_only (fun ev => ~ is_info ev) block).
  { subst block. apply emits_with_conn; [intros; simpl; tauto..|]. intros c.
    repeat (apply emits_bind; [apply emits_sq_execute; intros; simpl; tauto|intros _]).
    apply emits_sq_commit; intros; simpl; tauto. }
  specialize (Hkeep w). destruct (Hemit w) as (evs1 & E1 & F1). clear Hemit.
  destruct (block w) as [[[]|e] w1] eqn:Hblock; cbn [fst snd] in *.
  - (* the item is stored *)
    subst block. apply with_conn_ok in Hblock as (c & wa & wb & Hg & Hb & Hc).
    apply get_db_conn_ok in Hg as (st1 & cur0 & st2 & _ & _ & ->).
    apply bind_ok_inv in Hb as (cur1 & wc & H1 & Hb).
    apply sq_execute_ok in H1 as (st3 & _ & ->).
    apply bind_ok_inv in Hb as (cur2 & wd & H2 & Hb).
    apply sq_execute_ok in H2 as (st4 & _ & ->).
    apply sq_commit_ok in Hb as (st5 & _ & ->).
    apply sq_commit_ok in Hc as (st6 & _ & ->). cbn [env globals ui trace] in *.
    clear E1 F1. unfold bind, modify_ui in Hrun. cbn [env globals ui trace] in Hrun.
    match type of Hrun with context [reload_items sq ?w0] =>
      pose proof (reload_items_returns w0) as Hr;
      pose proof (keeps_reload_items item_form ltac:(done) ltac:(done) w0) as Hk;
      destruct (emits_reload_items sq (fun ev => ~ is_messagebox ev)) with (w := w0)
        as (reload & E & F); try (intros; simpl; tauto);
      destruct (reload_items sq w0) as [[[]|e] w2]; [|discriminate Hr]
    end.
    cbn [fst snd env globals ui trace] in *. unfold showinfo, emit in Hrun.
    injection Hrun as <- <-. cbn [env globals ui trace].
    exists (item_added c name desc ++ reload
              ++ [MessageBox Info APP_TITLE "Item hinzugefügt."]).
    split.
    { rewrite E. unfold item_added. by rewrite <- !app_assoc. }
    left. exists c, reload. unfold item_form in Hk. by injection Hk as Hn Hd.
  - (* a failure *)
    unfold showerror, emit in Hrun. injection Hrun as <- <-.
    cbn [fst snd env globals ui trace].
    eexists. split; [by rewrite E1, <- app_assoc|]. right.
    unfold item_form in Hkeep. injection Hkeep as Hn Hd.
    split; [apply Forall_app; split; [done|apply Forall_cons_2; [simpl; tauto|constructor]]|].
    split; [|done]. eexists Error, _. split; [done|]. apply last_snoc.
Qed.

(** *** Loading the rows of a table *)

Lemma render_rows_loop gr cols rows : forall (w : world St),
  Forall (fun r => lookup_all r cols = Ok (values r)) rows ->
  for_each rows (fun r =>
    let* vals := row_values cols r in
    modify_ui (fun u => set_grid gr (insert_item vals (get_grid gr u)) u)) w
  = (Ok tt,
     World (env w) (globals w)
       (set_grid gr
          (Grid (columns (get_grid gr (ui w)))
             (items (get_grid gr (ui w)) ++ map values rows)
             (selection (get_grid gr (ui w)))) (ui w))
       (trace w)).
Proof.
  induction rows as [|r rows IH]; intros w Hall; simpl.
  - rewrite app_nil_r.
    by destruct gr, w as [st g [? ? ? [] [] ? ? ? ? ? ? ? ? ?] tr].
  - apply Forall_cons in Hall as [Hr Hall].
    unfold bind at 1. unfold bind at 1.
    rewrite (row_values_lookup_all _ _ _ _ Hr). unfold modify_ui at 1.
    rewrite IH by assumption. simpl.
    destruct gr, w as [st g [? ? ? [] [] ? ? ? ? ? ? ? ? ?] tr]; simpl;
      by rewrite <- app_assoc.
Qed.

(** X12: when the connection, the pragma, the query and the commit
    succeed, [load_table_rows] replaces the browse grid by the columns
    of the answer and its rows, in the order of the answer and with
    nothing selected, and reports their number in the status line.  The
    query is [SELECT * FROM t], with [WHERE] and the trimmed filter
    when the filter entry is not blank.  (The answer has no column name
    twice, case apart, and one value per column in every row.) *)
Theorem load_table_rows_shows_the_rows (w : world St) (t : string)
    (conn : nat) (cur0 cur : cursor) (st1 st2 st3 st4 : St) (cols : list string) :
  strip (cmb_tables (ui w)) = t -> t <> "" ->
  let query := SelectAllFrom t (strip (ent_filter (ui w))) in
  connect sq (DbName.CURRENT_DB (globals w)) (env w) = (Ok conn, st1) ->
  execute sq conn PragmaForeignKeysOn st1 = (Ok cur0, st2) ->
  execute sq conn query st2 = (Ok cur, st3) ->
  commit sq conn st3 = (Ok tt, st4) ->
  description cur = Some cols -> NoDup (map lower cols) ->
  Forall (fun r => length r = length cols) (fetchall cur) ->
  load_table_rows sq w =
    (Ok tt,
     World st4 (globals w)
       (set_status
          (pretty (length (fetchall cur)) +:+ " Zeilen aus '" +:+ t +:+ "' geladen.")
          (set_grid_browse (Grid cols (fetchall cur) []) (ui w)))
       (trace w ++ one_statement conn query ++ [GridReset GridBrowse cols])).
Proof.
  intros Ht Hne query Hc Hp Hq Hm Hd Hnd Hlen.
  unfold load_table_rows. rewrite bind_get_ui. cbv zeta. rewrite Ht.
  apply String.eqb_neq in Hne. rewrite Hne. fold query.
  unfold try_except. unfold bind at 1.
  rewrite with_conn_eq, get_db_conn_eq, Hc, Hp.
  unfold bind at 1. rewrite sq_execute_eq. cbn [env globals ui trace]. rewrite Hq.
  unfold ret at 1. rewrite sq_commit_eq. cbn [env globals ui trace]. rewrite Hm.
  rewrite Hd. cbn [default]. unfold _render_grid.
  unfold bind at 1. unfold bind at 1. unfold emit at 1.
  unfold bind at 1. unfold modify_ui at 1. cbn [env globals ui trace].
  rewrite render_rows_loop.
  - unfold _status, modify_ui. cbn [env globals ui trace get_grid set_grid].
    unfold rows_of. rewrite Hd. cbn [default]. rewrite length_map, map_map.
    cbn [values]. rewrite map_id. unfold one_statement.
    rewrite <- !app_assoc. reflexivity.
  - unfold rows_of. rewrite Hd. cbn [default]. apply Forall_map.
    eapply Forall_impl; [exact Hlen|]. intros r Hr. cbn [values].
    by apply lookup_all_values.
Qed.

(** *** Without a database file, and with one that cannot be opened *)

Lemma refresh_schema_no_file (w : world St) :
  db_exists sq (DbName.CURRENT_DB (globals w)) (env w) = false ->
  refresh_schema sq w =
    (Ok tt,
     World (env w) (globals w)
       (set_cmb_tables_values [] (set_cmb_tables "" (set_tree [] (ui w)))) (trace w)).
Proof.
  intros H. unfold refresh_schema, bind, modify_ui, exists_current_db.
  cbn [env globals ui trace]. by rewrite H.
Qed.

Lemma build_er_diagram_no_file (w : world St) :
  db_exists sq (DbName.CURRENT_DB (globals w)) (env w) = false ->
  build_er_diagram sq w =
    (Ok tt,
     World (env w) (globals w)
       (set_er_info "Keine DB." (set_er_canvas [] (ui w))) (trace w)).
Proof.
  intros H. unfold build_er_diagram, bind, modify_ui, exists_current_db.
  cbn [env globals ui trace]. by rewrite H.
Qed.

(** X13: when the file [CURRENT_DB] names does not exist,
    [refresh_schema] empties the schema tree and the combobox and
    returns, without reloading the item grid, and [build_er_diagram]
    empties the canvas and writes "Keine DB."; neither opens a
    connection or shows a dialog. *)
Theorem without_database_file (w : world St) :
  db_exists sq (DbName.CURRENT_DB (globals w)) (env w) = false ->
  refresh_schema sq w =
    (Ok tt,
     World (env w) (globals w)
       (set_cmb_tables_values [] (set_cmb_tables "" (set_tree [] (ui w)))) (trace w))
  /\ build_er_diagram sq w =
    (Ok tt,
     World (env w) (globals w)
       (set_er_info "Keine DB." (set_er_canvas [] (ui w))) (trace w)).
Proof.
  intros H. split; [by apply refresh_schema_no_file|by apply build_er_diagram_no_file].
Qed.

(** X14: [refresh_schema] and [build_er_diagram] have no handler of
    their own.  When the file exists and the connection fails, the
    exception leaves the operation, after the tree and the combobox,
    or the canvas, were emptied: no dialog is shown, no roll-back
    happens, the item grid is not reloaded and the line under the
    diagram keeps its text. *)
Theorem connection_failure_leaves_refresh (w : world St) (e : exn) (st1 : St) :
  db_exists sq (DbName.CURRENT_DB (globals w)) (env w) = true ->
  connect sq (DbName.CURRENT_DB (globals w)) (env w) = (Raise e, st1) ->
  refresh_schema sq w =
    (Raise e,
     World st1 (globals w)
       (set_cmb_tables_values [] (set_cmb_tables "" (set_tree [] (ui w))))
       (trace w ++ [Raised e]))
  /\ build_er_diagram sq w =
    (Raise e,
     World st1 (globals w) (set_er_canvas [] (ui w)) (trace w ++ [Raised e])).
Proof.
  intros Hx Hc. split.
  - unfold refresh_schema. unfold bind at 1. unfold modify_ui at 1.
    unfold bind at 1. unfold modify_ui at 1.
    unfold bind at 1. unfold modify_ui at 1.
    unfold bind at 1. unfold exists_current_db at 1. cbn [env globals ui trace].
    rewrite Hx. cbn [negb]. unfold bind at 1.
    rewrite with_conn_eq, get_db_conn_eq. cbn [env globals ui trace]. by rewrite Hc.
  - unfold build_er_diagram. unfold bind at 1. unfold modify_ui at 1.
    unfold bind at 1. unfold exists_current_db at 1. cbn [env globals ui trace].
    rewrite Hx. cbn [negb]. unfold bind at 1.
    rewrite with_conn_eq, get_db_conn_eq. cbn [env globals ui trace]. by rewrite Hc.
Qed.

(** *** Nothing chosen, nothing typed *)

(** X15: the guards at the head of the operations.  With no table
    chosen in the Browse tab, loading and deleting do nothing at all
    and the export only asks for a table; with a table but no selected
    row, deleting only asks for a row; with a cancelled save dialog the
    export does nothing; with a blank name, adding an item only warns.
    None of these paths opens a connection or a file. *)
Theorem guards_touch_nothing (w : world St) :
  let said i message :=
    (Ok tt, World (env w) (globals w) (ui w)
              (trace w ++ [MessageBox i APP_TITLE message])) in
  (strip (cmb_tables (ui w)) = "" ->
     load_table_rows sq w = (Ok tt, w)
     /\ delete_selected_row sq w = (Ok tt, w)
     /\ forall file, export_csv_current sq file w
          = said Info "Bitte im Browse-Tab zuerst eine Tabelle wählen.")
  /\ (strip (cmb_tables (ui w)) <> "" ->
      (selection (grid_browse (ui w)) = [] ->
         delete_selected_row sq w = said Info "Bitte eine Zeile im Browse-Tab auswählen.")
      /\ export_csv_current sq "" w = (Ok tt, w))
  /\ (strip (ent_name (ui w)) = "" ->
      add_item sq w = said Warning "Name erforderlich.").
Proof.
  intros said. split; [|split].
  - intros Ht. unfold load_table_rows, delete_selected_row, export_csv_current.
    rewrite !bind_get_ui. cbv zeta. rewrite Ht. cbn [String.eqb].
    repeat split. intros file. rewrite bind_get_ui. by rewrite Ht.
  - intros Ht. apply String.eqb_neq in Ht. split.
    + intros Hs. unfold delete_selected_row. rewrite bind_get_ui. cbv zeta.
      by rewrite Ht, Hs.
    + unfold export_csv_current. rewrite bind_get_ui. cbv zeta. rewrite Ht.
      cbn [String.eqb]. by destruct w.
  - intros Hn. unfold add_item. rewrite bind_get_ui. cbv zeta. by rewrite Hn.
Qed.

(** *** The schema tree and the combobox *)

Lemma top_level_below tree depth text :
  depth <> 0%nat -> top_level (tree ++ [(depth, text)]) = top_level tree.
Proof.
  intros Hd. unfold top_level. rewrite List.filter_app, map_app. cbn [List.filter fst].
  destruct depth; [done|]. cbn [Nat.eqb map]. apply app_nil_r.
Qed.

Lemma top_level_table tree text :
  top_level (tree ++ [(0%nat, text)]) = top_level tree ++ [text].
Proof. unfold top_level. by rewrite List.filter_app, map_app. Qed.

(** The loop of [refresh_schema] over the tables: what it returns and
    what it adds to the tree at depth 0. *)
Lemma schema_loop_ok conn rows : forall names (w : world St) names' w',
  fold_each rows names (fun names t =>
      let* tname := lift (getitem t "name") in
      tree_insert 0 (str tname);;
      let* cur := sq_execute sq conn (PragmaTableInfo (str tname)) in
      for_each (rows_of cur) (fun c =>
        let* label := column_tree_label c in tree_insert 1 label);;
      let* cur := sq_execute sq conn (PragmaForeignKeyList (str tname)) in
      let fks := rows_of cur in
      match fks with
      | [] => ret tt
      | _ => tree_insert 1 "Foreign Keys";;
             for_each fks (fun fk => let* label := fk_tree_label fk in tree_insert 2 label)
      end;;
      ret (names ++ [str tname])) w = (Ok names', w') ->
  names' = names ++ map table_name rows
  /\ top_level (tree (ui w')) = top_level (tree (ui w)) ++ map table_name rows
  /\ cmb_tables (ui w') = cmb_tables (ui w)
  /\ cmb_tables_values (ui w') = cmb_tables_values (ui w).
Proof.
  induction rows as [|t rows IH]; intros names w names' w' H.
  - injection H as <- <-. by rewrite !app_nil_r.
  - cbn [fold_each] in H. apply bind_ok_inv in H as (acc & w1 & Hbody & Hrest).
    apply IH in Hrest as (-> & Htree & Hcmb & Hvals). clear IH.
    apply bind_ok_inv in Hbody as (tname & w0 & Hname & Hbody).
    assert (Ht : table_name t = str tname /\ w0 = w).
    { unfold table_name, lift in *. destruct (getitem t "name") as [v|e]; [|done].
      by injection Hname as <- <-. }
    destruct Ht as [Ht ->]. clear Hname.
    apply bind_ok_inv in Hbody as ([] & wa & Hins & Hbody).
    injection Hins as <-.
    match type of Hbody with
    | ?m _ = _ =>
        assert (Hk : keeps (fun (g : DbName.globals) u =>
                              (top_level (tree u), cmb_tables u, cmb_tables_values u)) m)
    end.
    { unfold column_tree_label, fk_tree_label, tree_insert. keeps_op;
        cbn [tree set_tree cmb_tables cmb_tables_values];
        by rewrite top_level_below. }
    match type of Hbody with ?m ?w0 = _ => specialize (Hk w0) end.
    assert (Hacc : acc = names ++ [str tname]).
    { apply bind_ok_inv in Hbody as (? & ? & _ & Hbody).
      apply bind_ok_inv in Hbody as (? & ? & _ & Hbody).
      apply bind_ok_inv in Hbody as (? & ? & _ & Hbody).
      apply bind_ok_inv in Hbody as (? & ? & _ & Hbody).
      by injection Hbody as <- _. }
    rewrite Hbody in Hk. cbn [fst snd ui tree set_tree cmb_tables cmb_tables_values] in Hk.
    injection Hk as Hk1 Hk2 Hk3. rewrite top_level_table in Hk1.
    rewrite Htree, Hk1, Hcmb, Hk2, Hvals, Hk3, Hacc. cbn [map]. rewrite Ht.
    by rewrite <- !app_assoc.
Qed.

(** X16: a [refresh_schema] that ends normally on an existing file
    leaves in the combobox of the Browse tab the names the catalog
    query answered, in its order (the order of the names), with the
    first of them chosen, or nothing when there is no table; the nodes
    of the schema tree at depth 0 are the same names in the same
    order. *)
Theorem refresh_schema_lists_the_tables (w w' : world St)
    (conn : nat) (cur0 cur : cursor) (st1 st2 st3 : St) :
  db_exists sq (DbName.CURRENT_DB (globals w)) (env w) = true ->
  connect sq (DbName.CURRENT_DB (globals w)) (env w) = (Ok conn, st1) ->
  execute sq conn PragmaForeignKeysOn st1 = (Ok cur0, st2) ->
  execute sq conn SelectTables st2 = (Ok cur, st3) ->
  refresh_schema sq w = (Ok tt, w') ->
  let names := map table_name (rows_of cur) in
  cmb_tables_values (ui w') = names
  /\ cmb_tables (ui w') = default "" (head names)
  /\ top_level (tree (ui w')) = names.
Proof.
  intros Hx Hc Hp Hq Hrun names.
  unfold refresh_schema in Hrun.
  unfold bind at 1 in Hrun. unfold modify_ui at 1 in Hrun.
  unfold bind at 1 in Hrun. unfold modify_ui at 1 in Hrun.
  unfold bind at 1 in Hrun. unfold modify_ui at 1 in Hrun.
  unfold bind at 1 in Hrun. unfold exists_current_db at 1 in Hrun.
  cbn [env globals ui trace] in Hrun. rewrite Hx in Hrun. cbn [negb] in Hrun.
  apply bind_ok_inv in Hrun as ([] & w1 & Hblock & Hreload).
  pose proof (keeps_reload_items schema_view ltac:(done) ltac:(done) w1) as Hk.
  rewrite Hreload in Hk. unfold schema_view in Hk. cbn [snd] in Hk.
  injection Hk as -> -> ->. clear Hreload.
  apply with_conn_ok in Hblock as (c & wa & wb & Hg & Hb & Hcm).
  rewrite get_db_conn_eq in Hg. cbn [env globals ui trace] in Hg.
  rewrite Hc, Hp in Hg. injection Hg as <- <-.
  apply sq_commit_ok in Hcm as (st & _ & ->). cbn [ui].
  apply bind_ok_inv in Hb as (cur' & wc & Hsel & Hb).
  apply sq_execute_ok in Hsel as (st3' & Hq' & ->). cbn [env] in Hq'.
  rewrite Hq in Hq'. injection Hq' as <- <-.
  apply bind_ok_inv in Hb as (names' & wd & Hloop & Hb).
  apply schema_loop_ok in Hloop as (Hn & Htree & Hcmb & Hvals).
  cbn [ui tree set_tree cmb_tables cmb_tables_values set_cmb_tables
       set_cmb_tables_values app] in *.
  fold names in Hn, Htree. subst names'.
  apply bind_ok_inv in Hb as ([] & we & Hset & Hb). injection Hset as <-.
  destruct names as [|n0 names0] eqn:Hnames.
  - injection Hb as <-. cbn [ui tree cmb_tables cmb_tables_values
      set_cmb_tables_values default head]. by rewrite Htree, Hcmb.
  - apply bind_ok_inv in Hb as ([] & wf & Hset & Hb). injection Hset as <-.
    pose proof (keeps_load_table_rows schema_view ltac:(done) ltac:(done) ltac:(done)) as Hk.
    match type of Hb with _ ?w0 = _ => specialize (Hk w0) end.
    rewrite Hb in Hk. unfold schema_view in Hk.
    cbn [snd ui tree cmb_tables cmb_tables_values set_cmb_tables
         set_cmb_tables_values] in Hk.
    injection Hk as -> -> ->. by rewrite Htree.
Qed.

(** *** The diagram on the canvas *)

Lemma map_each_ok {A B} (g : B -> A) (f : A -> M St B) :
  (forall x y w1 w2, f x w1 = (Ok y, w2) -> g y = x) ->
  forall xs (w : world St) ys w',
    map_each xs f w = (Ok ys, w') -> map g ys = xs.
Proof.
  intros Hf. induction xs as [|x xs IH]; intros w ys w' H.
  - by injection H as <- _.
  - cbn [map_each] in H. apply bind_ok_inv in H as (y & w1 & Hy & H).
    apply bind_ok_inv in H as (ys' & w2 & Hys & H). injection H as <- _.
    cbn [map]. by rewrite (Hf _ _ _ _ Hy), (IH _ _ _ Hys).
Qed.

Lemma table_names_ok rows : forall (w : world St) tables w',
  map_each rows (fun r => let* name := lift (getitem r "name") in ret (str name)) w
    = (Ok tables, w') ->
  tables = map table_name rows.
Proof.
  induction rows as [|r rows IH]; intros w tables w' H.
  - by injection H as <- _.
  - cbn [map_each] in H. apply bind_ok_inv in H as (y & w1 & Hy & H).
    apply bind_ok_inv in H as (ys' & w2 & Hys & H). injection H as <- _.
    apply IH in Hys as ->. cbn [map]. f_equal.
    apply bind_ok_inv in Hy as (name & w3 & Hname & Hy). injection Hy as <- _.
    unfold table_name, lift in *.
    destruct (getitem r "name") as [v|e]; [by injection Hname as <- _|discriminate Hname].
Qed.

(** X17: a [build_er_diagram] that ends normally on an existing file
    leaves on the canvas exactly the drawing [render] makes, for the
    width the canvas reports, of a catalog whose tables are the names
    the catalog query answered, in its order; the line under the
    diagram names the file of [CURRENT_DB]. *)
Theorem build_er_diagram_draws_the_catalog (w w' : world St)
    (conn : nat) (cur0 cur : cursor) (st1 st2 st3 : St) :
  db_exists sq (DbName.CURRENT_DB (globals w)) (env w) = true ->
  connect sq (DbName.CURRENT_DB (globals w)) (env w) = (Ok conn, st1) ->
  execute sq conn PragmaForeignKeysOn st1 = (Ok cur0, st2) ->
  execute sq conn SelectTables st2 = (Ok cur, st3) ->
  build_er_diagram sq w = (Ok tt, w') ->
  exists catalog,
    map Er.t_name catalog = map table_name (rows_of cur)
    /\ er_canvas (ui w') = (Er.render (er_canvas_winfo_width (ui w)) catalog).1
    /\ er_info (ui w')
       = "Generiert aus: " +:+ default "" (last (DbName.CURRENT_DB (globals w))).
Proof.
  intros Hx Hc Hp Hq Hrun.
  unfold build_er_diagram in Hrun.
  unfold bind at 1 in Hrun. unfold modify_ui at 1 in Hrun.
  unfold bind at 1 in Hrun. unfold exists_current_db at 1 in Hrun.
  cbn [env globals ui trace] in Hrun. rewrite Hx in Hrun. cbn [negb] in Hrun.
  apply bind_ok_inv in Hrun as (catalog & w1 & Hblock & Hrun).
  match type of Hblock with
  | ?m _ = _ => assert (Hk : keeps program_state m)
  end.
  { unfold decode_column, decode_fk. keeps_op. }
  match type of Hblock with ?m ?w0 = _ => specialize (Hk w0) end.
  rewrite Hblock in Hk. unfold program_state in Hk. cbn [snd globals ui] in Hk.
  injection Hk as Hg Hu.
  unfold bind, get_ui, modify_ui, get_globals in Hrun. injection Hrun as <-.
  cbn [ui]. rewrite Hu, Hg. exists catalog. split; [|done].
  apply with_conn_ok in Hblock as (c & wa & wb & Hgc & Hb & _).
  rewrite get_db_conn_eq in Hgc. cbn [env globals ui trace] in Hgc.
  rewrite Hc, Hp in Hgc. injection Hgc as <- <-.
  apply bind_ok_inv in Hb as (cur' & wc & Hsel & Hb).
  apply sq_execute_ok in Hsel as (st3' & Hq' & ->). cbn [env] in Hq'.
  rewrite Hq in Hq'. injection Hq' as <- <-.
  apply bind_ok_inv in Hb as (tables & wd & Hnames & Hb).
  apply table_names_ok in Hnames as ->.
  apply (map_each_ok Er.t_name) in Hb; [done|].
  intros t d w2 w3 Hd.
  apply bind_ok_inv in Hd as (? & ? & _ & Hd).
  apply bind_ok_inv in Hd as (? & ? & _ & Hd).
  apply bind_ok_inv in Hd as (? & ? & _ & Hd).
  apply bind_ok_inv in Hd as (? & ? & _ & Hd).
  by injection Hd as <- _.
Qed.

(** *** What happens only after the commit *)

Lemma grows_of_emits {A} (m : M St A) :
  emits_only (fun _ => True) m -> forall w, exists evs, trace (m w).2 = trace w ++ evs.
Proof. intros H w. destruct (H w) as (evs & E & _). eauto. Qed.

Lemma description_names_ok cur (w : world St) cols w' :
  description_names cur w = (Ok cols, w') -> w' = w /\ description cur = Some cols.
Proof.
  unfold description_names. destruct (description cur) as [d|]; [|discriminate].
  by intros [= <- <-].
Qed.

(** X25: [export_csv_current] opens the file only after the query was
    answered and its connection committed: the events of the export
    are those of the query, none of which touches a file, followed,
    only when the query went through to its commit, by those of the
    file.  A failure of the connection or of the query leaves an
    existing file as it was. *)
Theorem export_opens_the_file_after_the_query (w : world St) (file : string) :
  let t := strip (cmb_tables (ui w)) in
  exists before after,
    trace (export_csv_current sq file w).2 = trace w ++ before ++ after
    /\ Forall (fun ev => ~ file_event ev) before
    /\ (after = [] \/ exists c, before = one_statement c (SelectAllFrom t "")).
Proof.
  intros t. destruct (export_csv_current sq file w) as [r wf] eqn:Hrun. cbn [snd].
  unfold export_csv_current in Hrun. rewrite bind_get_ui in Hrun. cbv zeta in Hrun.
  fold t in Hrun. destruct (String.eqb t "").
  { injection Hrun as <- <-. eexists [_], []. rewrite app_nil_r.
    split; [reflexivity|]. split; [|by left].
    apply Forall_cons_2; [simpl; tauto|constructor]. }
  destruct (String.eqb file "").
  { injection Hrun as <- <-. exists [], []. rewrite !app_nil_r. by repeat split; [|left]. }
  unfold try_except, export_csv_try in Hrun. unfold bind at 1 in Hrun.
  set (query := with_conn sq _) in Hrun.
  assert (Hq : emits_only (fun ev => ~ file_event ev) query).
  { subst query. apply emits_with_conn; [intros; simpl; tauto..|]. intros c.
    apply emits_bind; [apply emits_sq_execute; intros; simpl; tauto|]. intros cur.
    apply emits_bind; [apply emits_description_names; intros; simpl; tauto|].
    intros cols. apply emits_ret. }
  destruct (Hq w) as (evs1 & E1 & F1). clear Hq.
  destruct (query w) as [[[cols rows]|e] w1] eqn:Hquery; cbn [fst snd] in *.
  - (* the query went through *)
    subst query. apply with_conn_ok in Hquery as (c & wa & wb & Hg & Hb & Hc).
    apply get_db_conn_ok in Hg as (st1 & cur0 & st2 & _ & _ & ->).
    apply bind_ok_inv in Hb as (cur & wc & Hsel & Hb).
    apply sq_execute_ok in Hsel as (st3 & _ & ->).
    apply bind_ok_inv in Hb as (cols' & wd & Hd & Hb).
    apply description_names_ok in Hd as [-> _]. injection Hb as _ _ <-.
    apply sq_commit_ok in Hc as (st4 & _ & ->). cbn [env globals ui trace] in *.
    match type of Hrun with
    | (let (_, _) := ?m ?w1 in _) = _ =>
        assert (Hg : emits_only (fun _ => True)
                       (try_except m (fun e =>
                          showerror APP_TITLE ("Exportfehler:" +:+ nl +:+ e_str e))));
        [|destruct (grows_of_emits _ Hg w1) as (after & Ea);
          unfold try_except in Ea; rewrite Hrun in Ea]
    end.
    { apply emits_try_except; [|intros e; by apply emits_emit].
      apply emits_bind; [|intros _; by apply emits_status].
      apply emits_with_open; try done.
      apply emits_bind; [by apply emits_writerow|]. intros _.
      apply emits_for_each. intros r0.
      apply emits_bind; [by apply emits_row_values|]. intros vals.
      by apply emits_writerow. }
    cbn [snd trace] in Ea. exists (one_statement c (SelectAllFrom t "")), after.
    split; [|split; [|right; by exists c]].
    + rewrite Ea. unfold one_statement. by rewrite <- !app_assoc.
    + unfold one_statement. repeat (apply Forall_cons_2; [simpl; tauto|]). constructor.
  - (* the query failed *)
    unfold showerror, emit in Hrun. injection Hrun as <- <-. cbn [trace].
    exists (evs1 ++ [MessageBox Error APP_TITLE ("Exportfehler:" +:+ nl +:+ e_str e)]), [].
    rewrite app_nil_r, E1, <- app_assoc. split; [done|]. split; [|by left].
    apply Forall_app. split; [done|]. apply Forall_cons_2; [simpl; tauto|constructor].
Qed.

Lemma run_sql_execute_commits conn sql (w : world St) out w' :
  run_sql_execute sq conn sql w = (Ok out, w') ->
  exists evs, trace w' = trace w ++ evs /\ Commit conn ∈ evs.
Proof.
  unfold run_sql_execute. intros H.
  assert (Hend : forall (m : M St (list string * list out_row)) w1,
             (forall w0, trace (m w0).2 = trace w0) ->
             (forall evs1, trace w1 = trace w ++ evs1 ->
              bind (sq_commit sq conn) (fun _ => m) w1 = (Ok out, w') ->
              exists evs, trace w' = trace w ++ evs /\ Commit conn ∈ evs)).
  { intros m w1 Hm evs1 E1 Hc.
    apply bind_ok_inv in Hc as ([] & w2 & Hc & Hr).
    apply sq_commit_ok in Hc as (st & _ & ->).
    specialize (Hm (World st (globals w1) (ui w1) (trace w1 ++ [Commit conn]))).
    rewrite Hr in Hm. cbn [snd trace] in Hm.
    exists (evs1 ++ [Commit conn]). rewrite Hm, E1, app_assoc. split; [done|].
    apply elem_of_app. right. apply elem_of_cons. by left. }
  destruct (script_branch sql).
  - apply bind_ok_inv in H as ([] & w1 & Hs & H).
    destruct (grows_of_emits (sq_executescript sq conn sql)
                ltac:(by apply emits_sq_executescript) w) as (evs1 & E1).
    rewrite Hs in E1. by apply (Hend (ret ([], [])) w1 ltac:(done) evs1 E1).
  - apply bind_ok_inv in H as ([[oc or] n] & w1 & Hs & H).
    match type of Hs with ?m _ = _ =>
      destruct (grows_of_emits m) with (w := w) as (evs1 & E1) end.
    { apply emits_fold_each. intros [[a b] k] stmt. unfold run_statement.
      destruct (startswith _ _ || startswith _ _).
      - apply emits_bind; [by apply emits_sq_execute|]. intros cur. apply emits_ret.
      - apply emits_bind; [by apply emits_sq_total_changes|]. intros x.
        apply emits_bind; [by apply emits_sq_execute|]. intros _.
        apply emits_bind; [by apply emits_sq_total_changes|]. intros y. apply emits_ret. }
    rewrite Hs in E1.
    eapply (Hend (match oc with
                  | [] => ret (["Info"], [info_row n])
                  | _ => ret (oc, or)
                  end) w1); [by destruct oc|exact E1|exact H].
Qed.

Lemma emits_show_result S cols rows :
  (forall e, S (Raised e)) -> emits_only S (show_result (St:=St) cols rows).
Proof.
  intros HS. unfold show_result.
  apply emits_bind; [apply emits_modify_ui|]. intros _.
  destruct cols as [|c cols]; [apply emits_ret|].
  apply emits_bind; [apply emits_modify_ui|]. intros _.
  apply emits_for_each. intros r.
  apply emits_bind; [|intros vals; apply emits_modify_ui].
  destruct r; [by apply emits_row_values|apply emits_ret].
Qed.

(** X26: [run_sql] changes no widget before something was committed.
    When no commit is among its events (the connection, the pragma, a
    statement or the script failed), the result grid, the schema tree,
    the combobox, the diagram and the status line are all as they
    were. *)
Theorem run_sql_changes_nothing_before_the_commit (w : world St) :
  exists evs,
    trace (run_sql sq w).2 = trace w ++ evs
    /\ ((forall c, Commit c ∉ evs) -> ui (run_sql sq w).2 = ui w).
Proof.
  destruct (grows_of_emits (run_sql sq) ltac:(by apply emits_run_sql) w) as (evs & E).
  exists evs. split; [exact E|]. intros Hno.
  destruct (run_sql sq w) as [r wf] eqn:Hrun. cbn [snd] in *.
  unfold run_sql in Hrun. rewrite bind_get_ui in Hrun. cbv zeta in Hrun.
  destruct (String.eqb _ ""); [by injection Hrun as <- <-|].
  unfold try_except in Hrun. unfold bind at 1 in Hrun.
  rewrite with_conn_eq, get_db_conn_eq in Hrun.
  destruct (connect sq _ (env w)) as [[c|e] st1]; [|by injection Hrun as <- <-].
  destruct (execute sq c PragmaForeignKeysOn st1) as [[cur0|e] st2];
    [|by injection Hrun as <- <-].
  unfold bind at 1 in Hrun.
  match type of Hrun with context [run_sql_execute sq c ?sql ?wa] =>
    pose proof (keeps_quiet program_state (run_sql_execute sq c sql)) as Hk;
    assert (Hkeep : keeps program_state (run_sql_execute sq c sql));
    [|clear Hk; specialize (Hkeep wa);
      destruct (run_sql_execute sq c sql wa) as [[[oc or]|e] wc] eqn:Hx]
  end.
  { unfold run_sql_execute, run_statement. keeps_op. }
  - (* the statements went through: something was committed *)
    exfalso. apply run_sql_execute_commits in Hx as (evs0 & E0 & Hin).
    cbn [trace] in E0.
    assert (Hrest : exists rest, trace wf = trace wc ++ rest).
    { destruct (grows_of_emits (show_result oc or)
                  ltac:(by apply emits_show_result) wc) as (e1 & E1).
      destruct (show_result oc or wc) as [[[]|e] wb]; cbn [snd] in E1.
      - rewrite sq_commit_eq in Hrun.
        destruct (commit sq c (env wb)) as [[[]|e] st3].
        + match type of Hrun with (let (_, _) := ?m ?w1 in _) = _ =>
            destruct (grows_of_emits m) with (w := w1) as (e2 & E2) end.
          { apply emits_bind; [by apply emits_refresh_schema|]. intros _.
            apply emits_bind; [by apply emits_build_er_diagram|]. intros _.
            apply emits_status. }
          match type of Hrun with (let (_, _) := ?m ?w1 in _) = _ =>
            destruct (m w1) as [[[]|e] w2] end; cbn [snd trace] in E2.
          * injection Hrun as _ <-. exists (e1 ++ [Commit c] ++ e2).
            by rewrite E2, E1, <- !app_assoc.
          * injection Hrun as _ <-. cbn [trace]. eexists.
            by rewrite E2, E1, <- !app_assoc.
        + injection Hrun as _ <-. cbn [trace]. eexists.
          by rewrite E1, <- !app_assoc.
      - injection Hrun as _ <-. cbn [trace]. eexists.
        by rewrite E1, <- !app_assoc. }
    destruct Hrest as (rest & Er). rewrite Er, E0, <- !app_assoc in E.
    apply app_inv_head in E. subst evs. apply (Hno c).
    rewrite !elem_of_app. right. left. exact Hin.
  - (* a statement failed: nothing was shown *)
    injection Hrun as _ <-. cbn [ui]. unfold program_state in Hkeep.
    by injection Hkeep.
Qed.

(** *** The menu commands and the start of the program *)
Section CommandFacts.
Import Shell.
Context (pl : pathlib St) (sys : os St).

Lemma default_name_accepted g :
  DbName.set_current_db "database.db" g
    = (inl tt, DbName.Globals (DbName.DATA_DIR g)
                 (DbName.path_div (DbName.DATA_DIR g) "database.db")).
Proof. reflexivity. Qed.

Lemma set_current_db_accepts n (w : world St) :
  DbName.re_match DbName.SAFE_DB_RE n = true ->
  set_current_db n w =
    (Ok tt,
     World (env w)
       (DbName.Globals (DbName.DATA_DIR (globals w))
          (DbName.DATA_DIR (globals w) ++ [n]))
       (ui w) (trace w)).
Proof.
  intros H. unfold set_current_db. by rewrite (set_current_db_accepted n _ H).
Qed.

Lemma set_current_db_refuses n (w : world St) :
  DbName.re_match DbName.SAFE_DB_RE n = false ->
  set_current_db n w =
    (Raise invalid_name,
     World (env w) (globals w) (ui w) (trace w ++ [Raised invalid_name])).
Proof.
  intros H. unfold set_current_db, DbName.set_current_db. by rewrite H.
Qed.

Lemma keeps_with_connect {A X} (f : DbName.globals -> widgets -> X) p
    (body : nat -> M St A) :
  (forall c, keeps f (body c)) -> keeps f (with_connect sq p body).
Proof.
  intros Hb. unfold with_connect. apply keeps_bind.
  { unfold sq_connect_at. keeps_op. }
  intros c w. pose proof (Hb c w) as H1.
  destruct (body c w) as [[a|e] w1]; cbn [fst snd] in H1.
  - unfold bind. pose proof (keeps_sq_commit f c w1) as H2.
    destruct (sq_commit sq c w1) as [[u|e] w2]; cbn [fst snd] in *;
      unfold ret; cbn [fst snd]; by rewrite H2.
  - cbn. exact H1.
Qed.

Lemma keeps_create_database {X} (f : DbName.globals -> widgets -> X) p :
  keeps f (create_database sq p).
Proof. unfold create_database. apply keeps_with_connect. intros c. keeps_op. Qed.

Lemma with_connect_eq {A} p (body : nat -> M St A) (w : world St) :
  with_connect sq p body w =
    match connect sq p (env w) with
    | (Ok c, st) =>
        match body c (World st (globals w) (ui w) (trace w ++ [Connect c])) with
        | (Ok a, w2) =>
            match sq_commit sq c w2 with
            | (Ok _, w3) => (Ok a, w3)
            | (Raise e, w3) => (Raise e, w3)
            end
        | (Raise e, w2) =>
            (Raise e, World (rollback sq c (env w2)) (globals w2) (ui w2)
                        (trace w2 ++ [Rollback c]))
        end
    | (Raise e, st) => (Raise e, World st (globals w) (ui w) (trace w ++ [Raised e]))
    end.
Proof.
  unfold with_connect, sq_connect_at. unfold bind at 1. unfold bind at 1.
  unfold call at 1. destruct (connect sq p (env w)) as [[c|e] st]; [|done].
  unfold bind at 1. unfold emit at 1. unfold ret at 1. cbn [env globals ui trace].
  match goal with |- context [body c ?w0] => destruct (body c w0) as [[a|e] w2] end.
  - unfold bind. by destruct (sq_commit sq c w2) as [[u|e] w3].
  - reflexivity.
Qed.

(** The database file is made: every call succeeds. *)
Lemma create_database_ok p (w : world St) conn cur1 cur2 st1 st2 st3 st4 st5 :
  connect sq p (env w) = (Ok conn, st1) ->
  execute sq conn PragmaForeignKeysOn st1 = (Ok cur1, st2) ->
  execute sq conn CreateItems st2 = (Ok cur2, st3) ->
  commit sq conn st3 = (Ok tt, st4) ->
  commit sq conn st4 = (Ok tt, st5) ->
  create_database sq p w =
    (Ok tt, World st5 (globals w) (ui w) (trace w ++ database_created conn)).
Proof.
  intros Hc Hp Hi Hm1 Hm2.
  unfold create_database. rewrite with_connect_eq, Hc.
  unfold bind. rewrite sq_execute_eq. cbn [env globals ui trace]. rewrite Hp.
  rewrite sq_execute_eq. cbn [env globals ui trace]. rewrite Hi.
  rewrite sq_commit_eq. cbn [env globals ui trace]. rewrite Hm1.
  rewrite sq_commit_eq. cbn [env globals ui trace]. rewrite Hm2.
  unfold database_created. by rewrite <- !app_assoc.
Qed.

Lemma ensure_default_db_eq (w : world St) :
  let data := DbName.DATA_DIR (globals w) in
  let base := data ++ ["database.db"] in
  ensure_default_db sq w =
    if db_exists sq base (env w) then
      (Ok tt, World (env w) (DbName.Globals data base) (ui w) (trace w))
    else
      match create_database sq base w with
      | (Ok _, w1) =>
          (Ok tt,
           World (env w1)
             (DbName.Globals (DbName.DATA_DIR (globals w1))
                (DbName.DATA_DIR (globals w1) ++ ["database.db"]))
             (ui w1) (trace w1))
      | (Raise e, w1) => (Raise e, w1)
      end.
Proof.
  intros data base. unfold ensure_default_db.
  unfold bind at 1. unfold get_globals at 1. cbv zeta.
  unfold bind at 1. fold data. change (DbName.path_div data "database.db") with base.
  destruct (db_exists sq base (env w)); cbn [negb].
  - reflexivity.
  - unfold bind. destruct (create_database sq base w) as [[[]|e] w1]; reflexivity.
Qed.

(** X18: [ensure_default_db] leaves the widgets alone and either
    returns with [CURRENT_DB] set to [database.db] in [DATA_DIR], or,
    only when that file was missing and could not be made, raises with
    the globals as they were; its own name never fails the name check.
    When the file exists it makes no call to the database at all. *)
Theorem ensure_default_db_selects_the_default (w : world St) :
  let data := DbName.DATA_DIR (globals w) in
  let base := data ++ ["database.db"] in
  let r := ensure_default_db sq w in
  ui r.2 = ui w
  /\ match r.1 with
     | Ok _ => globals r.2 = DbName.Globals data base
     | Raise e => db_exists sq base (env w) = false /\ globals r.2 = globals w
     end
  /\ (db_exists sq base (env w) = true ->
      r = (Ok tt, World (env w) (DbName.Globals data base) (ui w) (trace w))).
Proof.
  intros data base r. subst r. rewrite ensure_default_db_eq. fold data base.
  destruct (db_exists sq base (env w)) eqn:Hx.
  - by repeat split.
  - pose proof (keeps_create_database program_state base w) as Hk.
    destruct (create_database sq base w) as [[[]|e] w1]; cbn [fst snd] in *;
      unfold program_state in Hk; injection Hk as Hg Hu;
      cbn [fst snd env globals ui trace]; rewrite ?Hg; by repeat split.
Qed.

(** X19: a cancelled open dialog changes nothing; a file whose name
    the pattern refuses makes [on_open_db] raise [ValueError], which
    nothing in the command catches, before the label, the schema, the
    diagram or [CURRENT_DB] are touched. *)
Theorem on_open_db_refuses_before_it_touches (p : app St) (file : string) :
  on_open_db sq pl "" p = (Ok tt, p)
  /\ (file <> "" ->
      DbName.re_match DbName.SAFE_DB_RE (name pl (Path pl file)) = false ->
      on_open_db sq pl file p
        = (Raise invalid_name, with_event (Raised invalid_name) p)).
Proof.
  split; [reflexivity|]. intros Hf Hm. unfold on_open_db.
  apply String.eqb_neq in Hf. rewrite Hf.
  unfold and_then, in_world. by rewrite (set_current_db_refuses _ _ Hm).
Qed.

Lemma reopen_keeps (text : string) (p : app St) :
  let r := reopen sq pl text p in
  globals (world_of r.2) = globals (world_of p)
  /\ lbl_db r.2
     = "Aktuelle DB: "
         +:+ resolve pl (DbName.CURRENT_DB (globals (world_of p))) (env (world_of p))
  /\ nb_selected r.2 = nb_selected p
  /\ (r.1 = Ok tt -> status (ui (world_of r.2)) = text).
Proof.
  cbv zeta. unfold reopen, and_then, show_current_db, in_world.
  cbn [world_of lbl_db nb_selected].
  pose proof (keeps_refresh_schema (fun g _ => g)
                ltac:(done) ltac:(done) ltac:(done) ltac:(done) ltac:(done)
                ltac:(done) (world_of p)) as H1.
  destruct (refresh_schema sq (world_of p)) as [[[]|e] w1];
    cbn [fst snd world_of lbl_db nb_selected] in *; [|by rewrite H1].
  pose proof (keeps_build_er_diagram (fun g _ => g) ltac:(done) ltac:(done) w1) as H2.
  destruct (build_er_diagram sq w1) as [[[]|e] w2];
    cbn [fst snd world_of lbl_db nb_selected] in *; [|by rewrite H2, H1].
  unfold _status, modify_ui. cbn [fst snd world_of lbl_db nb_selected globals ui].
  by rewrite H2, H1.
Qed.

(** X20: [on_open_db] reads nothing of the chosen file but its name.
    With a name the pattern accepts, [CURRENT_DB] becomes the file of
    that name in [DATA_DIR], wherever the chosen file lies, and the
    label shows it; two files with the same name have the same effect;
    the status line reads "DB geöffnet." when the schema and the
    diagram were rebuilt without an exception. *)
Theorem on_open_db_opens_the_name_in_data_dir (p : app St) (file : string) :
  file <> "" ->
  DbName.re_match DbName.SAFE_DB_RE (name pl (Path pl file)) = true ->
  let data := DbName.DATA_DIR (globals (world_of p)) in
  let current := data ++ [name pl (Path pl file)] in
  let r := on_open_db sq pl file p in
  globals (world_of r.2) = DbName.Globals data current
  /\ lbl_db r.2 = "Aktuelle DB: " +:+ resolve pl current (env (world_of p))
  /\ (r.1 = Ok tt -> status (ui (world_of r.2)) = "DB geöffnet.")
  /\ forall file', file' <> "" -> name pl (Path pl file') = name pl (Path pl file) ->
       on_open_db sq pl file' p = r.
Proof.
  intros Hf Hm data current r.
  assert (Hr : r = reopen sq pl "DB geöffnet."
                 (App (World (env (world_of p)) (DbName.Globals data current)
                         (ui (world_of p)) (trace (world_of p)))
                    (lbl_db p) (nb_selected p))).
  { subst r. unfold on_open_db. apply String.eqb_neq in Hf. rewrite Hf.
    unfold and_then at 1. unfold in_world at 1.
    by rewrite (set_current_db_accepts _ _ Hm). }
  destruct (reopen_keeps "DB geöffnet."
              (App (World (env (world_of p)) (DbName.Globals data current)
                      (ui (world_of p)) (trace (world_of p)))
                 (lbl_db p) (nb_selected p))) as (Hg & Hl & _ & Hs).
  rewrite <- Hr in Hg, Hl, Hs. cbn [world_of globals env DbName.CURRENT_DB] in Hg, Hl.
  repeat split; try assumption.
  intros file' Hf' Hn. subst r. unfold on_open_db.
  apply String.eqb_neq in Hf, Hf'. by rewrite Hf, Hf', Hn.
Qed.

(** X21: [on_new_db] makes the database before it checks the name.
    With a name the pattern refuses, the file is created at the chosen
    path, with its [items] table, and committed; then the command
    raises [ValueError], and [CURRENT_DB], the label and every widget
    are as before. *)
Theorem on_new_db_creates_before_it_checks (p : app St) (file : string)
    (conn : nat) (cur1 cur2 : cursor) (st1 st2 st3 st4 st5 : St) :
  file <> "" ->
  let w := world_of p in
  connect sq (Path pl file) (env w) = (Ok conn, st1) ->
  execute sq conn PragmaForeignKeysOn st1 = (Ok cur1, st2) ->
  execute sq conn CreateItems st2 = (Ok cur2, st3) ->
  commit sq conn st3 = (Ok tt, st4) ->
  commit sq conn st4 = (Ok tt, st5) ->
  DbName.re_match DbName.SAFE_DB_RE (name pl (Path pl file)) = false ->
  on_new_db sq pl file p =
    (Raise invalid_name,
     App (World st5 (globals w) (ui w)
            (trace w ++ database_created conn ++ [Raised invalid_name]))
       (lbl_db p) (nb_selected p)).
Proof.
  intros Hf w Hc Hp Hi Hm1 Hm2 Hre. unfold on_new_db.
  apply String.eqb_neq in Hf. rewrite Hf. cbv zeta.
  unfold and_then at 1. unfold in_world at 1. fold w.
  rewrite (create_database_ok _ w conn cur1 cur2 st1 st2 st3 st4 st5) by assumption.
  unfold and_then at 1. unfold in_world at 1. cbn [world_of].
  rewrite (set_current_db_refuses _ _ Hre). cbn [env globals ui trace lbl_db nb_selected].
  by rewrite <- app_assoc.
Qed.

(** X22: [on_new_db] makes the database at the chosen path and then
    opens the file of the same name in [DATA_DIR].  When the chosen
    path lies elsewhere and [DATA_DIR] has no file of that name, the
    new database is not the one in use: the schema tree and the
    combobox are empty, the line under the diagram reads "Keine DB.",
    the item grid is not reloaded, and the status line still reads
    "Neue DB erstellt.". *)
Theorem on_new_db_opens_the_name_in_data_dir (p : app St) (file : string)
    (conn : nat) (cur1 cur2 : cursor) (st1 st2 st3 st4 st5 : St) :
  file <> "" ->
  let w := world_of p in
  let data := DbName.DATA_DIR (globals w) in
  let current := data ++ [name pl (Path pl file)] in
  connect sq (Path pl file) (env w) = (Ok conn, st1) ->
  execute sq conn PragmaForeignKeysOn st1 = (Ok cur1, st2) ->
  execute sq conn CreateItems st2 = (Ok cur2, st3) ->
  commit sq conn st3 = (Ok tt, st4) ->
  commit sq conn st4 = (Ok tt, st5) ->
  DbName.re_match DbName.SAFE_DB_RE (name pl (Path pl file)) = true ->
  db_exists sq current st5 = false ->
  on_new_db sq pl file p =
    (Ok tt,
     App (World st5 (DbName.Globals data current)
            (set_status "Neue DB erstellt."
               (set_er_info "Keine DB."
                  (set_er_canvas []
                     (set_cmb_tables_values []
                        (set_cmb_tables "" (set_tree [] (ui w)))))))
            (trace w ++ database_created conn))
       ("Aktuelle DB: " +:+ resolve pl current st5) (nb_selected p)).
Proof.
  intros Hf w data current Hc Hp Hi Hm1 Hm2 Hre Hx. unfold on_new_db.
  apply String.eqb_neq in Hf. rewrite Hf. cbv zeta.
  unfold and_then at 1. unfold in_world at 1. fold w.
  rewrite (create_database_ok _ w conn cur1 cur2 st1 st2 st3 st4 st5) by assumption.
  unfold and_then at 1. unfold in_world at 1. cbn [world_of].
  rewrite (set_current_db_accepts _ _ Hre). cbn [env globals ui trace lbl_db nb_selected].
  fold data current.
  unfold reopen, and_then, show_current_db, in_world.
  cbn [world_of env globals ui trace lbl_db nb_selected DbName.CURRENT_DB].
  rewrite refresh_schema_no_file by exact Hx.
  cbn [world_of env globals ui trace lbl_db nb_selected].
  rewrite build_er_diagram_no_file by exact Hx.
  reflexivity.
Qed.

(** X23: after [insert_example(sql)] the SQL tab is selected and
    [run_sql] reads back [sql.strip()], whatever the editor held
    before: the newline the text widget appends is stripped with the
    rest, and an example of white space only runs nothing. *)
Theorem insert_example_feeds_run_sql (sql old : string) (p : app St) :
  let w := world_of p in
  let p' := (insert_example sql p).2 in
  strip (txt_sql (ui (world_of p'))) = strip sql
  /\ nb_selected p' = TabSql
  /\ (strip sql = "" -> run_example sq sql p = (Ok tt, p'))
  /\ run_example sq sql
       (App (World (env w) (globals w) (set_txt_sql old (ui w)) (trace w))
          (lbl_db p) (nb_selected p))
     = run_example sq sql p.
Proof.
  intros w p'. subst p'. unfold insert_example. cbn [snd world_of ui txt_sql set_txt_sql].
  split; [apply strip_app_nl|]. split; [reflexivity|]. split; [|reflexivity].
  intros Hblank. unfold run_example, and_then, insert_example, in_world.
  cbn [world_of lbl_db nb_selected]. unfold run_sql. rewrite bind_get_ui. cbv zeta.
  cbn [ui txt_sql set_txt_sql]. by rewrite strip_app_nl, Hblank.
Qed.

Lemma open_data_dir_eq (w : world St) :
  let dir := fspath sys (DbName.DATA_DIR (globals w)) in
  let opener := if String.eqb (platform sys) "darwin" then "open '" else "xdg-open '" in
  let answer {A} (r : res A * St) : res unit * world St :=
    match r with
    | (Ok _, st) => (Ok tt, World st (globals w) (ui w) (trace w))
    | (Raise e, st) =>
        (Ok tt,
         World st (globals w) (ui w)
           (trace w ++ [ Raised e;
                         MessageBox Error APP_TITLE
                           ("Konnte Datenordner nicht öffnen:" +:+ nl +:+ e_str e) ]))
    end in
  open_data_dir sys w =
    if startswith (platform sys) "win" then answer (startfile sys dir (env w))
    else answer (system sys (opener +:+ dir +:+ "'") (env w)).
Proof.
  intros dir opener answer. unfold open_data_dir. unfold bind at 1, get_globals at 1.
  cbv zeta. fold dir. unfold try_except, answer.
  destruct (startswith (platform sys) "win").
  - unfold call. destruct (startfile sys dir (env w)) as [[[]|e] st]; [done|].
    unfold showerror, emit. cbn [env globals ui trace]. by rewrite <- app_assoc.
  - subst opener. destruct (String.eqb (platform sys) "darwin"); unfold bind, call;
      match goal with |- context [system sys ?c (env w)] =>
        destruct (system sys c (env w)) as [[status|e] st]
      end; unfold ret, showerror, emit; cbn [env globals ui trace];
      rewrite <- ?app_assoc; reflexivity.
Qed.

(** X24: [open_data_dir] never raises and changes neither the globals
    nor a widget.  It shows its error dialog exactly when the call into
    the operating system raises; outside Windows the call is
    [os.system], whose exit status is dropped, so that an opener that
    runs and fails is not reported. *)
Theorem open_data_dir_reports_exceptions_only (w : world St) :
  let dir := fspath sys (DbName.DATA_DIR (globals w)) in
  let opener := if String.eqb (platform sys) "darwin" then "open '" else "xdg-open '" in
  let r := open_data_dir sys w in
  let said e :=
    [ Raised e;
      MessageBox Error APP_TITLE ("Konnte Datenordner nicht öffnen:" +:+ nl +:+ e_str e) ] in
  r.1 = Ok tt /\ globals r.2 = globals w /\ ui r.2 = ui w
  /\ (startswith (platform sys) "win" = true ->
      match startfile sys dir (env w) with
      | (Ok _, st) => trace r.2 = trace w
      | (Raise e, st) => trace r.2 = trace w ++ said e
      end)
  /\ (startswith (platform sys) "win" = false ->
      match system sys (opener +:+ dir +:+ "'") (env w) with
      | (Ok status, st) => trace r.2 = trace w
      | (Raise e, st) => trace r.2 = trace w ++ said e
      end).
Proof.
  intros dir opener r said. subst r. rewrite open_data_dir_eq. fold dir opener.
  destruct (startswith (platform sys) "win").
  - destruct (startfile sys dir (env w)) as [[[]|e] st]; by repeat split.
  - destruct (system sys (opener +:+ dir +:+ "'") (env w)) as [[status|e] st];
      by repeat split.
Qed.

End CommandFacts.

End OutcomeFacts.

(** ** What [run_sql] runs and what it shows *)
Section ResultFacts.
Import PyStr Gui Trace Discipline Outcome.
Context {St : Type} (sq : sqlite3 St).

Lemma lookup_key_found ks : forall vs c,
  length vs = length ks -> In c ks -> exists v, lookup_key ks vs c = Ok v.
Proof.
  induction ks as [|k ks IH]; intros vs c Hlen Hin; [destruct Hin|].
  destruct vs as [|v vs]; [discriminate Hlen|]. injection Hlen as Hlen.
  cbn [lookup_key]. destruct (String.eqb (lower k) (lower c)) eqn:Hk; [eauto|].
  destruct Hin as [->|Hin]; [by rewrite String.eqb_refl in Hk|]. by apply IH.
Qed.

(** A row of the cursor's length answers to every column of the cursor. *)
Lemma lookup_all_by_name cols vals cs :
  length vals = length cols -> (forall c, In c cs -> In c cols) ->
  lookup_all (MkRow cols vals) cs = Ok (map (by_name cols vals) cs).
Proof.
  intros Hlen. induction cs as [|c cs IH]; intros Hin; [done|].
  cbn [lookup_all map]. unfold getitem, by_name at 1. cbn [keys values].
  destruct (lookup_key_found cols vals c Hlen (Hin c (or_introl eq_refl))) as (v & ->).
  rewrite IH; [done|]. intros c' Hc'. apply Hin. by right.
Qed.

Lemma displayed_row_distinct cols vals :
  NoDup (map lower cols) -> length vals = length cols -> displayed_row cols vals = vals.
Proof.
  intros Hnd Hlen. pose proof (lookup_all_values cols vals Hnd Hlen) as H.
  rewrite lookup_all_by_name in H by done. by injection H.
Qed.

(** The loop of [run_sql] on statements the database accepts. *)
Lemma statement_loop_run conn stmts : forall acc (w : world St) log st,
  engine_run sq conn stmts (env w) = (Ok log, st) ->
  fold_each stmts acc (run_statement sq conn) w =
    (Ok (loop_state acc log),
     World st (globals w) (ui w)
       (trace w ++ map (fun s => Execute conn (Statement s)) stmts)).
Proof.
  induction stmts as [|s stmts IH]; intros acc w log st H; simpl in H.
  - injection H as <- <-. simpl. rewrite app_nil_r.
    destruct acc as [[? ?] ?], w. unfold ret, loop_state. simpl. do 3 f_equal. lia.
  - cbn [fold_each]. unfold bind at 1. rewrite run_statement_eq.
    destruct (execute sq conn (Statement s) (env w)) as [[cur|e] st1]; [|discriminate].
    destruct (engine_run sq conn stmts st1) as [[log'|e] st2] eqn:Hrun; [|discriminate].
    injection H as <- <-.
    rewrite (IH _ _ log' st2) by exact Hrun. cbn [env globals ui trace map].
    by rewrite loop_state_cons, <- app_assoc.
Qed.

(** Whatever the database answers, the loop executes the statements in
    order, each at most once, and stops at the first that fails. *)
Lemma statement_loop_events conn stmts : forall acc (w : world St),
  exists done later more,
    stmts = done ++ later
    /\ trace (fold_each stmts acc (run_statement sq conn) w).2
       = trace w ++ map (fun s => Execute conn (Statement s)) done ++ more
    /\ Forall (fun ev => ~ is_user_sql ev) more.
Proof.
  induction stmts as [|s stmts IH]; intros acc w.
  - exists [], [], []. simpl. by rewrite app_nil_r.
  - cbn [fold_each]. unfold bind at 1. rewrite run_statement_eq.
    destruct (execute sq conn (Statement s) (env w)) as [[cur|e] st1].
    + match goal with |- context [fold_each stmts ?a _ ?w1] =>
        destruct (IH a w1) as (done & later & more & -> & T & F) end.
      exists (s :: done), later, more. rewrite T. cbn [trace map].
      by rewrite <- !app_assoc.
    + exists [s], stmts, [Raised e]. cbn [snd trace map]. repeat split.
      apply Forall_cons_2; [simpl; tauto|constructor].
Qed.


Lemma script_branch_spec sql :
  script_branch sql = true <->
  (exists m, In m ddl_markers /\ contains m (lower sql) = true)
  /\ contains "select" (lower sql) = false /\ contains "pragma" (lower sql) = false.
Proof.
  unfold script_branch, use_script. split.
  - intros H. apply andb_true_iff in H as [H1 H2]. apply andb_true_iff in H2 as [H2 H3].
    apply existsb_exists in H1. apply negb_true_iff in H2, H3. auto.
  - intros (H1 & H2 & H3). apply existsb_exists in H1. by rewrite H1, H2, H3.
Qed.

(** The script branch: one [executescript] of the whole input. *)
Lemma run_sql_execute_script conn sql (w : world St) :
  script_branch sql = true ->
  (exists more,
     trace (run_sql_execute sq conn sql w).2 = trace w ++ ExecuteScript conn sql :: more
     /\ Forall (fun ev => ~ is_user_sql ev) more)
  /\ forall st3 st4,
       executescript sq conn sql (env w) = (Ok tt, st3) ->
       commit sq conn st3 = (Ok tt, st4) ->
       run_sql_execute sq conn sql w =
         (Ok ([], []),
          World st4 (globals w) (ui w) (trace w ++ [ExecuteScript conn sql; Commit conn])).
Proof.
  intros Hs. unfold run_sql_execute. rewrite Hs.
  unfold bind, sq_executescript, bind, emit, call. cbn [env globals ui trace].
  destruct (executescript sq conn sql (env w)) as [[[]|e] st3] eqn:Hx.
  - rewrite sq_commit_eq. cbn [env globals ui trace].
    destruct (commit sq conn st3) as [[[]|e] st4] eqn:Hc; split.
    + exists [Commit conn]. unfold ret. cbn [snd trace]. rewrite <- app_assoc.
      split; [done|]. apply Forall_cons_2; [simpl; tauto|constructor].
    + intros ? ? [= <-]. rewrite Hc. intros [= <-]. unfold ret. by rewrite <- app_assoc.
    + exists [Commit conn; Raised e]. cbn [snd trace]. rewrite <- app_assoc.
      split; [done|]. repeat (apply Forall_cons_2; [simpl; tauto|]). constructor.
    + intros ? ? [= <-]. rewrite Hc. discriminate.
  - split; [|discriminate]. exists [Raised e]. cbn [snd trace]. rewrite <- app_assoc.
    split; [done|]. apply Forall_cons_2; [simpl; tauto|constructor].
Qed.

(** The other branch: the statements in order. *)
Lemma run_sql_execute_statements conn sql (w : world St) :
  script_branch sql = false ->
  (exists done later more,
     statements sql = done ++ later
     /\ trace (run_sql_execute sq conn sql w).2
        = trace w ++ map (fun s => Execute conn (Statement s)) done ++ more
     /\ Forall (fun ev => ~ is_user_sql ev) more)
  /\ forall log st3 st4,
       engine_run sq conn (statements sql) (env w) = (Ok log, st3) ->
       commit sq conn st3 = (Ok tt, st4) ->
       run_sql_execute sq conn sql w =
         (Ok (shown_result log),
          World st4 (globals w) (ui w)
            (trace w ++ map (fun s => Execute conn (Statement s)) (statements sql)
               ++ [Commit conn])).
Proof.
  intros Hs. unfold run_sql_execute. rewrite Hs. split.
  - destruct (statement_loop_events conn (statements sql) ([], [], 0) w)
      as (done & later & more & Hd & T & F).
    unfold bind at 1.
    destruct (fold_each _ _ _ w) as [[[[oc orr] n]|e] w1]; cbn [snd] in T.
    + exists done, later. unfold bind. rewrite sq_commit_eq.
      destruct (commit sq conn (env w1)) as [[[]|e] st4].
      * exists (more ++ [Commit conn]). split; [done|]. split.
        -- destruct oc; unfold ret; cbn [snd trace]; by rewrite T, <- !app_assoc.
        -- apply Forall_app. split; [done|]. apply Forall_cons_2; [simpl; tauto|constructor].
      * exists (more ++ [Commit conn; Raised e]). split; [done|]. split.
        -- cbn [snd trace]. by rewrite T, <- !app_assoc.
        -- apply Forall_app. split; [done|].
           repeat (apply Forall_cons_2; [simpl; tauto|]). constructor.
    + exists done, later, more. by cbn [snd].
  - intros log st3 st4 Hrun Hc. unfold bind at 1.
    rewrite (statement_loop_run conn _ _ _ log st3 Hrun).
    pose proof (shown_result_loop_state log) as Hshown.
    destruct (loop_state ([], [], 0) log) as [[oc orr] n].
    unfold bind. rewrite sq_commit_eq. cbn [env globals ui trace]. rewrite Hc.
    destruct oc; unfold ret; rewrite Hshown, <- app_assoc; reflexivity.
Qed.

(** What the result grid receives for the result of a run. *)
Lemma show_shown_result log (w : world St) :
  (forall q cols, last_query log = Some q -> description (r_cursor q) = Some cols ->
     Forall (fun vals => length vals = length cols) (fetchall (r_cursor q))) ->
  show_result (shown_result log).1 (shown_result log).2 w =
    (Ok tt, World (env w) (globals w) (set_result (displayed log) (ui w)) (trace w)).
Proof.
  intros Hwf. unfold shown_result, displayed.
  destruct (last_query log) as [q|] eqn:Hq; [|apply show_result_info].
  unfold row_set, rows_of. specialize (Hwf q).
  destruct (description (r_cursor q)) as [[|c cols]|]; cbn [default from_option id fst snd];
    try apply show_result_info.
  specialize (Hwf (c :: cols) eq_refl eq_refl).
  rewrite (show_result_rows c cols (fun r => displayed_row (c :: cols) (values r))).
  - by rewrite map_map.
  - apply Forall_map. eapply Forall_impl; [exact Hwf|]. intros vals Hlen.
    cbn [values]. by apply lookup_all_by_name.
Qed.

(** What follows a block in a [try]: the rest of the body or the
    handler, with what both keep and what both emit. *)
Lemma try_bind_frame {A B X} (f : DbName.globals -> widgets -> X) (S : event -> Prop)
    (m : M St A) (k : A -> M St B) (handler : exn -> M St B) (w : world St) :
  (forall a, keeps f (k a)) -> (forall e, keeps f (handler e)) ->
  (forall a, emits_only S (k a)) -> (forall e, emits_only S (handler e)) ->
  let fin := (try_except (bind m k) handler w).2 in
  exists rest,
    trace fin = trace (m w).2 ++ rest /\ Forall S rest
    /\ f (globals fin) (ui fin) = f (globals (m w).2) (ui (m w).2).
Proof.
  intros Hk Hh Ek Eh. unfold try_except, bind.
  destruct (m w) as [[a|e] w1]; cbn [snd].
  - specialize (Hk a w1). destruct (Ek a w1) as (evs1 & T1 & F1).
    destruct (k a w1) as [[b|e] w2]; cbn [snd] in *.
    + by exists evs1.
    + specialize (Hh e w2). destruct (Eh e w2) as (evs2 & T2 & F2).
      exists (evs1 ++ evs2). rewrite T2, T1, app_assoc. split; [done|].
      split; [by apply Forall_app|]. by rewrite Hh.
  - specialize (Hh e w1). destruct (Eh e w1) as (evs2 & T2 & F2). by exists evs2.
Qed.


(** What comes after the block of [run_sql]: the refresh of the schema
    and of the diagram and the status line, or the error dialog; none
    of them touches the result grid or executes what the user typed. *)
Lemma run_sql_frame {A} (block : M St A) (w : world St) :
  let fin :=
    (try_except
       (block;; refresh_schema sq;; build_er_diagram sq;; _status "SQL ausgeführt.")
       (fun e => showerror APP_TITLE ("SQL-Fehler:" +:+ nl +:+ e_str e)) w).2 in
  exists rest,
    trace fin = trace (block w).2 ++ rest
    /\ Forall (fun ev => ~ is_user_sql ev) rest
    /\ result (ui fin) = result (ui (block w).2).
Proof.
  apply (try_bind_frame (fun _ u => result u) (fun ev => ~ is_user_sql ev)).
  - intros _. apply keeps_bind; [by apply keeps_refresh_schema|]. intros _.
    apply keeps_bind; [by apply keeps_build_er_diagram|]. intros _.
    by apply keeps_modify_ui.
  - intros e. by apply keeps_quiet.
  - intros _. apply emits_bind; [apply emits_refresh_schema; simpl; tauto|]. intros _.
    apply emits_bind; [apply emits_build_er_diagram; simpl; tauto|]. intros _.
    apply emits_status.
  - intros e. apply emits_emit. simpl. tauto.
Qed.

(** The [with] block around a body, once the connection is open. *)
Lemma with_conn_frame {A} (body : nat -> M St A) (w : world St) conn cur0 st1 st2 :
  connect sq (DbName.CURRENT_DB (globals w)) (env w) = (Ok conn, st1) ->
  execute sq conn PragmaForeignKeysOn st1 = (Ok cur0, st2) ->
  let wa := World st2 (globals w) (ui w)
              (trace w ++ [Connect conn; Execute conn PragmaForeignKeysOn]) in
  exists rest,
    trace (with_conn sq body w).2 = trace (body conn wa).2 ++ rest
    /\ Forall (fun ev => ~ is_user_sql ev) rest
    /\ ui (with_conn sq body w).2 = ui (body conn wa).2.
Proof.
  intros Hc Hp wa. rewrite with_conn_eq, get_db_conn_eq, Hc, Hp. fold wa.
  destruct (body conn wa) as [[a|e] w2]; cbn [snd].
  - rewrite sq_commit_eq. destruct (commit sq conn (env w2)) as [[[]|e] st3]; cbn [snd ui trace].
    + exists [Commit conn]. repeat split. apply Forall_cons_2; [simpl; tauto|constructor].
    + exists [Commit conn; Raised e]. repeat split.
      repeat (apply Forall_cons_2; [simpl; tauto|]). constructor.
  - exists [Rollback conn]. repeat split. apply Forall_cons_2; [simpl; tauto|constructor].
Qed.

(** C9, amended.  A blank input executes and shows nothing.  With an
    open connection, the input goes to [executescript], whole and once,
    exactly when its lower-case form contains one of the eight markers
    and neither [select] nor [pragma]; the result grid then loses its
    rows and keeps its columns.  Otherwise the non-empty trimmed pieces
    between the semicolons are executed in order, each at most once,
    up to the first that fails; when none fails and the commit
    succeeds, the result grid holds the columns of the last statement
    beginning with [select] or [pragma], if it has any, and for each
    of its rows the values found under these column names (the row
    itself when the names differ, case apart), and else the single
    "Info" line with the sum, over the other statements, of
    [max(0, change-count delta)].  Nothing of the input is executed
    again afterwards. *)
Theorem run_sql_result (w : world St) :
  let sql_text := strip (txt_sql (ui w)) in
  let low := lower sql_text in
  let scripted :=
    (exists m,
       In m [ "create trigger"; "create view"; "begin"; "end";
              "create table"; "drop table"; "drop view"; "alter table" ]
       /\ contains m low = true)
    /\ contains "select" low = false /\ contains "pragma" low = false in
  let r := run_sql sq w in
  (sql_text = "" -> r = (Ok tt, w))
  /\ (exists pieces,
        join ";" pieces = sql_text
        /\ Forall (fun p => contains ";" p = false) pieces
        /\ statements sql_text
           = map strip (List.filter (fun p => negb (String.eqb (strip p) "")) pieces))
  /\ (sql_text <> "" ->
      forall conn cur0 st1 st2,
        connect sq (DbName.CURRENT_DB (globals w)) (env w) = (Ok conn, st1) ->
        execute sq conn PragmaForeignKeysOn st1 = (Ok cur0, st2) ->
        exists evs,
          trace r.2 = trace w ++ [Connect conn; Execute conn PragmaForeignKeysOn] ++ evs
          /\ (scripted ->
              (exists rest,
                 evs = ExecuteScript conn sql_text :: rest
                 /\ Forall (fun ev => ~ is_user_sql ev) rest)
              /\ forall st3 st4,
                   executescript sq conn sql_text st2 = (Ok tt, st3) ->
                   commit sq conn st3 = (Ok tt, st4) ->
                   result (ui r.2) = Grid (columns (result (ui w))) [] [])
          /\ (~ scripted ->
              (exists done later rest,
                 statements sql_text = done ++ later
                 /\ evs = map (fun s => Execute conn (Statement s)) done ++ rest
                 /\ Forall (fun ev => ~ is_user_sql ev) rest)
              /\ forall log st3 st4,
                   engine_run sq conn (statements sql_text) st2 = (Ok log, st3) ->
                   commit sq conn st3 = (Ok tt, st4) ->
                   (forall q cols,
                      last_query log = Some q -> description (r_cursor q) = Some cols ->
                      Forall (fun vals => length vals = length cols)
                        (fetchall (r_cursor q))) ->
                   (exists rest,
                      evs = map (fun s => Execute conn (Statement s)) (statements sql_text)
                              ++ Commit conn :: rest
                      /\ Forall (fun ev => ~ is_user_sql ev) rest)
                   /\ result (ui r.2) = displayed log
                   /\ forall q c cols,
                        last_query log = Some q ->
                        description (r_cursor q) = Some (c :: cols) ->
                        NoDup (map lower (c :: cols)) ->
                        result (ui r.2) = Grid (c :: cols) (fetchall (r_cursor q)) [])).
Proof.
  intros sql_text low scripted r.
  assert (Hspec : script_branch sql_text = true <-> scripted)
    by apply script_branch_spec.
  split.
  { intros H. subst r. unfold run_sql. rewrite bind_get_ui. cbv zeta.
    fold sql_text. by rewrite H. }
  split; [apply statements_pieces|].
  intros Hne conn cur0 st1 st2 Hc Hp.
  apply String.eqb_neq in Hne.
  set (wa := World st2 (globals w) (ui w)
               (trace w ++ [Connect conn; Execute conn PragmaForeignKeysOn])).
  set (body := fun c : nat =>
         let* out := run_sql_execute sq c sql_text in
         let '(out_cols, out_rows) := out in show_result out_cols out_rows).
  assert (Hr : r = try_except
                     (with_conn sq body;; refresh_schema sq;; build_er_diagram sq;;
                      _status "SQL ausgeführt.")
                     (fun e => showerror APP_TITLE ("SQL-Fehler:" +:+ nl +:+ e_str e)) w).
  { subst r. unfold run_sql. rewrite bind_get_ui. cbv zeta. fold sql_text.
    by rewrite Hne. }
  destruct (run_sql_frame (with_conn sq body) w) as (rest2 & T2 & F2 & U2).
  rewrite <- Hr in T2, U2.
  destruct (with_conn_frame body w conn cur0 st1 st2 Hc Hp) as (rest1 & T1 & F1 & U1).
  fold wa in T1, U1. rewrite T1 in T2. rewrite U1 in U2. clear T1 U1 Hr.
  (* the body: the execution, then the display *)
  assert (Hshow : exists rest0,
            trace (body conn wa).2 = trace (run_sql_execute sq conn sql_text wa).2 ++ rest0
            /\ Forall (fun ev => ~ is_user_sql ev) rest0).
  { subst body. cbv beta. unfold bind.
    destruct (run_sql_execute sq conn sql_text wa) as [[[oc orr]|e] wc]; cbn [snd].
    - destruct (emits_show_result (St:=St) (fun ev => ~ is_user_sql ev) oc orr
                  ltac:(simpl; tauto) wc) as (rest0 & T0 & F0).
      by exists rest0.
    - exists []. by rewrite app_nil_r. }
  destruct Hshow as (rest0 & T0 & F0). rewrite T0 in T2. clear T0.
  assert (Hrest : Forall (fun ev => ~ is_user_sql ev) (rest0 ++ rest1 ++ rest2))
    by (rewrite !Forall_app; auto).
  destruct (script_branch sql_text) eqn:Hs.
  - (* one script *)
    destruct (run_sql_execute_script conn sql_text wa Hs) as ((more & Tx & Fx) & Hok).
    rewrite Tx in T2. subst wa. cbn [trace] in T2.
    exists (ExecuteScript conn sql_text :: more ++ rest0 ++ rest1 ++ rest2).
    split; [by rewrite T2, <- !app_assoc|]. split.
    + intros _. split.
      * eexists. split; [reflexivity|]. by apply Forall_app.
      * intros st3 st4 Hx Hm. rewrite U2. subst body. cbv beta. unfold bind.
        rewrite (Hok st3 st4 Hx Hm). reflexivity.
    + intros Hno. exfalso. by apply Hno, Hspec.
  - (* the statements *)
    destruct (run_sql_execute_statements conn sql_text wa Hs)
      as ((done & later & more & Hd & Tx & Fx) & Hok).
    rewrite Tx in T2. subst wa. cbn [trace] in T2.
    exists (map (fun s => Execute conn (Statement s)) done ++ more ++ rest0 ++ rest1 ++ rest2).
    split; [by rewrite T2, <- !app_assoc|]. split.
    + intros Hyes. apply Hspec in Hyes. congruence.
    + intros _. split.
      * exists done, later. eexists. split; [done|]. split; [reflexivity|].
        by apply Forall_app.
      * intros log st3 st4 Hrun Hm Hwf.
        assert (Hbody : body conn (World st2 (globals w) (ui w)
                          (trace w ++ [Connect conn; Execute conn PragmaForeignKeysOn]))
                 = (Ok tt,
                    World st4 (globals w) (set_result (displayed log) (ui w))
                      ((trace w ++ [Connect conn; Execute conn PragmaForeignKeysOn])
                         ++ map (fun s => Execute conn (Statement s)) (statements sql_text)
                         ++ [Commit conn]))).
        { subst body. cbv beta. unfold bind.
          rewrite (Hok log st3 st4 Hrun Hm).
          destruct (shown_result log) as [oc orr] eqn:Hsh.
          change oc with (oc, orr).1. change orr with (oc, orr).2 at 2.
          rewrite <- Hsh. by rewrite show_shown_result. }
        assert (Hres : result (ui r.2) = displayed log).
        { rewrite U2, Hbody. by destruct w as [st g [] tr]. }
        split; [|split; [exact Hres|]].
        -- rewrite Hok with (log := log) (st3 := st3) (st4 := st4) in Tx by done.
           cbn [snd trace] in Tx. rewrite <- !app_assoc in Tx.
           apply app_inv_head in Tx. apply app_inv_head in Tx.
           exists (rest0 ++ rest1 ++ rest2). split; [|done].
           by rewrite app_assoc, <- Tx, <- app_assoc.
        -- intros q c cols Hq Hdesc Hnd. rewrite Hres. unfold displayed.
           rewrite Hq, Hdesc. f_equal.
           specialize (Hwf q (c :: cols) Hq Hdesc).
           induction Hwf as [|vals rows Hlen _ IH]; [done|]. cbn [map].
           by rewrite IH, displayed_row_distinct.
Qed.

End ResultFacts.

(** ** Failures and the handlers that answer them *)
Section CaughtFacts.
Import PyStr Gui Trace Discipline Outcome Handlers.
Context {St : Type} (sq : sqlite3 St).

(** Where no handler answers, a trace without an exception on its way
    holds no failure at all. *)
Lemma follows_no_answer s evs s' :
  follows no_answer s evs s' -> s' = None ->
  s = None /\ Forall (fun ev => ~ is_raised ev) evs.
Proof.
  intros H. induction H as [s|e evs s _ IH|ev evs s Hev _ IH|e ev evs s _ _ IH|e ev evs s Ha _ _];
    intros Hs.
  - by split.
  - by destruct (IH Hs).
  - destruct (IH Hs) as [_ HF]. split; [done|]. apply Forall_cons_2; [|done].
    destruct ev; simpl; try tauto. intros _. by eapply Hev.
  - by destruct (IH Hs).
  - destruct Ha.
Qed.

(** An exception on its way: the failure, and what it has passed. *)
Lemma follows_raise (A : exn -> event -> Prop) s evs s' e :
  follows A s evs s' -> s' = Some e ->
  (s = Some e /\ Forall cleanup evs)
  \/ exists before passing,
       evs = before ++ Raised e :: passing
       /\ follows A s before None /\ Forall cleanup passing.
Proof.
  intros H. induction H as [s|e0 evs s _ IH|ev evs s Hev _ IH|e0 ev evs s Hc _ IH|e0 ev evs s Ha _ IH];
    intros Hs.
  - left. by split.
  - right. destruct (IH Hs) as [[[= ->] HF]|(before & passing & -> & Hb & Hp)].
    + exists [], evs. repeat split; [constructor|done].
    + exists (Raised e0 :: before), passing. repeat split; [|done].
      by apply follows_raised.
  - right. destruct (IH Hs) as [[[=] _]|(before & passing & -> & Hb & Hp)].
    exists (ev :: before), passing. repeat split; [|done]. by apply follows_other.
  - destruct (IH Hs) as [[[= ->] HF]|(before & passing & -> & Hb & Hp)].
    + left. split; [done|]. by apply Forall_cons_2.
    + right. exists (ev :: before), passing. repeat split; [|done].
      by apply follows_cleanup.
  - right. destruct (IH Hs) as [[[=] _]|(before & passing & -> & Hb & Hp)].
    exists (ev :: before), passing. repeat split; [|done]. by apply follows_answer.
Qed.

(** A computation that passes no handler: it returns without a failure
    or raises after one. *)
Lemma handles_no_answer {A} (m : M St A) (w : world St) :
  handles no_answer m ->
  match (m w).1 with
  | Ok _ => exists evs,
      trace (m w).2 = trace w ++ evs /\ Forall (fun ev => ~ is_raised ev) evs
  | Raise e => exists before passing,
      trace (m w).2 = trace w ++ before ++ Raised e :: passing
      /\ Forall (fun ev => ~ is_raised ev) before /\ Forall cleanup passing
  end.
Proof.
  intros H. destruct (H w) as (evs & T & F).
  destruct (m w).1 as [a|e]; cbn [outcome] in F.
  - exists evs. split; [done|]. by apply (follows_no_answer _ _ _ F).
  - destruct (follows_raise _ _ _ _ e F eq_refl) as [[[=] _]|(before & passing & -> & Hb & Hp)].
    exists before, passing. split; [done|]. split; [|done].
    by apply (follows_no_answer _ _ _ Hb).
Qed.

(** [try: body / except: handler] around a body that passes no handler,
    with a handler that does one thing. *)
Lemma try_answered_last (body : M St unit) handler answer (w : world St) :
  handles no_answer body ->
  (forall e w1, (handler e w1).1 = Ok tt /\ trace (handler e w1).2 = trace w1 ++ [answer e]) ->
  (try_except body handler w).1 = Ok tt
  /\ exists evs,
       trace (try_except body handler w).2 = trace w ++ evs /\ answered_last answer evs.
Proof.
  intros Hb Hh. pose proof (handles_no_answer body w Hb) as H. unfold try_except.
  destruct (body w) as [[[]|e] w1]; cbn [fst snd] in *.
  - destruct H as (evs & T & F). split; [done|]. exists evs. split; [done|].
    exists evs. split; [done|]. by left.
  - destruct H as (before & passing & T & F & P). destruct (Hh e w1) as [Hr Ht].
    split; [done|]. exists (before ++ Raised e :: passing ++ [answer e]).
    split.
    + rewrite Ht, T, <- !app_assoc. by rewrite <- app_comm_cons.
    + exists before. split; [done|]. right. by exists e, passing.
Qed.

Lemma answered_last_quiet answer evs :
  Forall (fun ev => ~ is_raised ev) evs -> answered_last answer evs.
Proof. intros H. exists evs. split; [done|]. by left. Qed.

(** A step of a proof that a computation passes no handler. *)
Ltac clean_step :=
  lazymatch goal with
  | |- handles _ (bind _ _) => apply handles_bind; [|intros ?]
  | |- handles _ (raise _) => apply handles_raise
  | |- handles _ (call _) => apply handles_call
  | |- handles _ (lift _) => apply handles_lift
  | |- handles _ (for_each _ _) => apply handles_for_each; intros ?
  | |- handles _ (fold_each _ _ _) => apply handles_fold_each; intros ? ?
  | |- handles _ (map_each _ _) => apply handles_map_each; intros ?
  | |- handles _ (with_conn _ _) => apply handles_with_conn; intros ?
  | |- handles _ (with_open _ _ _) => apply handles_with_open
  | |- handles _ (sq_execute _ _ _) => apply handles_sq_execute
  | |- handles _ (sq_commit _ _) => apply handles_sq_commit
  | |- handles _ (row_values _ _) => apply handles_row_values
  | |- handles _ (description_names _) => apply handles_description_names
  | |- handles _ (_render_grid _ _ _) => apply handles_render_grid
  | |- handles _ (writerow _ _ _) => apply handles_writerow
  | |- handles _ (run_sql_execute _ _ _) => apply handles_run_sql_execute
  | |- handles _ (show_result _ _) => apply handles_show_result
  | |- handles _ (emit _) => by apply catches_handles, catches_emit
  | |- handles _ (if ?b then _ else _) => destruct b
  | |- handles _ get_globals => apply catches_handles, catches_get_globals
  | |- handles _ (ret _) => apply catches_handles, catches_ret
  | |- handles _ (modify_ui _) => apply catches_handles, catches_modify_ui
  | |- handles _ (_status _) => apply catches_handles, catches_modify_ui
  | |- handles _ (let '_ := ?x in _) => destruct x
  | |- handles _ (match ?x with _ => _ end) => destruct x
  end.

Ltac clean := repeat first [ progress cbv zeta | clean_step ].

Lemma showerror_answers what e (w1 : world St) :
  (showerror APP_TITLE (what +:+ nl +:+ e_str e) w1).1 = Ok tt
  /\ trace (showerror APP_TITLE (what +:+ nl +:+ e_str e) w1).2
     = trace w1 ++ [error_dialog what e].
Proof. done. Qed.

Lemma load_table_rows_caught (w : world St) :
  (load_table_rows sq w).1 = Ok tt
  /\ exists evs,
       trace (load_table_rows sq w).2 = trace w ++ evs
       /\ answered_last (error_dialog "Fehler beim Laden:") evs.
Proof.
  unfold load_table_rows. rewrite bind_get_ui. cbv zeta.
  destruct (String.eqb _ "").
  { split; [done|]. exists []. rewrite app_nil_r. split; [done|].
    by apply answered_last_quiet. }
  apply try_answered_last; [clean|]. intros e w1. apply showerror_answers.
Qed.

Lemma export_csv_current_caught file (w : world St) :
  (export_csv_current sq file w).1 = Ok tt
  /\ exists evs,
       trace (export_csv_current sq file w).2 = trace w ++ evs
       /\ answered_last (error_dialog "Exportfehler:") evs.
Proof.
  unfold export_csv_current. rewrite bind_get_ui. cbv zeta.
  destruct (String.eqb _ "").
  { split; [done|]. eexists [_]. split; [done|]. apply answered_last_quiet.
    apply Forall_cons_2; [simpl; tauto|constructor]. }
  destruct (String.eqb file "").
  { split; [done|]. exists []. rewrite app_nil_r. split; [done|].
    by apply answered_last_quiet. }
  apply try_answered_last; [apply handles_export_csv_try|].
  intros e w1. apply showerror_answers.
Qed.

Lemma reload_items_caught (w : world St) :
  (reload_items sq w).1 = Ok tt
  /\ exists evs,
       trace (reload_items sq w).2 = trace w ++ evs
       /\ answered_last empties_item_grid evs
       /\ Forall (fun ev => ~ is_messagebox ev) evs.
Proof.
  destruct (emits_reload_items sq (fun ev => ~ is_messagebox ev)) with (w := w)
    as (evs' & T' & F'); try (intros; simpl; tauto).
  assert (H : (reload_items sq w).1 = Ok tt
              /\ exists evs, trace (reload_items sq w).2 = trace w ++ evs
                             /\ answered_last empties_item_grid evs).
  { unfold reload_items. apply try_answered_last; [clean|]. by intros e w1. }
  destruct H as (Hr & evs & T & HA). split; [done|]. exists evs.
  rewrite T in T'. apply app_inv_head in T' as <-. auto.
Qed.


Lemma answered_last_after answer evs1 evs2 :
  Forall (fun ev => ~ is_raised ev) evs1 -> answered_last answer evs2 ->
  answered_last answer (evs1 ++ evs2).
Proof.
  intros H1 (before & Hb & [->|(e & passing & Hp & ->)]).
  - apply answered_last_quiet. by apply Forall_app.
  - exists (evs1 ++ before). split; [by apply Forall_app|]. right.
    exists e, passing. by rewrite <- app_assoc.
Qed.

Lemma answered_last_failure answer before e passing :
  Forall (fun ev => ~ is_raised ev) before -> Forall cleanup passing ->
  answered_last answer (before ++ Raised e :: passing ++ [answer e]).
Proof. intros Hb Hp. exists before. split; [done|]. right. by exists e, passing. Qed.

Lemma add_item_caught (w : world St) :
  (add_item sq w).1 = Ok tt
  /\ exists evs,
       trace (add_item sq w).2 = trace w ++ evs /\ caught AddItem (ui w) evs.
Proof.
  destruct (add_item sq w) as [r w'] eqn:Hrun. cbn [fst snd].
  unfold add_item in Hrun. rewrite bind_get_ui in Hrun. cbv zeta in Hrun.
  cbn [caught].
  set (name := strip (ent_name (ui w))) in *. set (desc := strip (ent_desc (ui w))) in *.
  destruct (String.eqb name "").
  { injection Hrun as <- <-. split; [done|]. eexists [_]. split; [done|]. left.
    apply answered_last_quiet. apply Forall_cons_2; [simpl; tauto|constructor]. }
  unfold try_except in Hrun. unfold bind at 1 in Hrun.
  set (block := with_conn sq _) in Hrun.
  assert (Hclean : handles no_answer block) by (subst block; clean).
  pose proof (handles_no_answer block w Hclean) as H. clear Hclean.
  destruct (block w) as [[[]|e] w1] eqn:Hblock; cbn [fst snd] in H.
  - (* the item is stored *)
    clear H. subst block.
    apply with_conn_ok in Hblock as (c & wa & wb & Hg & Hb & Hc).
    apply get_db_conn_ok in Hg as (st1 & cur0 & st2 & _ & _ & ->).
    apply bind_ok_inv in Hb as (cur1 & wc & H1 & Hb).
    apply sq_execute_ok in H1 as (st3 & _ & ->).
    apply bind_ok_inv in Hb as (cur2 & wd & H2 & Hb).
    apply sq_execute_ok in H2 as (st4 & _ & ->).
    apply sq_commit_ok in Hb as (st5 & _ & ->).
    apply sq_commit_ok in Hc as (st6 & _ & ->). cbn [env globals ui trace] in *.
    unfold bind, modify_ui in Hrun. cbn [env globals ui trace] in Hrun.
    match type of Hrun with context [reload_items sq ?w0] =>
      destruct (reload_items_caught w0) as (Hr & reload & T & HA & HM);
      destruct (reload_items sq w0) as [[[]|e] w2]; [|discriminate Hr]
    end.
    cbn [fst snd env globals ui trace] in *. unfold showinfo, emit in Hrun.
    injection Hrun as <- <-. cbn [env globals ui trace]. split; [done|].
    exists (item_added c name desc ++ reload
              ++ [MessageBox Info APP_TITLE "Item hinzugefügt."]).
    split; [rewrite T; unfold item_added; by rewrite <- !app_assoc|].
    right. by exists c, reload.
  - (* a failure of its own *)
    destruct H as (before & passing & T & F & P).
    unfold showerror, emit in Hrun. injection Hrun as <- <-. cbn [trace].
    split; [done|].
    exists (before ++ Raised e :: passing
              ++ [error_dialog "Fehler beim Hinzufügen:" e]).
    split; [rewrite T, <- !app_assoc; by rewrite <- app_comm_cons|].
    left. by apply answered_last_failure.
Qed.

(** The [try] block of [delete_selected_row] and its handler. *)
Lemma delete_try_caught t cols vals key (w : world St) :
  let run := try_except (delete_try sq t cols vals key)
               (fun e => showerror APP_TITLE ("Löschfehler:" +:+ nl +:+ e_str e)) w in
  run.1 = Ok tt
  /\ exists evs,
       trace run.2 = trace w ++ evs
       /\ (answered_last (error_dialog "Löschfehler:") evs
           \/ exists before c v load,
                evs = before ++ [Execute c (DeleteWhere t (str key) v); Commit c; Commit c]
                        ++ load
                /\ Forall (fun ev => ~ is_raised ev) before
                /\ answered_last (error_dialog "Fehler beim Laden:") load).
Proof.
  cbv zeta. unfold delete_try.
  assert (Hfail : forall e,
    let run := try_except (raise e)
                 (fun e => showerror (St:=St) APP_TITLE ("Löschfehler:" +:+ nl +:+ e_str e)) w in
    run.1 = Ok tt
    /\ exists evs, trace run.2 = trace w ++ evs
                   /\ (answered_last (error_dialog "Löschfehler:") evs
                       \/ exists before c v load,
                            evs = before
                                    ++ [Execute c (DeleteWhere t (str key) v); Commit c; Commit c]
                                    ++ load
                            /\ Forall (fun ev => ~ is_raised ev) before
                            /\ answered_last (error_dialog "Fehler beim Laden:") load)).
  { intros e. cbv zeta. split; [done|].
    exists ([] ++ Raised e :: [] ++ [error_dialog "Löschfehler:" e]). split.
    - unfold try_except, raise, showerror, emit. cbn [snd trace]. by rewrite <- app_assoc.
    - left. by apply answered_last_failure. }
  destruct (index_of cols key) as [i|]; [|rewrite bind_raise_eq; apply Hfail].
  rewrite bind_ret_eq.
  destruct (vals !! i) as [v|]; [|rewrite bind_raise_eq; apply Hfail].
  rewrite bind_ret_eq. clear Hfail.
  match goal with |- context [try_except ?b ?h w] =>
    destruct (try_except b h w) as [r w'] eqn:Hrun end.
  cbn [fst snd]. unfold try_except in Hrun. unfold bind at 1 in Hrun.
  set (block := with_conn sq _) in Hrun.
  assert (Hclean : handles no_answer block) by (subst block; clean).
  pose proof (handles_no_answer block w Hclean) as H. clear Hclean.
  destruct (block w) as [[[]|e] w1] eqn:Hblock; cbn [fst snd] in H.
  - (* the row is deleted *)
    clear H. subst block.
    apply with_conn_ok in Hblock as (c & wa & wb & Hg & Hb & Hc).
    apply get_db_conn_ok in Hg as (st1 & cur0 & st2 & _ & _ & ->).
    apply bind_ok_inv in Hb as (cur1 & wc & H1 & Hb).
    apply sq_execute_ok in H1 as (st3 & _ & ->).
    apply sq_commit_ok in Hb as (st4 & _ & ->).
    apply sq_commit_ok in Hc as (st5 & _ & ->). cbn [env globals ui trace] in *.
    unfold bind in Hrun.
    match type of Hrun with context [load_table_rows sq ?w0] =>
      destruct (load_table_rows_caught w0) as (Hr & load & T & HA);
      destruct (load_table_rows sq w0) as [[[]|e] w2]; [|discriminate Hr]
    end.
    cbn [fst snd env globals ui trace] in *. unfold _status, modify_ui in Hrun.
    injection Hrun as <- <-. cbn [env globals ui trace]. split; [done|].
    exists ([Connect c; Execute c PragmaForeignKeysOn]
              ++ [Execute c (DeleteWhere t (str key) v); Commit c; Commit c] ++ load).
    split; [rewrite T; by rewrite <- !app_assoc|].
    right. exists [Connect c; Execute c PragmaForeignKeysOn], c, v, load.
    split; [done|]. split; [|done].
    repeat (apply Forall_cons_2; [simpl; tauto|]). constructor.
  - destruct H as (before & passing & T & F & P).
    unfold showerror, emit in Hrun. injection Hrun as <- <-. cbn [trace].
    split; [done|].
    exists (before ++ Raised e :: passing ++ [error_dialog "Löschfehler:" e]).
    split; [rewrite T, <- !app_assoc; by rewrite <- app_comm_cons|].
    left. by apply answered_last_failure.
Qed.

Lemma delete_selected_row_caught (w : world St) :
  let r := delete_selected_row sq w in
  exists evs,
    trace r.2 = trace w ++ evs
    /\ (r.1 = Ok tt /\ caught DeleteSelectedRow (ui w) evs
        \/ escapes (ui w) r.1 evs).
Proof.
  cbv zeta. destruct (delete_selected_row sq w) as [r w'] eqn:Hrun. cbn [fst snd].
  unfold delete_selected_row in Hrun. rewrite bind_get_ui in Hrun. cbv zeta in Hrun.
  cbn [caught]. set (t := strip (cmb_tables (ui w))) in *.
  destruct (String.eqb t "").
  { injection Hrun as <- <-. exists []. rewrite app_nil_r. split; [done|]. left.
    split; [done|]. left. by apply answered_last_quiet. }
  destruct (selection (grid_browse (ui w))) as [|sel0 sel].
  { injection Hrun as <- <-. eexists [_]. split; [done|]. left. split; [done|]. left.
    apply answered_last_quiet. apply Forall_cons_2; [simpl; tauto|constructor]. }
  set (cols := columns (grid_browse (ui w))) in *.
  unfold bind at 1 in Hrun.
  pose proof (handles_no_answer _ w (handles_find_pk_col sq no_answer t cols)) as H.
  assert (Hnd : emits_only (fun ev => ~ is_delete ev) (find_pk_col sq t cols)).
  { unfold find_pk_col. destruct (existsb _ cols); [apply emits_ret|].
    apply emits_bind; [|intros pkinfo; apply emits_first_pk; simpl; tauto].
    apply emits_with_conn; try (intros; simpl; tauto). intros c.
    apply emits_bind; [apply emits_sq_execute; simpl; tauto|]. intros cur.
    apply emits_ret. }
  destruct (Hnd w) as (lookup & Tl & Fl). clear Hnd.
  assert (Hid : existsb (String.eqb "id") cols = true ->
                exists pk w1, find_pk_col sq t cols w = (Ok pk, w1)).
  { intros Hid. unfold find_pk_col. rewrite Hid. by exists (VStr "id"), w. }
  destruct (find_pk_col sq t cols w) as [[pk|e] w1] eqn:Hfind; cbn [fst snd] in *.
  - destruct H as (evs1 & T1 & F1).
    destruct (negb (truthy pk)).
    { unfold showwarning, emit in Hrun. injection Hrun as <- <-. cbn [trace].
      eexists (evs1 ++ [_]). split; [by rewrite T1, <- app_assoc|]. left.
      split; [done|]. left. apply answered_last_quiet. apply Forall_app. split; [done|].
      apply Forall_cons_2; [simpl; tauto|constructor]. }
    destruct (delete_try_caught t cols
                (default [] (items (grid_browse (ui w)) !! sel0)) pk w1)
      as (Hr & evs2 & T2 & HA).
    rewrite Hrun in Hr, T2. cbn [fst snd] in Hr, T2. subst r.
    exists (evs1 ++ evs2). split; [by rewrite T2, T1, <- app_assoc|]. left.
    split; [done|]. destruct HA as [HA|(before & c & v & load & -> & Hb & HA)].
    + left. by apply answered_last_after.
    + right. exists (evs1 ++ before), c, (str pk), v, load.
      split; [by rewrite <- !app_assoc|]. split; [by apply Forall_app|done].
  - injection Hrun as <- <-. destruct H as (before & passing & T & F & P).
    exists (before ++ Raised e :: passing). split; [done|]. right. split.
    + destruct (existsb (String.eqb "id") (columns (grid_browse (ui w)))) eqn:E; [|done].
      destruct (Hid E) as (? & ? & [=]).
    + exists e, before, passing. repeat split; try done.
      rewrite T in Tl. apply app_inv_head in Tl. subst lookup.
      by apply Forall_app in Fl as [Fl _].
Qed.


Lemma cleanup_not_user_sql evs :
  Forall cleanup evs -> Forall (fun ev => ~ is_user_sql ev) evs.
Proof. intros H. eapply Forall_impl; [exact H|]. intros []; simpl; tauto. Qed.

Lemma answered_once_quiet answer evs :
  Forall (fun ev => ~ is_raised ev) evs -> answered_once answer evs.
Proof.
  intros H. exists [], evs. split; [done|]. split; [|done].
  by apply answered_last_quiet.
Qed.

Lemma answered_once_last answer evs : answered_last answer evs -> answered_once answer evs.
Proof. intros H. exists evs, []. by rewrite app_nil_r. Qed.

Lemma answered_once_before answer evs1 evs2 :
  Forall (fun ev => ~ is_raised ev) evs1 -> answered_once answer evs2 ->
  answered_once answer (evs1 ++ evs2).
Proof.
  intros H1 (part & more & -> & Hp & Hm). exists (evs1 ++ part), more.
  rewrite app_assoc. split; [done|]. split; [|done]. by apply answered_last_after.
Qed.

Lemma answered_once_after answer evs1 evs2 :
  answered_once answer evs1 -> Forall (fun ev => ~ is_raised ev) evs2 ->
  answered_once answer (evs1 ++ evs2).
Proof.
  intros (part & more & -> & Hp & Hm) H2. exists part, (more ++ evs2).
  rewrite app_assoc. split; [done|]. split; [done|]. by apply Forall_app.
Qed.

Lemma passes_clean {A} answer (m : M St A) : handles no_answer m -> passes answer m.
Proof.
  intros Hm w. pose proof (handles_no_answer m w Hm) as H.
  destruct (m w).1 as [a|e].
  - destruct H as (evs & T & F). exists evs. split; [done|]. by apply answered_once_quiet.
  - destruct H as (before & passing & T & F & P). exists (before ++ Raised e :: passing).
    split; [done|]. exists before, passing. split; [done|].
    split; [by apply answered_once_quiet|done].
Qed.

(** What passes no handler, then what passes one. *)
Lemma passes_after_clean {A B} answer (m : M St A) (k : A -> M St B) :
  handles no_answer m -> (forall a, passes answer (k a)) -> passes answer (bind m k).
Proof.
  intros Hm Hk w. pose proof (handles_no_answer m w Hm) as H. unfold bind.
  destruct (m w) as [[a|e] w1]; cbn [fst snd] in *.
  - destruct H as (evs1 & T1 & F1). destruct (Hk a w1) as (evs2 & T2 & H2).
    exists (evs1 ++ evs2). rewrite T2, T1, app_assoc. split; [done|].
    destruct (k a w1).1 as [b|e].
    + by apply answered_once_before.
    + destruct H2 as (mid & passing & -> & Hmid & Hp). exists (evs1 ++ mid), passing.
      rewrite <- app_assoc. split; [done|]. split; [|done]. by apply answered_once_before.
  - destruct H as (before & passing & T & F & P). exists (before ++ Raised e :: passing).
    split; [done|]. exists before, passing. split; [done|].
    split; [by apply answered_once_quiet|done].
Qed.

Lemma passes_with_conn {A} answer (body : nat -> M St A) :
  (forall c, passes answer (body c)) -> passes answer (with_conn sq body).
Proof.
  intros Hb. unfold with_conn. apply passes_after_clean.
  { unfold get_db_conn, sq_connect. clean. }
  intros c w. destruct (Hb c w) as (evs & T & H).
  destruct (body c w) as [[a|e] w1]; cbn [fst snd] in *.
  - unfold bind. rewrite sq_commit_eq.
    destruct (commit sq c (env w1)) as [[[]|e] st]; cbn [fst snd trace].
    + exists (evs ++ [Commit c]). rewrite T, <- app_assoc. split; [done|].
      apply answered_once_after; [done|]. apply Forall_cons_2; [simpl; tauto|constructor].
    + exists ((evs ++ [Commit c]) ++ Raised e :: []). rewrite T, <- !app_assoc.
      split; [done|]. exists (evs ++ [Commit c]), []. rewrite <- app_assoc.
      split; [done|]. split; [|constructor].
      apply answered_once_after; [done|]. apply Forall_cons_2; [simpl; tauto|constructor].
  - destruct H as (mid & passing & -> & Hmid & Hp).
    exists (mid ++ Raised e :: passing ++ [Rollback c]).
    unfold bind, sq_rollback, bind, emit, call, reraise. cbn [fst snd env globals ui trace].
    rewrite T, <- !app_assoc. split; [by rewrite <- app_comm_cons|].
    exists mid, (passing ++ [Rollback c]). split; [done|]. split; [done|].
    apply Forall_app. split; [done|]. by apply Forall_cons_2.
Qed.

Lemma passes_load_table_rows :
  passes (error_dialog "Fehler beim Laden:") (load_table_rows sq).
Proof.
  intros w. destruct (load_table_rows_caught w) as (Hr & evs & T & HA).
  exists evs. split; [done|]. rewrite Hr. by apply answered_once_last.
Qed.

Lemma passes_reload_items : passes empties_item_grid (reload_items sq).
Proof.
  intros w. destruct (reload_items_caught w) as (Hr & evs & T & HA & _).
  exists evs. split; [done|]. rewrite Hr. by apply answered_once_last.
Qed.

(** One after the other. *)
Lemma passes_two_bind {A B} first second (m : M St A) (k : A -> M St B) :
  passes first m -> (forall a, passes second (k a)) -> passes_two first second (bind m k).
Proof.
  intros Hm Hk w. destruct (Hm w) as (evs1 & T1 & H1). unfold bind.
  destruct (m w) as [[a|e] w1]; cbn [fst snd] in *.
  - destruct (Hk a w1) as (evs2 & T2 & H2).
    destruct (k a w1) as [[b|e] w2]; cbn [fst snd] in *.
    + exists evs1, evs2. split; [done|]. split; [done|]. by rewrite T2, T1, app_assoc.
    + destruct H2 as (mid & passing & -> & Hmid & Hp). exists evs1, mid.
      split; [done|]. split; [done|]. exists passing. split; [|done].
      by rewrite T2, T1, <- !app_assoc.
  - destruct H1 as (mid & passing & -> & Hmid & Hp). exists mid, [].
    split; [done|]. split; [by apply answered_once_quiet|]. exists passing. by split.
Qed.

Lemma passes_two_after_clean {A B} first second (m : M St A) (k : A -> M St B) :
  handles no_answer m -> (forall a, passes_two first second (k a)) ->
  passes_two first second (bind m k).
Proof.
  intros Hm Hk w. pose proof (handles_no_answer m w Hm) as H. unfold bind.
  destruct (m w) as [[a|e] w1]; cbn [fst snd] in *.
  - destruct H as (evs1 & T1 & F1). destruct (Hk a w1) as (p1 & p2 & H1 & H2 & Hr).
    exists (evs1 ++ p1), p2. split; [by apply answered_once_before|]. split; [done|].
    destruct (k a w1).1 as [b|e].
    + by rewrite Hr, T1, <- !app_assoc.
    + destruct Hr as (passing & Hr & Hp). exists passing. split; [|done].
      by rewrite Hr, T1, <- !app_assoc.
  - destruct H as (before & passing & T & F & P). exists before, [].
    split; [by apply answered_once_quiet|]. split; [by apply answered_once_quiet|].
    exists passing. by split.
Qed.

Lemma passes_two_then_clean {A B} first second (m : M St A) (k : A -> M St B) :
  passes_two first second m -> (forall a, handles no_answer (k a)) ->
  passes_two first second (bind m k).
Proof.
  intros Hm Hk w. destruct (Hm w) as (p1 & p2 & H1 & H2 & Hr). unfold bind.
  destruct (m w) as [[a|e] w1]; cbn [fst snd] in *.
  - pose proof (handles_no_answer (k a) w1 (Hk a)) as H.
    destruct (k a w1) as [[b|e] w2]; cbn [fst snd] in *.
    + destruct H as (evs & T & F). exists p1, (p2 ++ evs). split; [done|].
      split; [by apply answered_once_after|]. by rewrite T, Hr, <- !app_assoc.
    + destruct H as (before & passing & T & F & P). exists p1, (p2 ++ before).
      split; [done|]. split; [by apply answered_once_after|]. exists passing.
      split; [|done]. by rewrite T, Hr, <- !app_assoc.
  - exists p1, p2. by repeat split.
Qed.

(** [refresh_schema] passes the handler of [load_table_rows], then
    that of [reload_items]. *)
Lemma passes_refresh_schema :
  passes_two (error_dialog "Fehler beim Laden:") empties_item_grid (refresh_schema sq).
Proof.
  unfold refresh_schema, column_tree_label, fk_tree_label, tree_insert.
  do 3 (apply passes_two_after_clean; [clean|intros _]).
  apply passes_two_after_clean.
  { apply catches_handles, catches_exists_current_db. }
  intros present. destruct (negb present).
  { intros w. exists [], []. rewrite app_nil_r.
    repeat split; by apply answered_once_quiet. }
  apply passes_two_bind; [|intros _; apply passes_reload_items].
  apply passes_with_conn. intros c.
  apply passes_after_clean; [clean|]. intros cur. cbv zeta.
  apply passes_after_clean; [clean|]. intros names.
  apply passes_after_clean; [clean|]. intros _.
  destruct names as [|n0 names]; [apply passes_clean; clean|].
  apply passes_after_clean; [clean|]. intros _. apply passes_load_table_rows.
Qed.

Lemma run_sql_caught (w : world St) :
  (run_sql sq w).1 = Ok tt
  /\ exists evs,
       trace (run_sql sq w).2 = trace w ++ evs /\ caught RunSql (ui w) evs.
Proof.
  destruct (run_sql sq w) as [r w'] eqn:Hrun. cbn [fst snd].
  unfold run_sql in Hrun. rewrite bind_get_ui in Hrun. cbv zeta in Hrun. cbn [caught].
  destruct (String.eqb _ "").
  { injection Hrun as <- <-. split; [done|]. exists []. rewrite app_nil_r. split; [done|].
    exists [], [], [], []. split; [done|]. split; [constructor|].
    split; [by apply answered_once_quiet|]. split; [by apply answered_once_quiet|].
    split; [constructor|]. split; [done|]. by left. }
  unfold try_except in Hrun. unfold bind at 1 in Hrun.
  set (block := with_conn sq _) in Hrun.
  match type of Hrun with context [bind (refresh_schema sq) ?k] =>
    set (after := bind (refresh_schema sq) k) in Hrun end.
  assert (Hbody : forall c, handles no_answer
            (let* out := run_sql_execute sq c (strip (txt_sql (ui w))) in
             let '(out_cols, out_rows) := out in show_result out_cols out_rows))
    by (intros c; clean).
  assert (Hclean : handles no_answer block)
    by (subst block; apply handles_with_conn; exact Hbody).
  assert (Hafter : passes_two (error_dialog "Fehler beim Laden:") empties_item_grid after).
  { subst after. apply passes_two_then_clean; [apply passes_refresh_schema|]. intros _.
    apply handles_bind; [apply handles_build_er_diagram|]. intros _. clean. }
  assert (Eafter : emits_only (fun ev => ~ is_user_sql ev) after).
  { subst after. apply emits_bind; [apply emits_refresh_schema; simpl; tauto|]. intros _.
    apply emits_bind; [apply emits_build_er_diagram; simpl; tauto|]. intros _.
    apply emits_status. }
  pose proof (handles_no_answer block w Hclean) as H. clear Hclean.
  destruct (block w) as [[[]|e] w1] eqn:Hblock; cbn [fst snd] in H.
  - (* the input is executed and committed *)
    destruct H as (input & T1 & F1).
    assert (Hlast : exists c, last input = Some (Commit c)).
    { subst block. apply with_conn_ok in Hblock as (c & wa & wb & Hg & Hb & Hc).
      apply get_db_conn_ok in Hg as (st1 & cur0 & st2 & _ & _ & ->).
      destruct (Hbody c (World st2 (globals w) (ui w)
                           (trace w ++ [Connect c; Execute c PragmaForeignKeysOn])))
        as (evsb & Tb & _).
      rewrite Hb in Tb. cbn [snd trace] in Tb.
      apply sq_commit_ok in Hc as (st3 & _ & ->). cbn [trace] in T1.
      rewrite Tb, <- !app_assoc in T1. apply app_inv_head in T1. subst input.
      exists c. by rewrite !app_assoc, last_snoc. }
    destruct (Hafter w1) as (loaded & reloaded & H1 & H2 & Hr).
    destruct (Eafter w1) as (evs2 & T2 & N2).
    destruct (after w1) as [[[]|e] w2]; cbn [fst snd] in *.
    + injection Hrun as <- <-. split; [done|]. exists (input ++ loaded ++ reloaded).
      split; [by rewrite Hr, T1, <- app_assoc|].
      rewrite Hr in T2. apply app_inv_head in T2. subst evs2.
      exists input, loaded, reloaded, []. rewrite !app_nil_r.
      repeat split; try done. by left.
    + destruct Hr as (passing & Hr & Hp).
      unfold showerror, emit in Hrun. injection Hrun as <- <-. cbn [trace].
      split; [done|].
      rewrite Hr in T2. apply app_inv_head in T2. subst evs2.
      exists (input ++ (loaded ++ reloaded)
                ++ Raised e :: passing ++ [error_dialog "SQL-Fehler:" e]).
      split; [rewrite Hr, T1, <- !app_assoc; by rewrite <- app_comm_cons|].
      exists input, loaded, reloaded, (Raised e :: passing ++ [error_dialog "SQL-Fehler:" e]).
      repeat split; try done.
      * rewrite !Forall_app in N2. destruct N2 as (N1 & N2 & N3).
        rewrite !Forall_app. split; [done|]. split; [done|].
        apply Forall_cons_2; [simpl; tauto|]. apply Forall_app. split.
        -- by apply cleanup_not_user_sql.
        -- apply Forall_cons_2; [simpl; tauto|constructor].
      * right. by exists e, passing.
  - (* a failure of the input, of its display or of a commit *)
    destruct H as (input & passing & T & F & P).
    unfold showerror, emit in Hrun. injection Hrun as <- <-. cbn [trace].
    split; [done|].
    exists (input ++ ([] ++ []) ++ Raised e :: passing ++ [error_dialog "SQL-Fehler:" e]).
    split; [rewrite T, <- !app_assoc; by rewrite <- app_comm_cons|].
    exists input, [], [], (Raised e :: passing ++ [error_dialog "SQL-Fehler:" e]).
    split; [done|]. split; [done|].
    split; [by apply answered_once_quiet|]. split; [by apply answered_once_quiet|].
    split; [|split; [done|]].
    + cbn [app]. apply Forall_cons_2; [simpl; tauto|]. apply Forall_app. split.
      * by apply cleanup_not_user_sql.
      * apply Forall_cons_2; [simpl; tauto|constructor].
    + right. by exists e, passing.
Qed.

(** C7, amended.  Whatever the database and the file system answer,
    each of the six operations returns, with every failure answered by
    a handler after nothing but the roll-back of the connection and
    the closing of the file, except that a failure of the key lookup
    of [delete_selected_row], which lies before its [try], leaves the
    operation.  The handler of the operation itself shows its error
    dialog with the text of the exception ([reload_items]: no dialog,
    the item grid emptied), and this is the last thing the operation
    does.  The handlers passed on the way answer one failure each at
    most: that of [reload_items] in [add_item], reached only after the
    item was stored and followed by the confirmation alone; that of
    [load_table_rows] in [delete_selected_row], reached only after the
    committed [DELETE]; and those of [load_table_rows] and then of
    [reload_items] in [run_sql], reached only after the commit of the
    input, none of which is executed again.  A table without a key
    column makes [delete_selected_row] show its warning and do nothing
    else. *)
Theorem failures_are_caught (w : world St) (op : operation) :
  user_operation op ->
  let r := perform sq op w in
  (exists evs,
     trace r.2 = trace w ++ evs
     /\ (r.1 = Ok tt /\ caught op (ui w) evs
         \/ op = DeleteSelectedRow /\ escapes (ui w) r.1 evs))
  /\ (op = DeleteSelectedRow ->
      forall t sel0 sel conn cur0 pk_cur st1 st2 st3 st4,
        strip (cmb_tables (ui w)) = t -> t <> "" ->
        selection (grid_browse (ui w)) = sel0 :: sel ->
        ~ In "id" (columns (grid_browse (ui w))) ->
        connect sq (DbName.CURRENT_DB (globals w)) (env w) = (Ok conn, st1) ->
        execute sq conn PragmaForeignKeysOn st1 = (Ok cur0, st2) ->
        execute sq conn (PragmaTableInfo t) st2 = (Ok pk_cur, st3) ->
        commit sq conn st3 = (Ok tt, st4) ->
        Forall has_pk_and_name (rows_of pk_cur) ->
        truthy (stated_pk (rows_of pk_cur)) = false ->
        r = (Ok tt,
             World st4 (globals w) (ui w)
               (trace w
                  ++ [ Connect conn; Execute conn PragmaForeignKeysOn;
                       Execute conn (PragmaTableInfo t); Commit conn;
                       MessageBox Warning APP_TITLE
                         "Keine PK-Spalte gefunden (z. B. 'id')." ]))).
Proof.
  intros Hop r. split.
  - subst r. destruct op; simpl in Hop; try contradiction; cbn [perform].
    + destruct (load_table_rows_caught w) as (Hr & evs & T & HA). exists evs. auto.
    + destruct (delete_selected_row_caught w) as (evs & T & H). exists evs.
      split; [done|]. destruct H as [H|H]; auto.
    + destruct (export_csv_current_caught file w) as (Hr & evs & T & HA). exists evs. auto.
    + destruct (add_item_caught w) as (Hr & evs & T & HA). exists evs. auto.
    + destruct (reload_items_caught w) as (Hr & evs & T & HA). exists evs. auto.
    + destruct (run_sql_caught w) as (Hr & evs & T & HA). exists evs. auto.
  - intros -> t sel0 sel conn cur0 pk_cur st1 st2 st3 st4 Ht Hne Hsel Hid Hc Hp Hi Hm Hwf Hk.
    subst r. cbn [perform]. unfold delete_selected_row. rewrite bind_get_ui. cbv zeta.
    rewrite Ht. apply String.eqb_neq in Hne. rewrite Hne, Hsel.
    unfold bind at 1.
    rewrite (find_pk_col_answered sq t _ w conn cur0 pk_cur st1 st2 st3 st4);
      try assumption.
    + rewrite Hk. cbn [negb]. unfold showwarning, emit. cbn [env globals ui trace].
      by rewrite <- app_assoc.
    + destruct (existsb _ _) eqn:E; [|done]. by apply has_id_In in E.
Qed.

End CaughtFacts.

(** ** The operations and the commands on the examples *)
Section CaseFacts.
Import PyStr Gui Trace RefDb Examples Discipline Outcome Handlers Shell Cases.

Lemma load_table_rows_shows_the_rows_witness :
  let w' := (load_table_rows engine kunden_chosen).2 in
  grid_browse (ui w') = Grid ["kunden_id"; "name"] (fetchall kunden_answer) []
  /\ status (ui w') = "2 Zeilen aus 'kunden' geladen.".
Proof.
  cbv zeta.
  rewrite (load_table_rows_shows_the_rows engine kunden_chosen "kunden" 0
             (Cursor None []) kunden_answer
             (connect engine (DbName.CURRENT_DB (globals kunden_chosen))
                (env kunden_chosen)).2
             (connect engine (DbName.CURRENT_DB (globals kunden_chosen))
                (env kunden_chosen)).2
             (connect engine (DbName.CURRENT_DB (globals kunden_chosen))
                (env kunden_chosen)).2
             (commit engine 0
                (connect engine (DbName.CURRENT_DB (globals kunden_chosen))
                   (env kunden_chosen)).2).2
             ["kunden_id"; "name"]).
  - split; reflexivity.
  - reflexivity.
  - discriminate.
  - vm_compute. reflexivity.
  - vm_compute. reflexivity.
  - vm_compute. reflexivity.
  - vm_compute. reflexivity.
  - reflexivity.
  - apply (bool_decide_unpack _). vm_compute. exact I.
  - repeat constructor.
Defined.

Lemma without_database_file_witness :
  tree (ui (refresh_schema engine no_file).2) = []
  /\ er_info (ui (build_er_diagram engine no_file).2) = "Keine DB."
  /\ trace (refresh_schema engine no_file).2 = [].
Proof.
  destruct (without_database_file engine no_file) as [-> ->]; [reflexivity|].
  repeat split.
Defined.

Lemma connection_failure_leaves_refresh_witness :
  let e := operational_error "unable to open database file" in
  (refresh_schema engine unreadable).1 = Raise e
  /\ trace (refresh_schema engine unreadable).2 = [Raised e]
  /\ (build_er_diagram engine unreadable).1 = Raise e.
Proof.
  destruct (connection_failure_leaves_refresh engine unreadable
              (operational_error "unable to open database file") (env unreadable))
    as [-> ->]; [reflexivity..|].
  repeat split.
Defined.

Lemma refresh_schema_lists_the_tables_witness :
  let w' := (refresh_schema engine shop_world).2 in
  let names := map table_name (rows_of tables_answer) in
  names = ["bestellungen"; "kunden"]
  /\ cmb_tables_values (ui w') = names
  /\ cmb_tables (ui w') = default "" (head names)
  /\ top_level (tree (ui w')) = names.
Proof.
  split; [reflexivity|].
  apply (refresh_schema_lists_the_tables engine shop_world
           (refresh_schema engine shop_world).2 0 (Cursor None []) tables_answer
           (connect engine (DbName.CURRENT_DB (globals shop_world)) (env shop_world)).2
           (connect engine (DbName.CURRENT_DB (globals shop_world)) (env shop_world)).2
           (connect engine (DbName.CURRENT_DB (globals shop_world)) (env shop_world)).2);
    vm_compute; reflexivity.
Defined.

Lemma build_er_diagram_draws_the_catalog_witness :
  let w' := (build_er_diagram engine shop_world).2 in
  exists catalog,
    map Er.t_name catalog = map table_name (rows_of tables_answer)
    /\ er_canvas (ui w') = (Er.render (er_canvas_winfo_width (ui shop_world)) catalog).1
    /\ er_info (ui w')
       = "Generiert aus: " +:+ default "" (last (DbName.CURRENT_DB (globals shop_world))).
Proof.
  apply (build_er_diagram_draws_the_catalog engine shop_world
           (build_er_diagram engine shop_world).2 0 (Cursor None []) tables_answer
           (connect engine (DbName.CURRENT_DB (globals shop_world)) (env shop_world)).2
           (connect engine (DbName.CURRENT_DB (globals shop_world)) (env shop_world)).2
           (connect engine (DbName.CURRENT_DB (globals shop_world)) (env shop_world)).2);
    vm_compute; reflexivity.
Defined.

(** A database chosen outside the data directory: the program turns to
    the file of the same name inside it. *)
Lemma on_open_db_witness :
  let r := on_open_db file_engine posix "/home/me/shop.db" fresh in
  globals (world_of r.2)
    = DbName.Globals ["/"; "app"; "data"] (["/"; "app"; "data"] ++ ["shop.db"])
  /\ lbl_db r.2 = "Aktuelle DB: /app/data/shop.db".
Proof.
  destruct (on_open_db_opens_the_name_in_data_dir file_engine posix fresh
              "/home/me/shop.db") as (H1 & H2 & _); [discriminate|reflexivity|].
  split; [exact H1|exact H2].
Defined.

Lemma on_new_db_creates_witness :
  let r := on_new_db file_engine posix "/home/me/my shop.db" fresh in
  r.1 = Raise invalid_name
  /\ existing (env (world_of r.2)) = [["/"; "home"; "me"; "my shop.db"]]
  /\ globals (world_of r.2) = globals (world_of fresh).
Proof.
  cbv zeta.
  rewrite (on_new_db_creates_before_it_checks file_engine posix fresh
             "/home/me/my shop.db" 0 (Cursor None []) (Cursor None [])
             (Files [["/"; "home"; "me"; "my shop.db"]] 1)
             (Files [["/"; "home"; "me"; "my shop.db"]] 1)
             (Files [["/"; "home"; "me"; "my shop.db"]] 1)
             (Files [["/"; "home"; "me"; "my shop.db"]] 1)
             (Files [["/"; "home"; "me"; "my shop.db"]] 1));
    try reflexivity.
  - by repeat split.
  - discriminate.
Defined.

Lemma on_new_db_opens_witness :
  let r := on_new_db file_engine posix "/home/me/shop.db" fresh in
  r.1 = Ok tt
  /\ existing (env (world_of r.2)) = [["/"; "home"; "me"; "shop.db"]]
  /\ DbName.CURRENT_DB (globals (world_of r.2)) = ["/"; "app"; "data"; "shop.db"]
  /\ er_info (ui (world_of r.2)) = "Keine DB."
  /\ status (ui (world_of r.2)) = "Neue DB erstellt.".
Proof.
  cbv zeta.
  rewrite (on_new_db_opens_the_name_in_data_dir file_engine posix fresh
             "/home/me/shop.db" 0 (Cursor None []) (Cursor None [])
             (Files [["/"; "home"; "me"; "shop.db"]] 1)
             (Files [["/"; "home"; "me"; "shop.db"]] 1)
             (Files [["/"; "home"; "me"; "shop.db"]] 1)
             (Files [["/"; "home"; "me"; "shop.db"]] 1)
             (Files [["/"; "home"; "me"; "shop.db"]] 1));
    try reflexivity.
  - by repeat split.
  - discriminate.
Defined.

Lemma run_sql_result_witness :
  let w := typing two_statements shop_world in
  result (ui (run_sql engine w).2)
    = Grid ["kunden_id"; "name"] [ [VInt 1; VStr "Alice"]; [VInt 2; VStr "Bob"] ] []
  /\ displayed two_statements_log = result (ui (run_sql engine w).2).
Proof.
  intros w.
  destruct (proj2 (proj2 (run_sql_result engine w)) ltac:(discriminate) 0%nat
              (Cursor None [])
              (connect engine (DbName.CURRENT_DB (globals w)) (env w)).2
              (connect engine (DbName.CURRENT_DB (globals w)) (env w)).2
              ltac:(reflexivity) ltac:(reflexivity))
    as (evs & _ & _ & Hst).
  destruct Hst as [_ Hst].
  { intros (_ & H & _). vm_compute in H. discriminate H. }
  destruct (Hst two_statements_log
              (engine_run engine 0%nat (statements two_statements)
                 (connect engine (DbName.CURRENT_DB (globals w)) (env w)).2).2
              (commit engine 0%nat
                 (engine_run engine 0%nat (statements two_statements)
                    (connect engine (DbName.CURRENT_DB (globals w)) (env w)).2).2).2)
    as (_ & Hshown & Hrows).
  - vm_compute. reflexivity.
  - vm_compute. reflexivity.
  - intros q cols [= <-] [= <-]. repeat constructor.
  - split; [|by rewrite Hshown].
    apply (Hrows (RunEntry "select * from kunden" kunden_answer 1 1) "kunden_id" ["name"]);
      [reflexivity..|].
    apply (bool_decide_unpack _). vm_compute. exact I.
Defined.

Lemma failures_are_caught_witness :
  (let w := typing two_statements shop_world in
   exists evs,
     trace (perform engine RunSql w).2 = trace w ++ evs
     /\ ((perform engine RunSql w).1 = Ok tt /\ caught RunSql (ui w) evs
         \/ RunSql = DeleteSelectedRow /\ escapes (ui w) (perform engine RunSql w).1 evs))
  /\ trace (perform engine DeleteSelectedRow note_world).2
     = [ Connect 1; Execute 1 PragmaForeignKeysOn;
         Execute 1 (PragmaTableInfo "notizen"); Commit 1;
         MessageBox Warning APP_TITLE "Keine PK-Spalte gefunden (z. B. 'id')." ].
Proof.
  split.
  - exact (proj1 (failures_are_caught engine (typing two_statements shop_world) RunSql I)).
  - pose proof (proj2 (failures_are_caught engine note_world DeleteSelectedRow I) eq_refl
                  "notizen" 0%nat [] 1%nat (Cursor None [])
                  (Cursor (Some ["cid"; "name"; "type"; "notnull"; "dflt_value"; "pk"])
                     [ [VInt 0; VStr "text"; VStr "TEXT"; VInt 0; VNone; VInt 0] ])
                  (connect engine (DbName.CURRENT_DB (globals note_world)) (env note_world)).2
                  (connect engine (DbName.CURRENT_DB (globals note_world)) (env note_world)).2
                  (connect engine (DbName.CURRENT_DB (globals note_world)) (env note_world)).2
                  (connect engine (DbName.CURRENT_DB (globals note_world)) (env note_world)).2)
      as H.
    cbv zeta in H. rewrite H.
    + reflexivity.
    + vm_compute. reflexivity.
    + discriminate.
    + vm_compute. reflexivity.
    + vm_compute. intros [H'|[]]. discriminate H'.
    + vm_compute. reflexivity.
    + vm_compute. reflexivity.
    + vm_compute. reflexivity.
    + vm_compute. reflexivity.
    + repeat constructor; by eexists.
    + reflexivity.
Defined.

(** The handlers at work.  Without a table [items] the reload that
    ends [run_sql] fails silently and the run goes on; a query that
    fails ends the run with the dialog; [add_item] on a database that
    cannot be opened shows its own dialog; the key lookup of
    [delete_selected_row] on such a database is not caught. *)
Example handlers_on_the_examples :
  let no_items := Raised (operational_error "no such table: items") in
  (let r := run_sql engine (typing "select * from kunden" shop_world) in
   r.1 = Ok tt
   /\ take 5 (drop 20 (trace r.2))
      = [ Execute 3 SelectItems; no_items; Rollback 3; GridReset GridItems []; Connect 4 ]
   /\ last (trace r.2) = Some (Commit 4))
  /\ trace (run_sql engine (typing "select * from kunden where" shop_world)).2
     = [ Connect 0; Execute 0 PragmaForeignKeysOn;
         Execute 0 (Statement "select * from kunden where");
         Raised (operational_error "no such table: kunden where"); Rollback 0;
         error_dialog "SQL-Fehler:" (operational_error "no such table: kunden where") ]
  /\ trace (add_item engine (with_ui (set_ent_name " Tee ") lost_world)).2
     = [ Raised unable_to_open; error_dialog "Fehler beim Hinzufügen:" unable_to_open ]
  /\ (delete_selected_row engine lost_world).1 = Raise unable_to_open
  /\ trace (delete_selected_row engine lost_world).2 = [ Raised unable_to_open ].
Proof.
  vm_compute. by repeat split.
Qed.

(** Two columns of one name: the grid shows the value of the first
    under both. *)
Example repeated_column_name :
  let w := World (Files [] 0) (globals shop_world)
             (set_txt_sql "SELECT 1 AS a, 2 AS a" blank_widgets) [] in
  script_branch "SELECT 1 AS a, 2 AS a" = false
  /\ execute alias_engine 0 (Statement "SELECT 1 AS a, 2 AS a") (Files [] 1)
     = (Ok (Cursor (Some ["a"; "a"]) [ [VInt 1; VInt 2] ]), Files [] 1)
  /\ result (ui (run_sql alias_engine w).2) = Grid ["a"; "a"] [ [VInt 1; VInt 1] ] [].
Proof. vm_compute. by repeat split. Qed.

(** A script: one [executescript] of the whole input; the rows of the
    result grid go and its columns stay. *)
Example script_is_run_whole :
  let shown := (run_sql engine (typing two_statements shop_world)).2 in
  let r := run_sql engine (forget_trace (typing "drop table bestellungen; " shown)) in
  take 4 (trace r.2)
    = [ Connect 5; Execute 5 PragmaForeignKeysOn;
        ExecuteScript 5 "drop table bestellungen;"; Commit 5 ]
  /\ result (ui shown)
     = Grid ["kunden_id"; "name"] [ [VInt 1; VStr "Alice"]; [VInt 2; VStr "Bob"] ] []
  /\ result (ui r.2) = Grid ["kunden_id"; "name"] [] [].
Proof. vm_compute. by repeat split. Qed.

(** The examples of the program, as [run_sql] takes them: the first
    goes to [executescript], the second is three statements, the others
    are one query each. *)
Example examples_of_the_program :
  map (fun ex => (script_branch (strip (snd ex)), length (statements (strip (snd ex)))))
    _example_queries
  = [ (true, 3%nat); (false, 3%nat); (false, 1%nat); (false, 1%nat); (false, 1%nat);
      (false, 1%nat) ].
Proof. vm_compute. reflexivity. Qed.

End CaseFacts.
